(** * Flash-backed file storage of game-and-watch-retro-go

    A shallow embedding of the two variants of [filesystem.c] found in the
    repository:

    - [CoreFS]: [src/Core/Src/filesystem.c], the early variant with a
      standalone [filesystem_write] and a hard-wired block count;
    - [PoolFS]: the later variant ([src/unnamed/part_001]) with a static pool
      of [MAX_OPEN_FILES] file handles, one shared compression slot and the
      data-cache bracket around flash programming.

    C integers are [Z] with their wrap-around written out, the mutable
    statics of the translation unit are the fields of a [world] record that
    is threaded through a small state-and-abort monad, and every call that
    leaves the translation unit (littlefs, the OSPI flash driver, the cache
    maintenance intrinsics, the RTC, [printf]) is appended to a trace. *)

From Stdlib Require Import ZArith List String Bool Lia.
From stdpp Require Import base list.
Import ListNotations.
Local Open Scope string_scope.
Local Open Scope list_scope.
Local Open Scope Z_scope.

(** ** Machine integers *)

Definition u8 (z : Z) : Z := z mod 2 ^ 8.
Definition u32 (z : Z) : Z := z mod 2 ^ 32.
(** A 32-bit signed integer ([int], [long] and [ptrdiff_t] of the target). *)
Definition s32 (z : Z) : Z := (z + 2 ^ 31) mod 2 ^ 32 - 2 ^ 31.

(** ** Outcomes of a C function

    [assert] is live in this code base (several assertions wrap calls whose
    effects the program needs), so a failing assertion ends the run. The
    state in which it fails is kept, to be able to say what had and had not
    happened by then. *)

Inductive outcome (A : Type) : Type :=
| Returns (a : A)
| AssertFails (expr : string)
| Undefined (what : string).
Arguments Returns {A} a.
Arguments AssertFails {A} expr.
Arguments Undefined {A} what.

Definition M (S A : Type) : Type := S -> outcome A * S.

Definition ret {S A : Type} (a : A) : M S A := fun s => (Returns a, s).

Definition bind {S A B : Type} (m : M S A) (k : A -> M S B) : M S B :=
  fun s =>
    match m s with
    | (Returns a, s') => k a s'
    | (AssertFails e, s') => (AssertFails e, s')
    | (Undefined u, s') => (Undefined u, s')
    end.

Definition get {S : Type} : M S S := fun s => (Returns s, s).
Definition modify {S : Type} (f : S -> S) : M S unit := fun s => (Returns tt, f s).
Definition assert {S : Type} (cond : bool) (expr : string) : M S unit :=
  fun s => if cond then (Returns tt, s) else (AssertFails expr, s).
Definition undefined {S A : Type} (what : string) : M S A :=
  fun s => (Undefined what, s).

Declare Scope c_scope.
Delimit Scope c_scope with C.
Notation "x <- m ;; k" := (bind m (fun x => k))
  (at level 100, m at next level, right associativity) : c_scope.
Notation "m ;; k" := (bind m (fun _ => k))
  (at level 100, right associativity) : c_scope.
Local Open Scope c_scope.

(** ** littlefs structures (lfs.h), as far as this code touches them *)

(** [struct lfs_config]: the block-device geometry. The four callbacks and
    the three static buffers are the definitions [littlefs_api_*] and plain
    storage; they carry no state of their own and are not fields here. *)
Record lfs_config : Type := mk_lfs_config {
  read_size : Z;
  prog_size : Z;
  block_size : Z;
  block_count : Z;
  block_cycles : Z;
  cache_size : Z;
  lookahead_size : Z
}.

Definition set_block_count (c : lfs_config) (n : Z) : lfs_config :=
  mk_lfs_config (read_size c) (prog_size c) (block_size c) n
                (block_cycles c) (cache_size c) (lookahead_size c).

(** The data pointers that occur in the littlefs structures. *)
Inductive mem_ptr : Type :=
| NullPtr
| HandleBuffer (i : Z)        (* file_handles[i].buffer *)
| HandleAttrs (i : Z)         (* file_handles[i].file_attrs *)
| LocalAttrs                  (* file_attrs, a local array of the function that opens *)
| LocalCurrentTime            (* &current_time, a local of the function that opens *)
| LcdBuffer (offset : Z).     (* lcd_get_inactive_buffer() + offset *)

(** [struct lfs_attr] *)
Record lfs_attr : Type := mk_lfs_attr {
  attr_type : Z;
  attr_buffer : mem_ptr;
  attr_size : Z
}.

(** What littlefs finds behind the buffer of an attribute at the time of
    a call. The only buffer this code ever stores is [&current_time].
    [current_time] is [Some v] when the call is made by the function that
    declares that variable, which then holds [v]; it is [None] when the call
    is made by any other function: the address is still in the structure,
    and the object it named is gone with the frame of the function that
    opened the file. *)
Definition behind (current_time : option Z) (a : lfs_attr)
    : lfs_attr * option Z :=
  (a, match attr_buffer a with
      | LocalCurrentTime => current_time
      | _ => None
      end).

(** The first [count] elements of an attribute array, as littlefs reaches
    them through [config->attrs] and [config->attr_count]. *)
Definition attributes_behind (current_time : option Z) (count : Z)
    (attrs : list lfs_attr) : list (lfs_attr * option Z) :=
  map (behind current_time) (firstn (Z.to_nat count) attrs).

Record lfs_file_config : Type := mk_lfs_file_config {
  cfg_buffer : mem_ptr;
  cfg_attrs : mem_ptr;
  cfg_attr_count : Z
}.

(** A [lfs_file_t*] as this translation unit can tell them apart: null, the
    [file] member of a pool slot, or an object that is not in the pool. *)
Inductive file_ptr : Type :=
| NULL
| HandleFile (i : Z)          (* &file_handles[i].file *)
| LocalFile                   (* &file, a local of the running function *)
| Foreign (address : Z).

Definition file_ptr_eqb (p q : file_ptr) : bool :=
  match p, q with
  | NULL, NULL => true
  | HandleFile i, HandleFile j => i =? j
  | LocalFile, LocalFile => true
  | Foreign a, Foreign b => a =? b
  | _, _ => false
  end.

Definition LFS_CACHE_SIZE : Z := 256.
Definition LFS_LOOKAHEAD_SIZE : Z := 16.
Definition LFS_NUM_ATTRS : Z := 1.

(** ** The flash hardware, seen as the sequence of driver calls *)

Inductive hw_call : Type :=
| SCB_DisableDCache
| SCB_InvalidateDCache
| SCB_EnableDCache
| OSPI_DisableMemoryMappedMode
| OSPI_EnableMemoryMappedMode
| OSPI_Program (address : Z) (data : list Z) (len : Z)
| OSPI_EraseSync (address : Z) (len : Z).

Definition hw : Type := list hw_call.

Definition call (c : hw_call) : M hw unit := modify (fun t => t ++ [c]).

(** Modelled from the spec: the flash driver (gw_flash) is not under src/.
    Memory-mapped mode "must be disabled during program/erase"; the two OSPI
    toggles leave it and enter it, every other call leaves the mode as it
    is. *)
Definition mapped_step (mapped : bool) (c : hw_call) : bool :=
  match c with
  | OSPI_DisableMemoryMappedMode => false
  | OSPI_EnableMemoryMappedMode => true
  | _ => mapped
  end.

(** [true] when no program command of [t] is issued in memory-mapped mode. *)
Fixpoint program_unmapped (mapped : bool) (t : list hw_call) : bool :=
  match t with
  | [] => true
  | OSPI_Program _ _ _ :: t' => negb mapped && program_unmapped mapped t'
  | c :: t' => program_unmapped (mapped_step mapped c) t'
  end.

(** The hazard-free order of section 4.1 around one flash command. *)
Definition bracketed (cmd : hw_call) : list hw_call :=
  [SCB_DisableDCache; SCB_InvalidateDCache;
   OSPI_DisableMemoryMappedMode; cmd; OSPI_EnableMemoryMappedMode;
   SCB_EnableDCache].

(** ** What lies outside the translation unit

    littlefs, the real-time clock and [printf] are external collaborators.
    Each call is recorded in the trace with the arguments it receives;
    what littlefs answers and what the clock reports is given by an
    [externals] record, so that every statement below holds for any
    behaviour of the library and any course of the clock.

    littlefs writes the custom attributes of a file when the file is synced
    or closed, and reads them when it is opened (lfs.h, [struct
    lfs_file_config]): the open and the close are recorded with the
    attribute array and with what is behind each attribute buffer at that
    time. *)

Inductive sys_call : Type :=
| Printf (format : string) (args : list Z)
| GetUnixTime (now : Z)
| LcdGetInactiveBuffer
| LfsMount (c : lfs_config)
| LfsFormat (c : lfs_config)
| LfsFileOpencfg (file : file_ptr) (path : string) (flags : Z)
    (config : lfs_file_config) (attributes : list (lfs_attr * option Z))
| LfsFileClose (file : file_ptr) (attributes : list (lfs_attr * option Z))
| LfsFileWrite (file : file_ptr) (data : list Z) (size : Z)
| LfsFileRead (file : file_ptr) (size : Z)
| LfsFileSeek (file : file_ptr) (off whence : Z).

(** The answers of littlefs. [lfs_t] is the mounted instance (with the
    flash behind it), [lfs_file_t] the per-file state; both are opaque here.
    [lfs_file_opencfg] fills the file object in and does not read it. The
    three open flags are constants of lfs.h, which is not under src/.

    [rtc_next t] is what the clock reports at the reading that follows the
    calls [t], the last of which is a reading: seconds pass while the
    program runs, so two readings of one call need not agree.
    [client_file p] is the file object behind a pointer [p] that does not
    point into the handle pool: such an object belongs to the caller. *)
Record externals (lfs_t lfs_file_t : Type) : Type := mk_externals {
  LFS_O_RDONLY : Z;
  LFS_O_WRONLY : Z;
  LFS_O_CREAT : Z;
  lfs_file_zero : lfs_file_t;
  rtc_next : list sys_call -> Z;
  client_file : file_ptr -> lfs_file_t;
  mount_result : lfs_t -> lfs_config -> Z * lfs_t;
  format_result : lfs_t -> lfs_config -> Z * lfs_t;
  opencfg_result : lfs_t -> string -> Z -> lfs_file_config ->
                   list (lfs_attr * option Z) -> Z * lfs_t * lfs_file_t;
  close_result : lfs_t -> lfs_file_t -> Z * lfs_t * lfs_file_t;
  write_result : lfs_t -> lfs_file_t -> list Z -> Z -> Z * lfs_t * lfs_file_t;
  read_result : lfs_t -> lfs_file_t -> Z -> Z * list Z * lfs_t * lfs_file_t;
  seek_result : lfs_t -> lfs_file_t -> Z -> Z -> Z * lfs_t * lfs_file_t
}.
Arguments LFS_O_RDONLY {lfs_t lfs_file_t} e.
Arguments LFS_O_WRONLY {lfs_t lfs_file_t} e.
Arguments LFS_O_CREAT {lfs_t lfs_file_t} e.
Arguments lfs_file_zero {lfs_t lfs_file_t} e.
Arguments rtc_next {lfs_t lfs_file_t} e.
Arguments client_file {lfs_t lfs_file_t} e.
Arguments mount_result {lfs_t lfs_file_t} e.
Arguments format_result {lfs_t lfs_file_t} e.
Arguments opencfg_result {lfs_t lfs_file_t} e.
Arguments close_result {lfs_t lfs_file_t} e.
Arguments write_result {lfs_t lfs_file_t} e.
Arguments read_result {lfs_t lfs_file_t} e.
Arguments seek_result {lfs_t lfs_file_t} e.

(** The state outside the pool: the global [lfs], the value the RTC
    reports at its next reading, and the trace. *)
Record sys (lfs_t : Type) : Type := mk_sys {
  lfs : lfs_t;
  rtc : Z;
  trace : list sys_call
}.
Arguments mk_sys {lfs_t} lfs rtc trace.
Arguments lfs {lfs_t} s.
Arguments rtc {lfs_t} s.
Arguments trace {lfs_t} s.

Section Library.
Context {lfs_t lfs_file_t : Type}.
Variable E : externals lfs_t lfs_file_t.

Definition log (c : sys_call) : M (sys lfs_t) unit :=
  modify (fun s => mk_sys (lfs s) (rtc s) (trace s ++ [c])).

Definition set_lfs (l : lfs_t) : M (sys lfs_t) unit :=
  modify (fun s => mk_sys l (rtc s) (trace s)).

Definition printf (format : string) (args : list Z) : M (sys lfs_t) unit :=
  log (Printf format args).

Definition GW_GetUnixTime : M (sys lfs_t) Z :=
  s <- get ;;
  log (GetUnixTime (rtc s)) ;;
  modify (fun s' => mk_sys (lfs s') (rtc_next E (trace s')) (trace s')) ;;
  ret (rtc s).

Definition lfs_mount (c : lfs_config) : M (sys lfs_t) Z :=
  s <- get ;;
  log (LfsMount c) ;;
  let '(rc, l) := mount_result E (lfs s) c in
  set_lfs l ;;
  ret rc.

Definition lfs_format (c : lfs_config) : M (sys lfs_t) Z :=
  s <- get ;;
  log (LfsFormat c) ;;
  let '(rc, l) := format_result E (lfs s) c in
  set_lfs l ;;
  ret rc.

(** The calls below return the library's result code together with the
    file object as the library leaves it. [attributes] is the array behind
    [config->attrs] of the file's configuration, each element with what its
    buffer points at when the call is made. *)
Definition lfs_file_opencfg (file : file_ptr) (path : string) (flags : Z)
    (config : lfs_file_config) (attributes : list (lfs_attr * option Z))
    : M (sys lfs_t) (Z * lfs_file_t) :=
  s <- get ;;
  log (LfsFileOpencfg file path flags config attributes) ;;
  let '(rc, l, f) := opencfg_result E (lfs s) path flags config attributes in
  set_lfs l ;;
  ret (rc, f).

Definition lfs_file_close (file : file_ptr) (obj : lfs_file_t)
    (attributes : list (lfs_attr * option Z))
    : M (sys lfs_t) (Z * lfs_file_t) :=
  s <- get ;;
  log (LfsFileClose file attributes) ;;
  let '(rc, l, f) := close_result E (lfs s) obj in
  set_lfs l ;;
  ret (rc, f).

Definition lfs_file_write (file : file_ptr) (obj : lfs_file_t)
    (data : list Z) (size : Z) : M (sys lfs_t) (Z * lfs_file_t) :=
  s <- get ;;
  log (LfsFileWrite file data size) ;;
  let '(rc, l, f) := write_result E (lfs s) obj data size in
  set_lfs l ;;
  ret (rc, f).

(** Also returns the bytes the library stored into the caller's buffer. *)
Definition lfs_file_read (file : file_ptr) (obj : lfs_file_t) (size : Z)
    : M (sys lfs_t) (Z * list Z * lfs_file_t) :=
  s <- get ;;
  log (LfsFileRead file size) ;;
  let '(rc, data, l, f) := read_result E (lfs s) obj size in
  set_lfs l ;;
  ret (rc, data, f).

Definition lfs_file_seek (file : file_ptr) (obj : lfs_file_t)
    (off whence : Z) : M (sys lfs_t) (Z * lfs_file_t) :=
  s <- get ;;
  log (LfsFileSeek file off whence) ;;
  let '(rc, l, f) := seek_result E (lfs s) obj off whence in
  set_lfs l ;;
  ret (rc, f).
End Library.

(** The character ['t'], the tag of the time attribute. *)
Definition char_t : Z := 116.

(** ** src/Core/Src/filesystem.c *)

Module CoreFS.

Section Adapter.
(** [&__FILESYSTEM_START__ - &__EXTFLASH_BASE__], fixed by the linker. *)
Variable filesystem_start_offset : Z.

Definition littlefs_api_prog (c : lfs_config) (block off : Z)
    (buffer : list Z) (size : Z) : M hw Z :=
  let address := u32 (filesystem_start_offset + block * block_size c + off) in
  call OSPI_DisableMemoryMappedMode ;;
  call (OSPI_Program address buffer size) ;;
  call OSPI_EnableMemoryMappedMode ;;
  ret 0.

Definition littlefs_api_erase (c : lfs_config) (block : Z) : M hw Z :=
  let address := u32 (filesystem_start_offset + block * block_size c) in
  call OSPI_DisableMemoryMappedMode ;;
  call (OSPI_EraseSync address (block_size c)) ;;
  call OSPI_EnableMemoryMappedMode ;;
  ret 0.

Definition littlefs_api_sync (c : lfs_config) : M hw Z := ret 0.
(** The bytes of [filesystem_partition], as the memory map shows them. *)
Variable filesystem_partition : list Z.

(** [littlefs_api_read]: [memcpy] out of the mapped partition. Returns the
    result code and the bytes copied into [buffer]. [block], [off] and
    [size] are 32-bit unsigned; the product wraps, the pointer sums do not,
    and copying from outside the array is undefined. *)
Definition littlefs_api_read (c : lfs_config) (block off size : Z)
    : M hw (Z * list Z) :=
  let address := u32 (block * block_size c) + off in
  if address + size <=? Z.of_nat (length filesystem_partition) then
    ret (0, firstn (Z.to_nat size) (skipn (Z.to_nat address) filesystem_partition))
  else undefined "memcpy outside filesystem_partition".
End Adapter.

Definition cfg : lfs_config :=
  {| read_size := LFS_CACHE_SIZE;
     prog_size := LFS_CACHE_SIZE;
     block_size := 4096;
     block_count := 256;
     block_cycles := 500;
     cache_size := LFS_CACHE_SIZE;
     lookahead_size := LFS_LOOKAHEAD_SIZE |}.

Section API.
Context {lfs_t lfs_file_t : Type}.
Variable E : externals lfs_t lfs_file_t.

Definition filesystem_init : M (sys lfs_t) unit :=
  rc <- lfs_mount E cfg ;;
  if negb (rc =? 0) then
    rc <- lfs_format E cfg ;;
    assert (rc =? 0) "lfs_format(&lfs, &cfg) == 0" ;;
    rc <- lfs_mount E cfg ;;
    assert (rc =? 0) "lfs_mount(&lfs, &cfg) == 0"
  else ret tt.

(** The array behind [c->attrs] while [filesystem_write] runs: its own
    [file_attrs], with [current_time] alive. *)
Definition attributes_of (file_attrs : list lfs_attr) (current_time : Z)
    (c : lfs_file_config) : list (lfs_attr * option Z) :=
  match cfg_attrs c with
  | LocalAttrs =>
      attributes_behind (Some current_time) (cfg_attr_count c) file_attrs
  | _ => []
  end.

(** [size] is a [size_t]; the comparison with the [lfs_ssize_t] result of
    [lfs_file_write] is made in 32-bit unsigned arithmetic. The file is
    opened, written and closed inside this one function, so [file_attrs] and
    [current_time] are alive at every call. *)
Definition filesystem_write (path : string) (data : list Z) (size : Z)
    : M (sys lfs_t) unit :=
  log LcdGetInactiveBuffer ;;
  let buffer := LcdBuffer 0 in
  let flags := Z.lor (LFS_O_WRONLY E) (LFS_O_CREAT E) in
  let file_attrs := repeat (mk_lfs_attr 0 NullPtr 0) (Z.to_nat LFS_NUM_ATTRS) in
  let file_cfg := mk_lfs_file_config buffer LocalAttrs LFS_NUM_ATTRS in
  let buffer := LcdBuffer LFS_CACHE_SIZE in
  now <- GW_GetUnixTime E ;;
  let current_time := u32 now in
  assert (negb (current_time =? 0)) "current_time" ;;
  let file_attrs :=
    <[0%nat := mk_lfs_attr char_t LocalCurrentTime 4]> file_attrs in
  r <- lfs_file_opencfg E LocalFile path flags file_cfg
         (attributes_of file_attrs current_time file_cfg) ;;
  let '(rc, file) := r in
  assert (0 =? rc) "0 == lfs_file_opencfg(&lfs, &file, path, flags, &file_cfg)" ;;
  r <- lfs_file_write E LocalFile file data size ;;
  let '(rc, file) := r in
  assert (size =? u32 rc) "size == lfs_file_write(&lfs, &file, data, size)" ;;
  r <- lfs_file_close E LocalFile file
         (attributes_of file_attrs current_time file_cfg) ;;
  let '(rc, file) := r in
  assert (negb (rc =? 0)) "lfs_file_close(&lfs, &file)".
End API.

End CoreFS.

(** ** The pooled variant (source part_001) *)

Module PoolFS.

Section Adapter.
(** [filesystem_partition - &__EXTFLASH_BASE__], fixed by the linker. *)
Variable partition_offset : Z.

Definition prog_address (c : lfs_config) (block off : Z) : Z :=
  u32 (partition_offset + block * block_size c + off).

Definition littlefs_api_prog (c : lfs_config) (block off : Z)
    (buffer : list Z) (size : Z) : M hw Z :=
  let address := prog_address c block off in
  assert (Z.land address 0xFF =? 0) "(address & 0xFF) == 0" ;;
  call SCB_DisableDCache ;;
  call SCB_InvalidateDCache ;;
  call OSPI_DisableMemoryMappedMode ;;
  call (OSPI_Program address buffer size) ;;
  call OSPI_EnableMemoryMappedMode ;;
  call SCB_EnableDCache ;;
  ret 0.

Definition erase_address (c : lfs_config) (block : Z) : Z :=
  u32 (partition_offset + block * block_size c).

Definition littlefs_api_erase (c : lfs_config) (block : Z) : M hw Z :=
  let address := erase_address c block in
  assert (Z.land address (4 * 1024 - 1) =? 0) "(address & (4*1024 - 1)) == 0" ;;
  call SCB_DisableDCache ;;
  call SCB_InvalidateDCache ;;
  call OSPI_DisableMemoryMappedMode ;;
  call (OSPI_EraseSync address (block_size c)) ;;
  call OSPI_EnableMemoryMappedMode ;;
  call SCB_EnableDCache ;;
  ret 0.

Definition littlefs_api_sync (c : lfs_config) : M hw Z := ret 0.
(** The bytes of [filesystem_partition], as the memory map shows them. *)
Variable filesystem_partition : list Z.

(** [littlefs_api_read]: [memcpy] out of the mapped partition. Returns the
    result code and the bytes copied into [buffer]. [block], [off] and
    [size] are 32-bit unsigned; the product wraps, the pointer sums do not,
    and copying from outside the array is undefined. *)
Definition littlefs_api_read (c : lfs_config) (block off size : Z)
    : M hw (Z * list Z) :=
  let address := u32 (block * block_size c) + off in
  if address + size <=? Z.of_nat (length filesystem_partition) then
    ret (0, firstn (Z.to_nat size) (skipn (Z.to_nat address) filesystem_partition))
  else undefined "memcpy outside filesystem_partition".
End Adapter.

(** The static initialiser of [cfg]; [block_count] is not named in it and
    is zero until [filesystem_init] assigns it. *)
Definition cfg_initializer : lfs_config :=
  {| read_size := LFS_CACHE_SIZE;
     prog_size := LFS_CACHE_SIZE;
     block_size := 4096;
     block_count := 0;
     block_cycles := 500;
     cache_size := LFS_CACHE_SIZE;
     lookahead_size := LFS_LOOKAHEAD_SIZE |}.

Definition MAX_OPEN_FILES : Z := 2.

(** Modelled from the spec: filesystem.h is not under src/. The second
    argument of open is the write mode ("create-or-write vs
    must-exist-read-only"), the third asks for compression. *)
Definition FILESYSTEM_READ : bool := false.
Definition FILESYSTEM_WRITE : bool := true.
Definition FILESYSTEM_RAW : bool := false.
Definition FILESYSTEM_COMPRESS : bool := true.

(** The bytes of a handle's [buffer]. This code only ever zeroes the array;
    [config.buffer] hands it to littlefs as the cache of the file, and from
    [lfs_file_opencfg] on every call on the file may fill it. What it holds
    then is littlefs's own and is not followed: [AfterLittlefs]. *)
Inductive cache_bytes : Type :=
| Bytes (bs : list Z)
| AfterLittlefs.

(** [filesystem_file_handle_t]. *)
Record filesystem_file_handle_t (lfs_file_t : Type) : Type := mk_handle {
  file : lfs_file_t;
  buffer : cache_bytes;
  file_attrs : list lfs_attr;
  config : lfs_file_config
}.
Arguments mk_handle {lfs_file_t} file buffer file_attrs config.
Arguments file {lfs_file_t} f.
Arguments buffer {lfs_file_t} f.
Arguments file_attrs {lfs_file_t} f.
Arguments config {lfs_file_t} f.

(** The statics of the translation unit, and the system behind them. *)
Record world (lfs_t lfs_file_t : Type) : Type := mk_world {
  file_handles : list (filesystem_file_handle_t lfs_file_t);
  file_handles_used_bitmask : Z;
  file_index_using_compression : Z;
  cfg : lfs_config;
  system : sys lfs_t
}.
Arguments mk_world {lfs_t lfs_file_t} file_handles file_handles_used_bitmask
  file_index_using_compression cfg system.
Arguments file_handles {lfs_t lfs_file_t} w.
Arguments file_handles_used_bitmask {lfs_t lfs_file_t} w.
Arguments file_index_using_compression {lfs_t lfs_file_t} w.
Arguments cfg {lfs_t lfs_file_t} w.
Arguments system {lfs_t lfs_file_t} w.

Section Pool.
Context {lfs_t lfs_file_t : Type}.
Variable E : externals lfs_t lfs_file_t.
(** The addresses [&__FILESYSTEM_START__] and [&__FILESYSTEM_END__] of the
    linker script (gw_linker.h is not under src/). *)
Variables FILESYSTEM_START FILESYSTEM_END : Z.

Abbreviation handle := (filesystem_file_handle_t lfs_file_t).
Abbreviation W := (world lfs_t lfs_file_t).

Definition set_file_handles (hs : list handle) : M W unit :=
  modify (fun w => mk_world hs (file_handles_used_bitmask w)
                     (file_index_using_compression w) (cfg w) (system w)).
Definition set_file_handles_used_bitmask (b : Z) : M W unit :=
  modify (fun w => mk_world (file_handles w) b
                     (file_index_using_compression w) (cfg w) (system w)).
Definition set_file_index_using_compression (i : Z) : M W unit :=
  modify (fun w => mk_world (file_handles w) (file_handles_used_bitmask w)
                     i (cfg w) (system w)).
Definition set_cfg (c : lfs_config) : M W unit :=
  modify (fun w => mk_world (file_handles w) (file_handles_used_bitmask w)
                     (file_index_using_compression w) c (system w)).

(** Runs a system call on the [system] component. *)
Definition lift {A : Type} (m : M (sys lfs_t) A) : M W A :=
  fun w =>
    let '(r, s) := m (system w) in
    (r, mk_world (file_handles w) (file_handles_used_bitmask w)
          (file_index_using_compression w) (cfg w) s).

(** [memset(handle, 0, sizeof(filesystem_file_handle_t))] *)
Definition zero_attr : lfs_attr := mk_lfs_attr 0 NullPtr 0.
Definition zero_handle : handle :=
  mk_handle (lfs_file_zero E) (Bytes (repeat 0 (Z.to_nat LFS_CACHE_SIZE)))
            (repeat zero_attr (Z.to_nat LFS_NUM_ATTRS))
            (mk_lfs_file_config NullPtr NullPtr 0).

(** [file_handles[i]], for an index inside the array. *)
Definition slot_index (i : Z) : option nat :=
  if (0 <=? i) && (i <? MAX_OPEN_FILES) then Some (Z.to_nat i) else None.

Definition load_handle (i : Z) : M W handle :=
  w <- get ;;
  match slot_index i with
  | Some n =>
      match file_handles w !! n with
      | Some h => ret h
      | None => undefined "file_handles index out of bounds"
      end
  | None => undefined "file_handles index out of bounds"
  end.

Definition store_handle (i : Z) (h : handle) : M W unit :=
  w <- get ;;
  match slot_index i with
  | Some n => set_file_handles (<[n := h]> (file_handles w))
  | None => undefined "file_handles index out of bounds"
  end.

(** [file_is_using_compression]: the loop runs [i] from 0 while
    [i < MAX_OPEN_FILES]; [n] counts the iterations that are left. *)
Fixpoint file_is_using_compression_loop (n : nat) (i : Z)
    (file : file_ptr) (w : W) : bool :=
  match n with
  | O => false
  | S n' =>
      if file_ptr_eqb file (HandleFile i)
         && (i =? file_index_using_compression w)
      then true
      else file_is_using_compression_loop n' (i + 1) file w
  end.

Definition file_is_using_compression (file : file_ptr) (w : W) : bool :=
  file_is_using_compression_loop (Z.to_nat MAX_OPEN_FILES) 0 file w.

(** [acquire_file_handle]. The result is [Some i] for [&file_handles[i]]
    and [None] for [NULL]. *)
Fixpoint acquire_file_handle_loop (n : nat) (i test_bit : Z)
    (use_compression : bool) : M W (option Z) :=
  match n with
  | O => ret None
  | S n' =>
      w <- get ;;
      if Z.land (file_handles_used_bitmask w) test_bit =? 0 then
        set_file_handles_used_bitmask
          (Z.lor (file_handles_used_bitmask w) test_bit) ;;
        if use_compression then
          if 0 <=? file_index_using_compression w then
            ret None
          else
            set_file_index_using_compression i ;;
            store_handle i zero_handle ;;
            ret (Some i)
        else
          store_handle i zero_handle ;;
          ret (Some i)
      else
        acquire_file_handle_loop n' (i + 1) (u8 (Z.shiftl test_bit 1))
                                 use_compression
  end.

Definition acquire_file_handle (use_compression : bool) : M W (option Z) :=
  acquire_file_handle_loop (Z.to_nat MAX_OPEN_FILES) 0 0x01 use_compression.

(** [release_file_handle]. [test_bit] is initialised to 0x01 and is not
    changed by the loop. *)
Fixpoint release_file_handle_loop (n : nat) (i test_bit : Z)
    (file : file_ptr) : M W unit :=
  match n with
  | O => assert false "0"
  | S n' =>
      if file_ptr_eqb file (HandleFile i) then
        w <- get ;;
        set_file_handles_used_bitmask
          (u8 (Z.land (file_handles_used_bitmask w) (Z.lnot test_bit))) ;;
        w <- get ;;
        if file_is_using_compression file w then
          set_file_index_using_compression (-1)
        else ret tt
      else
        release_file_handle_loop n' (i + 1) test_bit file
  end.

Definition release_file_handle (file : file_ptr) : M W unit :=
  release_file_handle_loop (Z.to_nat MAX_OPEN_FILES) 0 0x01 file.

(** Where the object behind a [lfs_file_t*] lives: in a slot of the pool,
    or with the caller. *)
Inductive file_place : Type :=
| InSlot (i : Z)
| Outside.

(** The object behind a [lfs_file_t*] that is handed to littlefs. The
    functions below pass the pointer on whatever it points at. An object
    outside the pool is the caller's ([client_file]); behind [NULL] there is
    none, and littlefs follows the pointer. *)
Definition deref (file : file_ptr) : M W (file_place * lfs_file_t) :=
  match file with
  | HandleFile i => h <- load_handle i ;; ret (InSlot i, PoolFS.file h)
  | NULL => undefined "littlefs follows a null lfs_file_t*"
  | _ => ret (Outside, client_file E file)
  end.

(** The file object as littlefs leaves it after a call; the cache of a pool
    slot is littlefs's from then on. What littlefs leaves in an object of
    the caller is not part of this state. *)
Definition store_file (p : file_place) (obj : lfs_file_t) : M W unit :=
  match p with
  | InSlot i =>
      h <- load_handle i ;;
      store_handle i (mk_handle obj AfterLittlefs (file_attrs h) (config h))
  | Outside => ret tt
  end.

(** The attribute array that littlefs reaches through [c->attrs], which in
    this translation unit is the [file_attrs] member of a slot. *)
Definition attributes_of (current_time : option Z) (c : lfs_file_config)
    (w : W) : list (lfs_attr * option Z) :=
  match cfg_attrs c with
  | HandleAttrs j =>
      match slot_index j with
      | Some n =>
          match file_handles w !! n with
          | Some h =>
              attributes_behind current_time (cfg_attr_count c) (file_attrs h)
          | None => []
          end
      | None => []
      end
  | _ => []
  end.

(** The attributes of the file behind a pointer when it is closed.
    [filesystem_close] declares no [current_time]: for a file of the pool
    the attribute buffer that [filesystem_open] stored points at nothing
    any more. The attributes of a caller's object are the caller's. *)
Definition attributes_at_close (p : file_place) (w : W)
    : list (lfs_attr * option Z) :=
  match p with
  | InSlot i =>
      match slot_index i with
      | Some n =>
          match file_handles w !! n with
          | Some h => attributes_of None (config h) w
          | None => []
          end
      | None => []
      end
  | Outside => []
  end.

(** [filesystem_open]. [NULL] is the failure value. *)
Definition filesystem_open (path : string) (write_mode use_compression : bool)
    : M W file_ptr :=
  let flags := if write_mode then Z.lor (LFS_O_WRONLY E) (LFS_O_CREAT E)
               else LFS_O_RDONLY E in
  fs_file_handle <- acquire_file_handle use_compression ;;
  match fs_file_handle with
  | None =>
      lift (printf "Unable to allocate file handle." []) ;;
      ret NULL
  | Some i =>
      (if use_compression then
         assert false "0 && tamp compression not yet implemented"
       else ret tt) ;;
      h <- load_handle i ;;
      store_handle i
        (mk_handle (PoolFS.file h) (buffer h) (file_attrs h)
           (mk_lfs_file_config (HandleBuffer i) (HandleAttrs i) LFS_NUM_ATTRS)) ;;
      now <- lift (GW_GetUnixTime E) ;;
      let current_time := u32 now in
      assert (negb (current_time =? 0)) "current_time" ;;
      h <- load_handle i ;;
      store_handle i
        (mk_handle (PoolFS.file h) (buffer h)
           (<[0%nat := mk_lfs_attr char_t LocalCurrentTime 4]> (file_attrs h))
           (config h)) ;;
      h <- load_handle i ;;
      w <- get ;;
      r <- lift (lfs_file_opencfg E (HandleFile i) path flags
                   (config h)
                   (attributes_of (Some current_time) (config h) w)) ;;
      let '(rc, obj) := r in
      store_file (InSlot i) obj ;;
      assert (0 =? rc) "0 == lfs_file_opencfg(&lfs, &fs_file_handle->file, path, flags, &fs_file_handle->config)" ;;
      ret (HandleFile i)
  end.

Definition filesystem_write (file : file_ptr) (data : list Z) (size : Z)
    : M W Z :=
  w <- get ;;
  (if file_is_using_compression file w then
     assert false "0 && tamp compression not yet implemented"
   else ret tt) ;;
  d <- deref file ;;
  let '(place, obj) := d in
  r <- lift (lfs_file_write E file obj data size) ;;
  let '(rc, obj) := r in
  store_file place obj ;;
  ret rc.

(** Returns the result code and the bytes stored into the caller's buffer. *)
Definition filesystem_read (file : file_ptr) (size : Z) : M W (Z * list Z) :=
  w <- get ;;
  (if file_is_using_compression file w then
     assert false "0 && tamp compression not yet implemented"
   else ret tt) ;;
  d <- deref file ;;
  let '(place, obj) := d in
  r <- lift (lfs_file_read E file obj size) ;;
  let '(rc, data, obj) := r in
  store_file place obj ;;
  ret (rc, data).

Definition filesystem_close (file : file_ptr) : M W unit :=
  w <- get ;;
  (if file_is_using_compression file w then
     assert false "0 && tamp compression not yet implemented"
   else ret tt) ;;
  d <- deref file ;;
  let '(place, obj) := d in
  w <- get ;;
  r <- lift (lfs_file_close E file obj (attributes_at_close place w)) ;;
  let '(rc, obj) := r in
  store_file place obj ;;
  assert (0 <=? rc) "lfs_file_close(&lfs, file) >= 0" ;;
  release_file_handle file.

Definition filesystem_seek (file : file_ptr) (off whence : Z) : M W Z :=
  w <- get ;;
  assert (negb (file_is_using_compression file w))
         "file_is_using_compression(file) == false" ;;
  d <- deref file ;;
  let '(place, obj) := d in
  r <- lift (lfs_file_seek E file obj off whence) ;;
  let '(rc, obj) := r in
  store_file place obj ;;
  ret rc.

(** A [uint32_t] in memory (little endian), and what a read of at most four
    bytes into it leaves there. *)
Definition le_bytes (v : Z) : list Z :=
  [v mod 256; (v / 2 ^ 8) mod 256; (v / 2 ^ 16) mod 256; (v / 2 ^ 24) mod 256].

Definition of_le_bytes (bs : list Z) : Z :=
  fold_right (fun b acc => b + 256 * acc) 0 bs.

Definition overwrite (old data : list Z) : list Z :=
  firstn (length old) (data ++ skipn (length data) old).

Definition boot_counter : M W unit :=
  let boot_count := 0 in
  let filename := "boot_counter" in
  file <- filesystem_open filename FILESYSTEM_READ FILESYSTEM_RAW ;;
  r <- filesystem_read file 4 ;;
  let boot_count := of_le_bytes (overwrite (le_bytes boot_count) (snd r)) in
  filesystem_close file ;;
  let boot_count := u32 (boot_count + 1) in
  file <- filesystem_open filename FILESYSTEM_WRITE FILESYSTEM_RAW ;;
  n <- filesystem_write file (le_bytes boot_count) 4 ;;
  assert (4 =? u32 n)
         "sizeof(boot_count) == filesystem_write(file, (unsigned char*)&boot_count, sizeof(boot_count))" ;;
  filesystem_close file ;;
  lift (printf "boot_count: %ld\n" [boot_count]).

(** [&__FILESYSTEM_END__ - &__FILESYSTEM_START__]: the difference of two
    byte addresses is a [ptrdiff_t], 32 bits and signed on this target. *)
Definition filesystem_region_size : Z :=
  s32 (FILESYSTEM_END - FILESYSTEM_START).

(** [filesystem_init]. The signed difference is shifted (arithmetically)
    and the result is stored in the 32-bit unsigned [block_count]. *)
Definition filesystem_init : M W unit :=
  w <- get ;;
  set_cfg (set_block_count (cfg w)
             (u32 (Z.shiftr filesystem_region_size 12))) ;;
  w <- get ;;
  rc <- lift (lfs_mount E (cfg w)) ;;
  (if negb (rc =? 0) then
     lift (printf "Filesystem formatting...\n" []) ;;
     rc <- lift (lfs_format E (cfg w)) ;;
     assert (rc =? 0) "lfs_format(&lfs, &cfg) == 0" ;;
     rc <- lift (lfs_mount E (cfg w)) ;;
     assert (rc =? 0) "lfs_mount(&lfs, &cfg) == 0"
   else ret tt) ;;
  lift (printf "Filesystem mounted.\n" []) ;;
  boot_counter.

(** The statics as the C start-up code leaves them. *)
Definition initial_world (s : sys lfs_t) : W :=
  mk_world (repeat zero_handle (Z.to_nat MAX_OPEN_FILES)) 0 (-1)
           cfg_initializer s.
End Pool.

End PoolFS.

(** ** A RAM disk standing in for littlefs

    A small instance of [externals], used to run the code above on concrete
    inputs: a disk is formatted or not and holds named byte strings; an open
    file is known by its path. [close_rc] is what [lfs_file_close] answers. *)

Module RamDisk.

Record disk : Type := mk_disk {
  formatted : bool;
  files : list (string * list Z)
}.

Fixpoint find_file (path : string) (fs : list (string * list Z))
    : option (list Z) :=
  match fs with
  | [] => None
  | (p, content) :: fs' =>
      if String.eqb p path then Some content else find_file path fs'
  end.

Fixpoint write_file (path : string) (content : list Z)
    (fs : list (string * list Z)) : list (string * list Z) :=
  match fs with
  | [] => [(path, content)]
  | (p, c) :: fs' =>
      if String.eqb p path then (p, content) :: fs'
      else (p, c) :: write_file path content fs'
  end.

Definition LFS_ERR_NOENT : Z := -2.
Definition LFS_ERR_CORRUPT : Z := -84.

Definition mount (d : disk) (c : lfs_config) : Z * disk :=
  if formatted d then (0, d) else (LFS_ERR_CORRUPT, d).

Definition format (d : disk) (c : lfs_config) : Z * disk :=
  (0, mk_disk true []).

Definition opencfg (d : disk) (path : string) (flags : Z)
    (config : lfs_file_config) (attributes : list (lfs_attr * option Z))
    : Z * disk * string :=
  match find_file path (files d) with
  | Some _ => (0, d, path)
  | None =>
      if Z.land flags 0x0100 =? 0 then (LFS_ERR_NOENT, d, "")
      else (0, mk_disk (formatted d) (write_file path [] (files d)), path)
  end.

Definition close (close_rc : Z) (d : disk) (f : string) : Z * disk * string :=
  (close_rc, d, f).

Definition write (d : disk) (f : string) (data : list Z) (size : Z)
    : Z * disk * string :=
  (size,
   mk_disk (formatted d) (write_file f (firstn (Z.to_nat size) data) (files d)),
   f).

Definition read (d : disk) (f : string) (size : Z)
    : Z * list Z * disk * string :=
  match find_file f (files d) with
  | Some content =>
      let data := firstn (Z.to_nat size) content in
      (Z.of_nat (length data), data, d, f)
  | None => (0, [], d, f)
  end.

Definition seek (d : disk) (f : string) (off whence : Z) : Z * disk * string :=
  (off, d, f).

(** The last reading of the clock among the calls [t]. *)
Definition last_reading (t : list sys_call) : Z :=
  fold_left (fun last c => match c with
                           | GetUnixTime now => now
                           | _ => last
                           end) t 0.

(** The disk with a clock that moves on by [pace] seconds from one reading
    to the next. A caller's file object is an unopened one. *)
Definition ram_disk_at_pace (pace close_rc : Z) : externals disk string :=
  {| LFS_O_RDONLY := 1;
     LFS_O_WRONLY := 2;
     LFS_O_CREAT := 0x0100;
     lfs_file_zero := "";
     rtc_next := fun t => last_reading t + pace;
     client_file := fun _ => "";
     mount_result := mount;
     format_result := format;
     opencfg_result := opencfg;
     close_result := close close_rc;
     write_result := write;
     read_result := read;
     seek_result := seek |}.

(** The disk with a clock that stands still. *)
Definition ram_disk (close_rc : Z) : externals disk string :=
  ram_disk_at_pace 0 close_rc.

(** A formatted, empty disk with the clock at [now] and an empty trace. *)
Definition blank (now : Z) : sys disk := mk_sys (mk_disk true []) now [].

End RamDisk.


(** * Vocabulary of the statements *)

(** The time attribute: tag ['t'], four bytes, buffer [&current_time]; the
    attribute as littlefs sees it while [current_time] is alive; and as it
    sees it once the function that declared [current_time] has returned. *)
Definition time_attr : lfs_attr := mk_lfs_attr char_t LocalCurrentTime 4.
Definition time_attr_at (current_time : Z) : lfs_attr * option Z :=
  (time_attr, Some current_time).
Definition time_attr_gone : lfs_attr * option Z := (time_attr, None).

(** What [CoreFS.filesystem_write] hands to [lfs_file_opencfg]. *)
Definition core_write_flags {lfs_t lfs_file_t : Type}
    (E : externals lfs_t lfs_file_t) : Z :=
  Z.lor (LFS_O_WRONLY E) (LFS_O_CREAT E).
Definition core_write_config : lfs_file_config :=
  mk_lfs_file_config (LcdBuffer 0) LocalAttrs LFS_NUM_ATTRS.

(** What [PoolFS.filesystem_open] hands to [lfs_file_opencfg] for slot [i]. *)
Definition open_flags {lfs_t lfs_file_t : Type}
    (E : externals lfs_t lfs_file_t) (write_mode : bool) : Z :=
  if write_mode then Z.lor (LFS_O_WRONLY E) (LFS_O_CREAT E)
  else LFS_O_RDONLY E.
Definition slot_config (i : Z) : lfs_file_config :=
  mk_lfs_file_config (HandleBuffer i) (HandleAttrs i) LFS_NUM_ATTRS.

(** The calls made by a run: what the run appended to the trace. *)
Definition new_calls {lfs_t : Type} (before after : sys lfs_t) : list sys_call :=
  skipn (length (trace before)) (trace after).

Definition add_calls {lfs_t : Type} (s : sys lfs_t) (cs : list sys_call)
    : sys lfs_t :=
  mk_sys (lfs s) (rtc s) (trace s ++ cs).

(** A call that is not a close, or a close that is handed [attributes]. *)
Definition closes_with (attributes : list (lfs_attr * option Z))
    (c : sys_call) : Prop :=
  match c with
  | LfsFileClose _ a => a = attributes
  | _ => True
  end.

(** The geometries handed to [lfs_mount] and [lfs_format] by some calls. *)
Definition geometry_of (cs : list sys_call) : list lfs_config :=
  flat_map (fun c => match c with
                     | LfsMount g | LfsFormat g => [g]
                     | _ => []
                     end) cs.

Definition geometry_is (g : lfs_config) (c : sys_call) : Prop :=
  match c with
  | LfsMount g' | LfsFormat g' => g' = g
  | _ => True
  end.

(** Bit [i] of the used bitmask: slot [i] is marked in use. *)
Definition slot_used {lfs_t lfs_file_t : Type}
    (w : PoolFS.world lfs_t lfs_file_t) (i : Z) : bool :=
  Z.testbit (PoolFS.file_handles_used_bitmask w) i.

(** The array of handles has its [MAX_OPEN_FILES] elements. *)
Definition well_formed {lfs_t lfs_file_t : Type}
    (w : PoolFS.world lfs_t lfs_file_t) : Prop :=
  length (PoolFS.file_handles w) = Z.to_nat PoolFS.MAX_OPEN_FILES.

(** The handle array is whole, the owner is none (-1) or one slot index,
    and only the bits of the two slots occur in the used bitmask. *)
Definition pool_invariant {lfs_t lfs_file_t : Type}
    (w : PoolFS.world lfs_t lfs_file_t) : Prop :=
  well_formed w
  /\ (PoolFS.file_index_using_compression w = -1
      \/ PoolFS.file_index_using_compression w = 0
      \/ PoolFS.file_index_using_compression w = 1)
  /\ 0 <= PoolFS.file_handles_used_bitmask w <= 3.

(** ** Closed forms of the pool operations

    The two loops of the pool run over two slots; the closed forms below
    say what they and the functions built on them compute, and are proved
    equal to the code further down. *)

Definition zero_buffer : PoolFS.cache_bytes :=
  PoolFS.Bytes (repeat 0 (Z.to_nat LFS_CACHE_SIZE)).
Arguments zero_buffer : simpl never.
Arguments PoolFS.zero_handle : simpl never.

(** The first free slot met by the scan of [acquire_file_handle], with its
    test bit. *)
Definition first_free (mask : Z) : option (Z * Z) :=
  if Z.land mask 1 =? 0 then Some (0, 1)
  else if Z.land mask 2 =? 0 then Some (1, 2)
  else None.

Section ClosedForms.
Context {lfs_t lfs_file_t : Type}.
Variable E : externals lfs_t lfs_file_t.
Abbreviation W := (PoolFS.world lfs_t lfs_file_t).

(** The slot of a file that [filesystem_open] has set up and opened. *)
Definition opened_handle (i : Z) (obj : lfs_file_t)
    : PoolFS.filesystem_file_handle_t lfs_file_t :=
  PoolFS.mk_handle obj PoolFS.AfterLittlefs [time_attr] (slot_config i).

(** The system after one reading of the clock. *)
Definition after_reading (s : sys lfs_t) : sys lfs_t :=
  mk_sys (lfs s) (rtc_next E (trace s ++ [GetUnixTime (rtc s)]))
         (trace s ++ [GetUnixTime (rtc s)]).

Definition open_result (path : string) (write_mode use_compression : bool)
    (w : W) : outcome file_ptr * W :=
  let mask := PoolFS.file_handles_used_bitmask w in
  let owner := PoolFS.file_index_using_compression w in
  let s := PoolFS.system w in
  let failed := add_calls s [Printf "Unable to allocate file handle." []] in
  match first_free mask with
  | None =>
      (Returns NULL,
       PoolFS.mk_world (PoolFS.file_handles w) mask owner (PoolFS.cfg w) failed)
  | Some (i, bit) =>
      if use_compression then
        if 0 <=? owner then
          (Returns NULL,
           PoolFS.mk_world (PoolFS.file_handles w) (Z.lor mask bit) owner
             (PoolFS.cfg w) failed)
        else
          (AssertFails "0 && tamp compression not yet implemented",
           PoolFS.mk_world
             (<[Z.to_nat i := PoolFS.zero_handle E]> (PoolFS.file_handles w))
             (Z.lor mask bit) i (PoolFS.cfg w) s)
      else
        let current_time := u32 (rtc s) in
        if current_time =? 0 then
          (AssertFails "current_time",
           PoolFS.mk_world
             (<[Z.to_nat i :=
                  PoolFS.mk_handle (lfs_file_zero E) zero_buffer
                    [PoolFS.zero_attr] (slot_config i)]> (PoolFS.file_handles w))
             (Z.lor mask bit) owner (PoolFS.cfg w)
             (after_reading s))
        else
          let '(rc, l, obj) :=
            opencfg_result E (lfs s) path (open_flags E write_mode)
                           (slot_config i) [time_attr_at current_time] in
          (if 0 =? rc then Returns (HandleFile i)
           else AssertFails "0 == lfs_file_opencfg(&lfs, &fs_file_handle->file, path, flags, &fs_file_handle->config)",
           PoolFS.mk_world
             (<[Z.to_nat i := opened_handle i obj]>
                (PoolFS.file_handles w))
             (Z.lor mask bit) owner (PoolFS.cfg w)
             (mk_sys l (rtc (after_reading s))
                (trace s ++
                 [GetUnixTime (rtc s);
                  LfsFileOpencfg (HandleFile i) path (open_flags E write_mode)
                    (slot_config i) [time_attr_at current_time]])))
  end.

Definition close_outcome (file : file_ptr) (w : W) : outcome unit * W :=
  match file with
  | HandleFile i =>
      if (i =? 0) || (i =? 1) then
        if i =? PoolFS.file_index_using_compression w then
          (AssertFails "0 && tamp compression not yet implemented", w)
        else
          match PoolFS.file_handles w !! Z.to_nat i with
          | Some h =>
              let s := PoolFS.system w in
              let '(rc, l, obj) := close_result E (lfs s) (PoolFS.file h) in
              let hs :=
                <[Z.to_nat i :=
                    PoolFS.mk_handle obj PoolFS.AfterLittlefs
                      (PoolFS.file_attrs h) (PoolFS.config h)]>
                  (PoolFS.file_handles w) in
              let s' := mk_sys l (rtc s)
                          (trace s ++
                           [LfsFileClose (HandleFile i)
                              (PoolFS.attributes_of None (PoolFS.config h) w)]) in
              if 0 <=? rc then
                (Returns tt,
                 PoolFS.mk_world hs
                   (u8 (Z.land (PoolFS.file_handles_used_bitmask w) (Z.lnot 1)))
                   (PoolFS.file_index_using_compression w) (PoolFS.cfg w) s')
              else
                (AssertFails "lfs_file_close(&lfs, file) >= 0",
                 PoolFS.mk_world hs (PoolFS.file_handles_used_bitmask w)
                   (PoolFS.file_index_using_compression w) (PoolFS.cfg w) s')
          | None => (Undefined "file_handles index out of bounds", w)
          end
      else (Undefined "file_handles index out of bounds", w)
  | NULL => (Undefined "littlefs follows a null lfs_file_t*", w)
  | _ =>
      let s := PoolFS.system w in
      let '(rc, l, obj) := close_result E (lfs s) (client_file E file) in
      (if 0 <=? rc then AssertFails "0"
       else AssertFails "lfs_file_close(&lfs, file) >= 0",
       PoolFS.mk_world (PoolFS.file_handles w)
         (PoolFS.file_handles_used_bitmask w)
         (PoolFS.file_index_using_compression w) (PoolFS.cfg w)
         (mk_sys l (rtc s) (trace s ++ [LfsFileClose file []])))
  end.
End ClosedForms.

(** ** Relations kept by every step of a computation *)

Definition respects {S A : Type} (R : S -> S -> Prop) (m : M S A) : Prop :=
  forall s, R s (snd (m s)).

Definition keeps_invariant {lfs_t lfs_file_t : Type}
    (w w' : PoolFS.world lfs_t lfs_file_t) : Prop :=
  pool_invariant w -> pool_invariant w'.

(** The run from [w] to [w'] only made calls that satisfy [P]. *)
Definition emits {lfs_t lfs_file_t : Type} (P : sys_call -> Prop)
    (w w' : PoolFS.world lfs_t lfs_file_t) : Prop :=
  exists new,
    trace (PoolFS.system w') = trace (PoolFS.system w) ++ new /\ Forall P new.

(** ** Reachable states and runs of the public interface *)

Definition set_rtc {lfs_t lfs_file_t : Type} (now : Z)
    (w : PoolFS.world lfs_t lfs_file_t) : PoolFS.world lfs_t lfs_file_t :=
  PoolFS.mk_world (PoolFS.file_handles w) (PoolFS.file_handles_used_bitmask w)
    (PoolFS.file_index_using_compression w) (PoolFS.cfg w)
    (mk_sys (lfs (PoolFS.system w)) now (trace (PoolFS.system w))).

(** An upper bound of the states the pooled variant can be in: the
    start-up state, followed by any calls of the public interface with any
    arguments, the clock moving in between. The state in which an assertion
    stops a call counts here and calls may follow it, which no running
    program does: [live] below has the states of a running program, all of
    which are among these. *)
Inductive reachable {lfs_t lfs_file_t : Type} (E : externals lfs_t lfs_file_t)
    (FILESYSTEM_START FILESYSTEM_END : Z)
    : PoolFS.world lfs_t lfs_file_t -> Prop :=
| reach_start (s : sys lfs_t) :
    reachable E FILESYSTEM_START FILESYSTEM_END (PoolFS.initial_world E s)
| reach_clock (w : PoolFS.world lfs_t lfs_file_t) (now : Z) :
    reachable E FILESYSTEM_START FILESYSTEM_END w ->
    reachable E FILESYSTEM_START FILESYSTEM_END (set_rtc now w)
| reach_init (w : PoolFS.world lfs_t lfs_file_t) :
    reachable E FILESYSTEM_START FILESYSTEM_END w ->
    reachable E FILESYSTEM_START FILESYSTEM_END
      (snd (PoolFS.filesystem_init E FILESYSTEM_START FILESYSTEM_END w))
| reach_open (w : PoolFS.world lfs_t lfs_file_t) (path : string)
      (write_mode use_compression : bool) :
    reachable E FILESYSTEM_START FILESYSTEM_END w ->
    reachable E FILESYSTEM_START FILESYSTEM_END
      (snd (PoolFS.filesystem_open E path write_mode use_compression w))
| reach_read (w : PoolFS.world lfs_t lfs_file_t) (file : file_ptr) (size : Z) :
    reachable E FILESYSTEM_START FILESYSTEM_END w ->
    reachable E FILESYSTEM_START FILESYSTEM_END
      (snd (PoolFS.filesystem_read E file size w))
| reach_write (w : PoolFS.world lfs_t lfs_file_t) (file : file_ptr)
      (data : list Z) (size : Z) :
    reachable E FILESYSTEM_START FILESYSTEM_END w ->
    reachable E FILESYSTEM_START FILESYSTEM_END
      (snd (PoolFS.filesystem_write E file data size w))
| reach_close (w : PoolFS.world lfs_t lfs_file_t) (file : file_ptr) :
    reachable E FILESYSTEM_START FILESYSTEM_END w ->
    reachable E FILESYSTEM_START FILESYSTEM_END
      (snd (PoolFS.filesystem_close E file w))
| reach_seek (w : PoolFS.world lfs_t lfs_file_t) (file : file_ptr)
      (off whence : Z) :
    reachable E FILESYSTEM_START FILESYSTEM_END w ->
    reachable E FILESYSTEM_START FILESYSTEM_END
      (snd (PoolFS.filesystem_seek E file off whence w)).

(** The states of a running program: the start-up state, followed by calls
    of the public interface that returned, the clock moving in between. An
    assertion that fails ends the program, and so does a call whose
    behaviour is undefined: no call follows either. *)
Inductive live {lfs_t lfs_file_t : Type} (E : externals lfs_t lfs_file_t)
    (FILESYSTEM_START FILESYSTEM_END : Z)
    : PoolFS.world lfs_t lfs_file_t -> Prop :=
| live_start (s : sys lfs_t) :
    live E FILESYSTEM_START FILESYSTEM_END (PoolFS.initial_world E s)
| live_clock (w : PoolFS.world lfs_t lfs_file_t) (now : Z) :
    live E FILESYSTEM_START FILESYSTEM_END w ->
    live E FILESYSTEM_START FILESYSTEM_END (set_rtc now w)
| live_init (w w' : PoolFS.world lfs_t lfs_file_t) :
    live E FILESYSTEM_START FILESYSTEM_END w ->
    PoolFS.filesystem_init E FILESYSTEM_START FILESYSTEM_END w
      = (Returns tt, w') ->
    live E FILESYSTEM_START FILESYSTEM_END w'
| live_open (w w' : PoolFS.world lfs_t lfs_file_t) (path : string)
      (write_mode use_compression : bool) (file : file_ptr) :
    live E FILESYSTEM_START FILESYSTEM_END w ->
    PoolFS.filesystem_open E path write_mode use_compression w
      = (Returns file, w') ->
    live E FILESYSTEM_START FILESYSTEM_END w'
| live_read (w w' : PoolFS.world lfs_t lfs_file_t) (file : file_ptr)
      (size : Z) (r : Z * list Z) :
    live E FILESYSTEM_START FILESYSTEM_END w ->
    PoolFS.filesystem_read E file size w = (Returns r, w') ->
    live E FILESYSTEM_START FILESYSTEM_END w'
| live_write (w w' : PoolFS.world lfs_t lfs_file_t) (file : file_ptr)
      (data : list Z) (size rc : Z) :
    live E FILESYSTEM_START FILESYSTEM_END w ->
    PoolFS.filesystem_write E file data size w = (Returns rc, w') ->
    live E FILESYSTEM_START FILESYSTEM_END w'
| live_close (w w' : PoolFS.world lfs_t lfs_file_t) (file : file_ptr) :
    live E FILESYSTEM_START FILESYSTEM_END w ->
    PoolFS.filesystem_close E file w = (Returns tt, w') ->
    live E FILESYSTEM_START FILESYSTEM_END w'
| live_seek (w w' : PoolFS.world lfs_t lfs_file_t) (file : file_ptr)
      (off whence rc : Z) :
    live E FILESYSTEM_START FILESYSTEM_END w ->
    PoolFS.filesystem_seek E file off whence w = (Returns rc, w') ->
    live E FILESYSTEM_START FILESYSTEM_END w'.



(** A client that opens files and closes the handles it was given. [Close k]
    closes the [k]-th of the handles that are open at that point. The run
    stops at the first call that does not return. *)
Inductive api_call : Type :=
| Open (path : string) (write_mode use_compression : bool)
| Close (k : nat).

Inductive api_result : Type :=
| Opened (file : file_ptr)
| OpenFailed            (* open returned NULL *)
| Closed (file : file_ptr)
| Stopped.              (* the call did not return, or [Close] had no handle *)

Fixpoint run_client {lfs_t lfs_file_t : Type} (E : externals lfs_t lfs_file_t)
    (calls : list api_call) (held : list file_ptr)
    (w : PoolFS.world lfs_t lfs_file_t)
    : list api_result * list file_ptr * PoolFS.world lfs_t lfs_file_t :=
  match calls with
  | [] => ([], held, w)
  | Open path write_mode use_compression :: calls' =>
      match PoolFS.filesystem_open E path write_mode use_compression w with
      | (Returns NULL, w') =>
          let '(rs, held', w'') := run_client E calls' held w' in
          (OpenFailed :: rs, held', w'')
      | (Returns file, w') =>
          let '(rs, held', w'') := run_client E calls' (held ++ [file]) w' in
          (Opened file :: rs, held', w'')
      | (_, w') => ([Stopped], held, w')
      end
  | Close k :: calls' =>
      match held !! k with
      | Some file =>
          match PoolFS.filesystem_close E file w with
          | (Returns _, w') =>
              let '(rs, held', w'') :=
                run_client E calls' (delete k held) w' in
              (Closed file :: rs, held', w'')
          | (_, w') => ([Stopped], held, w')
          end
      | None => ([Stopped], held, w)
      end
  end.

(** The geometries that an initialisation, given the two linker addresses
    of a reserved region of less than 2^31 bytes, hands to littlefs: the
    claim that the block count is the size of the region divided by the
    block size. *)
Definition mounts_with_region_blocks
    (init_geometry : Z -> Z -> list lfs_config) : Prop :=
  forall FILESYSTEM_START FILESYSTEM_END : Z,
    0 <= FILESYSTEM_END - FILESYSTEM_START < 2 ^ 31 ->
    init_geometry FILESYSTEM_START FILESYSTEM_END <> []
    /\ Forall (fun g => block_count g
                        = (FILESYSTEM_END - FILESYSTEM_START) / 4096)
              (init_geometry FILESYSTEM_START FILESYSTEM_END).

Definition pool_init_geometry {lfs_t lfs_file_t : Type}
    (E : externals lfs_t lfs_file_t) (w : PoolFS.world lfs_t lfs_file_t)
    (FILESYSTEM_START FILESYSTEM_END : Z) : list lfs_config :=
  geometry_of
    (new_calls (PoolFS.system w)
       (PoolFS.system
          (snd (PoolFS.filesystem_init E FILESYSTEM_START FILESYSTEM_END w)))).

Definition core_init_geometry {lfs_t lfs_file_t : Type}
    (E : externals lfs_t lfs_file_t) (s : sys lfs_t) : list lfs_config :=
  geometry_of (new_calls s (snd (CoreFS.filesystem_init E s))).

(** The number of slots marked in use. *)
Definition used_slots {lfs_t lfs_file_t : Type}
    (w : PoolFS.world lfs_t lfs_file_t) : Z :=
  Z.b2z (slot_used w 0) + Z.b2z (slot_used w 1).

(** ** Vocabulary of the further properties *)

(** Modelled from the spec: the cache maintenance calls and the flash
    driver are not under src/. Section 4.1 names what the calls do: the two
    SCB calls switch the data cache off and on (invalidation leaves it as
    it is), the two OSPI toggles leave and enter memory-mapped mode. *)
Record hw_mode : Type := mk_hw_mode {
  dcache_on : bool;
  memory_mapped : bool
}.

Definition mode_step (m : hw_mode) (c : hw_call) : hw_mode :=
  match c with
  | SCB_DisableDCache => mk_hw_mode false (memory_mapped m)
  | SCB_EnableDCache => mk_hw_mode true (memory_mapped m)
  | OSPI_DisableMemoryMappedMode => mk_hw_mode (dcache_on m) false
  | OSPI_EnableMemoryMappedMode => mk_hw_mode (dcache_on m) true
  | _ => m
  end.

Definition mode_after (m : hw_mode) (t : list hw_call) : hw_mode :=
  fold_left mode_step t m.

(** The mode in which the firmware runs: cache on, flash mapped. *)
Definition running_mode : hw_mode := mk_hw_mode true true.

(** [true] when every program and erase command of [t] is issued with the
    data cache off and outside memory-mapped mode. *)
Fixpoint flash_commands_safe (m : hw_mode) (t : list hw_call) : bool :=
  match t with
  | [] => true
  | c :: t' =>
      match c with
      | OSPI_Program _ _ _ | OSPI_EraseSync _ _ =>
          negb (dcache_on m) && negb (memory_mapped m)
      | _ => true
      end && flash_commands_safe (mode_step m c) t'
  end.

(** The requests littlefs makes of the block device, and a run of them
    through the callbacks of the pooled variant. *)
Inductive bd_op : Type :=
| BdProg (block off : Z) (buffer : list Z) (size : Z)
| BdErase (block : Z)
| BdSync.

Definition run_bd_op (partition_offset : Z) (c : lfs_config) (op : bd_op)
    : M hw Z :=
  match op with
  | BdProg block off buffer size =>
      PoolFS.littlefs_api_prog partition_offset c block off buffer size
  | BdErase block => PoolFS.littlefs_api_erase partition_offset c block
  | BdSync => PoolFS.littlefs_api_sync c
  end.

Fixpoint run_bd_ops (partition_offset : Z) (c : lfs_config) (ops : list bd_op)
    : M hw unit :=
  match ops with
  | [] => ret tt
  | op :: ops' =>
      bind (run_bd_op partition_offset c op)
           (fun _ => run_bd_ops partition_offset c ops')
  end.

(** The shape shared by [filesystem_read], [filesystem_write] and
    [filesystem_seek]: stop on the compression owner, else hand the file
    object behind the pointer to littlefs and return the library's answer;
    for a pool slot, store the file object that comes back. [guard] is the
    assertion the owner stops at, [call] the call recorded, [answer] what
    littlefs returns. *)
Definition io_outcome {lfs_t lfs_file_t A : Type}
    (E : externals lfs_t lfs_file_t) (guard : string)
    (call : sys_call) (answer : lfs_t -> lfs_file_t -> A * lfs_t * lfs_file_t)
    (file : file_ptr) (w : PoolFS.world lfs_t lfs_file_t)
    : outcome A * PoolFS.world lfs_t lfs_file_t :=
  match file with
  | HandleFile i =>
      if (i =? 0) || (i =? 1) then
        if i =? PoolFS.file_index_using_compression w then
          (AssertFails guard, w)
        else
          match PoolFS.file_handles w !! Z.to_nat i with
          | Some h =>
              let s := PoolFS.system w in
              let '(a, l, obj) := answer (lfs s) (PoolFS.file h) in
              (Returns a,
               PoolFS.mk_world
                 (<[Z.to_nat i :=
                      PoolFS.mk_handle obj PoolFS.AfterLittlefs
                        (PoolFS.file_attrs h) (PoolFS.config h)]>
                    (PoolFS.file_handles w))
                 (PoolFS.file_handles_used_bitmask w)
                 (PoolFS.file_index_using_compression w) (PoolFS.cfg w)
                 (mk_sys l (rtc s) (trace s ++ [call])))
          | None => (Undefined "file_handles index out of bounds", w)
          end
      else (Undefined "file_handles index out of bounds", w)
  | NULL => (Undefined "littlefs follows a null lfs_file_t*", w)
  | _ =>
      let s := PoolFS.system w in
      let '(a, l, obj) := answer (lfs s) (client_file E file) in
      (Returns a,
       PoolFS.mk_world (PoolFS.file_handles w)
         (PoolFS.file_handles_used_bitmask w)
         (PoolFS.file_index_using_compression w) (PoolFS.cfg w)
         (mk_sys l (rtc s) (trace s ++ [call])))
  end.

(** Two states differ at most in the file objects and the caches of the
    slots, which are littlefs's to change, and in the system behind the
    pool. *)
Definition same_bookkeeping {lfs_t lfs_file_t : Type}
    (w w' : PoolFS.world lfs_t lfs_file_t) : Prop :=
  PoolFS.file_handles_used_bitmask w' = PoolFS.file_handles_used_bitmask w
  /\ PoolFS.file_index_using_compression w'
     = PoolFS.file_index_using_compression w
  /\ PoolFS.cfg w' = PoolFS.cfg w
  /\ length (PoolFS.file_handles w') = length (PoolFS.file_handles w)
  /\ forall (j : nat) (h : PoolFS.filesystem_file_handle_t lfs_file_t),
       PoolFS.file_handles w !! j = Some h ->
       exists h',
         PoolFS.file_handles w' !! j = Some h'
         /\ PoolFS.file_attrs h' = PoolFS.file_attrs h
         /\ PoolFS.config h' = PoolFS.config h.

(** The calls that create a new, empty filesystem. *)
Definition is_format (c : sys_call) : bool :=
  match c with
  | LfsFormat _ => true
  | _ => false
  end.

(** Slot 1 stays marked from [w] to [w']. *)
Definition slot_1_stays_marked {lfs_t lfs_file_t : Type}
    (w w' : PoolFS.world lfs_t lfs_file_t) : Prop :=
  slot_used w 1 = true -> slot_used w' 1 = true.
(** * Properties *)

(** ** Running the monad *)

Lemma bind_returns {S A B : Type} (m : M S A) (k : A -> M S B) s a s' :
  m s = (Returns a, s') -> bind m k s = k a s'.
Proof. intros H. unfold bind. now rewrite H. Qed.

Lemma bind_assert_fails {S A B : Type} (m : M S A) (k : A -> M S B) s e s' :
  m s = (AssertFails e, s') -> bind m k s = (AssertFails e, s').
Proof. intros H. unfold bind. now rewrite H. Qed.

Lemma bind_undefined {S A B : Type} (m : M S A) (k : A -> M S B) s u s' :
  m s = (Undefined u, s') -> bind m k s = (Undefined u, s').
Proof. intros H. unfold bind. now rewrite H. Qed.

(** ** Flash block device adapter *)

Lemma land_low_bits (a : Z) (n : Z) :
  0 <= n -> Z.land a (2 ^ n - 1) = a mod 2 ^ n.
Proof.
  intros Hn. rewrite <- Z.land_ones by assumption.
  f_equal. rewrite Z.ones_equiv. lia.
Qed.

Lemma aligned_test (a : Z) (n : Z) :
  0 <= n -> (Z.land a (2 ^ n - 1) =? 0) = (a mod 2 ^ n =? 0).
Proof. intros Hn. now rewrite land_low_bits. Qed.

Lemma pool_erase_run (po : Z) (c : lfs_config) (block : Z) (t : hw) :
  PoolFS.littlefs_api_erase po c block t =
  if PoolFS.erase_address po c block mod 4096 =? 0
  then (Returns 0,
        t ++ bracketed (OSPI_EraseSync (PoolFS.erase_address po c block)
                                       (block_size c)))
  else (AssertFails "(address & (4*1024 - 1)) == 0", t).
Proof.
  unfold PoolFS.littlefs_api_erase.
  change (4 * 1024 - 1) with (2 ^ 12 - 1).
  rewrite aligned_test by lia. change (2 ^ 12) with 4096.
  destruct (_ =? 0); cbn; [ | reflexivity ].
  unfold bracketed. now rewrite <- !app_assoc.
Qed.

Lemma pool_prog_run (po : Z) (c : lfs_config) (block off : Z)
    (buf : list Z) (size : Z) (t : hw) :
  PoolFS.littlefs_api_prog po c block off buf size t =
  if PoolFS.prog_address po c block off mod 256 =? 0
  then (Returns 0,
        t ++ bracketed (OSPI_Program (PoolFS.prog_address po c block off)
                                     buf size))
  else (AssertFails "(address & 0xFF) == 0", t).
Proof.
  unfold PoolFS.littlefs_api_prog.
  change 0xFF with (2 ^ 8 - 1).
  rewrite aligned_test by lia. change (2 ^ 8) with 256.
  destruct (_ =? 0); cbn; [ | reflexivity ].
  unfold bracketed. now rewrite <- !app_assoc.
Qed.

Lemma core_prog_run (so : Z) (c : lfs_config) (block off : Z)
    (buf : list Z) (size : Z) (t : hw) :
  CoreFS.littlefs_api_prog so c block off buf size t =
  (Returns 0,
   t ++ [OSPI_DisableMemoryMappedMode;
         OSPI_Program (u32 (so + block * block_size c + off)) buf size;
         OSPI_EnableMemoryMappedMode]).
Proof.
  unfold CoreFS.littlefs_api_prog. cbn. now rewrite <- !app_assoc.
Qed.

Lemma skipn_app_exact {A : Type} (l l' : list A) :
  skipn (length l) (l ++ l') = l'.
Proof. induction l; cbn; auto. Qed.

(** C7. In the pooled variant every erase computes the physical address,
    and either that address is a multiple of 4096 and exactly that address
    is erased inside the cache and mapping bracket, or the alignment
    assertion fails and no driver call is made at all: the address is never
    rounded or otherwise adjusted. *)
Theorem erase_address_is_block_aligned :
  forall (partition_offset : Z) (c : lfs_config) (block : Z) (t : hw),
    let address := PoolFS.erase_address partition_offset c block in
    let run := PoolFS.littlefs_api_erase partition_offset c block t in
    (address mod 4096 = 0 ->
       run = (Returns 0, t ++ bracketed (OSPI_EraseSync address (block_size c))))
    /\ (address mod 4096 <> 0 ->
       run = (AssertFails "(address & (4*1024 - 1)) == 0", t))
    /\ (forall a n, In (OSPI_EraseSync a n) (skipn (length t) (snd run)) ->
       a = address /\ a mod 4096 = 0).
Proof.
  intros po c block t address run. subst run.
  rewrite pool_erase_run. fold address.
  destruct (Z.eqb_spec (address mod 4096) 0) as [Hal | Hal].
  - split; [ reflexivity | split; [ congruence | ] ].
    intros a n Hin. cbn [snd] in Hin. rewrite skipn_app_exact in Hin.
    cbn in Hin.
    repeat (destruct Hin as [Hin | Hin]; try discriminate Hin).
    + injection Hin as <- <-. now split.
    + contradiction.
  - split; [ congruence | split; [ reflexivity | ] ].
    intros a n Hin. cbn [snd] in Hin.
    replace t with (t ++ []) in Hin at 2 by apply app_nil_r.
    rewrite skipn_app_exact in Hin. contradiction.
Qed.

Lemma erase_address_is_block_aligned_witness :
  PoolFS.littlefs_api_erase 0x100000 PoolFS.cfg_initializer 3 [] =
    (Returns 0, bracketed (OSPI_EraseSync 0x103000 4096))
  /\ PoolFS.littlefs_api_erase 0x100010 PoolFS.cfg_initializer 3 [] =
    (AssertFails "(address & (4*1024 - 1)) == 0", []).
Proof.
  split.
  - apply (proj1 (erase_address_is_block_aligned
                    0x100000 PoolFS.cfg_initializer 3 [])).
    reflexivity.
  - apply (proj1 (proj2 (erase_address_is_block_aligned
                    0x100010 PoolFS.cfg_initializer 3 []))).
    discriminate.
Defined.

(** C9, as stated, fails in [src/Core/Src/filesystem.c]: its program
    callback leaves and re-enters memory-mapped mode around the program
    command and makes no data-cache call. *)
Lemma core_prog_has_no_cache_bracket :
  CoreFS.littlefs_api_prog 0x100000 CoreFS.cfg 1 0 [0xA5] 1 [] =
    (Returns 0,
     [OSPI_DisableMemoryMappedMode; OSPI_Program 0x101000 [0xA5] 1;
      OSPI_EnableMemoryMappedMode])
  /\ snd (CoreFS.littlefs_api_prog 0x100000 CoreFS.cfg 1 0 [0xA5] 1 [])
     <> bracketed (OSPI_Program 0x101000 [0xA5] 1).
Proof. split; [ reflexivity | discriminate ]. Qed.

(** C9, amended. In the pooled variant a program operation whose address
    is a multiple of 256 makes exactly the six driver calls of the
    hazard-free order (disable data cache, invalidate data cache, leave
    memory-mapped mode, program, re-enter memory-mapped mode, enable data
    cache), and one whose address is not is stopped by the assertion before
    any driver call. The variant of [src/Core/Src/filesystem.c] makes
    exactly three calls: leave memory-mapped mode, program, re-enter. In
    both, whatever the mode was before, no program command is issued in
    memory-mapped mode. *)
Theorem program_order_by_variant :
  forall (offset : Z) (c : lfs_config) (block off : Z) (buf : list Z)
         (size : Z) (t : hw),
    let address := PoolFS.prog_address offset c block off in
    let pooled := PoolFS.littlefs_api_prog offset c block off buf size t in
    let core := CoreFS.littlefs_api_prog offset c block off buf size t in
    (address mod 256 = 0 ->
       pooled = (Returns 0, t ++ bracketed (OSPI_Program address buf size)))
    /\ (address mod 256 <> 0 ->
       pooled = (AssertFails "(address & 0xFF) == 0", t))
    /\ core = (Returns 0,
               t ++ [OSPI_DisableMemoryMappedMode;
                     OSPI_Program address buf size;
                     OSPI_EnableMemoryMappedMode])
    /\ (forall mapped : bool,
          program_unmapped mapped (skipn (length t) (snd pooled)) = true
          /\ program_unmapped mapped (skipn (length t) (snd core)) = true).
Proof.
  intros offset c block off buf size t address pooled core.
  subst pooled core. rewrite pool_prog_run, core_prog_run. fold address.
  destruct (Z.eqb_spec (address mod 256) 0) as [Hal | Hal].
  - split; [ reflexivity | split; [ congruence | split; [ reflexivity | ] ] ].
    intros mapped. cbn [snd]. rewrite !skipn_app_exact.
    now destruct mapped.
  - split; [ congruence | split; [ reflexivity | split; [ reflexivity | ] ] ].
    intros mapped. cbn [snd]. rewrite skipn_app_exact.
    replace t with (t ++ []) at 2 by apply app_nil_r.
    rewrite skipn_app_exact. now destruct mapped.
Qed.

Lemma program_order_by_variant_witness :
  PoolFS.littlefs_api_prog 0x100000 PoolFS.cfg_initializer 1 0x200 [0xA5] 1 [] =
    (Returns 0, bracketed (OSPI_Program 0x101200 [0xA5] 1))
  /\ PoolFS.littlefs_api_prog 0x100000 PoolFS.cfg_initializer 1 0x201 [0xA5] 1 [] =
    (AssertFails "(address & 0xFF) == 0", []).
Proof.
  split.
  - apply (proj1 (program_order_by_variant
                    0x100000 PoolFS.cfg_initializer 1 0x200 [0xA5] 1 [])).
    reflexivity.
  - apply (proj1 (proj2 (program_order_by_variant
                    0x100000 PoolFS.cfg_initializer 1 0x201 [0xA5] 1 []))).
    discriminate.
Defined.

(** ** The standalone write of src/Core/Src/filesystem.c *)

Section CoreWrite.
Context {lfs_t lfs_file_t : Type}.
Variable E : externals lfs_t lfs_file_t.

(** The attributes that [filesystem_write] reaches through its
    configuration: the time attribute, with the clock reading behind it. *)
Lemma core_attributes (current_time : Z) :
  CoreFS.attributes_of
    (<[0%nat := mk_lfs_attr char_t LocalCurrentTime 4]>
       (repeat (mk_lfs_attr 0 NullPtr 0) (Z.to_nat LFS_NUM_ATTRS)))
    current_time (mk_lfs_file_config (LcdBuffer 0) LocalAttrs LFS_NUM_ATTRS)
  = [time_attr_at current_time].
Proof. reflexivity. Qed.

Lemma core_write_clock_zero (path : string) (data : list Z) (size : Z)
    (s : sys lfs_t) :
  u32 (rtc s) = 0 ->
  CoreFS.filesystem_write E path data size s =
  (AssertFails "current_time",
   mk_sys (lfs s)
          (rtc_next E (trace s ++ [LcdGetInactiveBuffer; GetUnixTime (rtc s)]))
          (trace s ++ [LcdGetInactiveBuffer; GetUnixTime (rtc s)])).
Proof.
  intros Hz. unfold CoreFS.filesystem_write, bind, log, GW_GetUnixTime, modify,
    get, ret, assert. cbn. rewrite Hz. cbn.
  now rewrite <- app_assoc.
Qed.

Lemma core_write_run (path : string) (data : list Z) (size : Z)
    (s : sys lfs_t) rc1 l1 f1 rc2 l2 f2 rc3 l3 f3 :
  u32 (rtc s) <> 0 ->
  opencfg_result E (lfs s) path (core_write_flags E) core_write_config
                 [time_attr_at (u32 (rtc s))] = (rc1, l1, f1) ->
  write_result E l1 f1 data size = (rc2, l2, f2) ->
  close_result E l2 f2 = (rc3, l3, f3) ->
  rc1 = 0 -> size = u32 rc2 ->
  CoreFS.filesystem_write E path data size s =
  (if rc3 =? 0 then AssertFails "lfs_file_close(&lfs, &file)" else Returns tt,
   mk_sys l3
     (rtc_next E (trace s ++ [LcdGetInactiveBuffer; GetUnixTime (rtc s)]))
     (trace s ++ [LcdGetInactiveBuffer; GetUnixTime (rtc s);
                  LfsFileOpencfg LocalFile path (core_write_flags E)
                    core_write_config [time_attr_at (u32 (rtc s))];
                  LfsFileWrite LocalFile data size;
                  LfsFileClose LocalFile [time_attr_at (u32 (rtc s))]])).
Proof.
  intros Hnz Hopen Hwrite Hclose -> Hsize.
  unfold CoreFS.filesystem_write, bind, log, GW_GetUnixTime, lfs_file_opencfg,
    lfs_file_write, lfs_file_close, set_lfs, modify, get, ret, assert.
  cbn -[CoreFS.attributes_of]. rewrite !core_attributes.
  apply Z.eqb_neq in Hnz. rewrite Hnz. cbn.
  unfold core_write_flags, core_write_config in Hopen.
  rewrite Hopen. cbn. rewrite Hwrite. cbn.
  rewrite <- Hsize, Z.eqb_refl. cbn. rewrite Hclose. cbn.
  rewrite <- !app_assoc. cbn.
  now destruct (rc3 =? 0).
Qed.
End CoreWrite.

(** C10. In the standalone write of [src/Core/Src/filesystem.c], once the
    clock, open and write assertions have passed, the call returns exactly
    when [lfs_file_close] answers a non-zero value; an answer of 0, which
    is how littlefs reports success, makes the final assertion fail. *)
Theorem core_write_close_assertion :
  forall (lfs_t lfs_file_t : Type) (E : externals lfs_t lfs_file_t)
         (path : string) (data : list Z) (size : Z) (s : sys lfs_t)
         (l1 l2 l3 : lfs_t) (f1 f2 f3 : lfs_file_t) (written closed : Z),
    u32 (rtc s) <> 0 ->
    opencfg_result E (lfs s) path (core_write_flags E) core_write_config
                   [time_attr_at (u32 (rtc s))] = (0, l1, f1) ->
    write_result E l1 f1 data size = (written, l2, f2) ->
    size = u32 written ->
    close_result E l2 f2 = (closed, l3, f3) ->
    (fst (CoreFS.filesystem_write E path data size s) = Returns tt
       <-> closed <> 0)
    /\ (closed = 0 ->
        fst (CoreFS.filesystem_write E path data size s) =
        AssertFails "lfs_file_close(&lfs, &file)").
Proof.
  intros lfs_t lfs_file_t E path data size s l1 l2 l3 f1 f2 f3 written closed
    Hnz Hopen Hwrite Hsize Hclose.
  rewrite (core_write_run E path data size s _ _ _ _ _ _ _ _ _
             Hnz Hopen Hwrite Hclose eq_refl Hsize).
  cbn [fst].
  destruct (Z.eqb_spec closed 0) as [-> | Hne].
  - split; [ split; [ discriminate | congruence ] | reflexivity ].
  - split; [ split; [ now intros _ | reflexivity ] | congruence ].
Qed.

Lemma core_write_close_assertion_witness :
  fst (CoreFS.filesystem_write (RamDisk.ram_disk 0) "save" [1; 2; 3] 3
         (RamDisk.blank 1700000000)) =
    AssertFails "lfs_file_close(&lfs, &file)"
  /\ fst (CoreFS.filesystem_write (RamDisk.ram_disk 1) "save" [1; 2; 3] 3
            (RamDisk.blank 1700000000)) = Returns tt.
Proof.
  split.
  - eapply (proj2 (core_write_close_assertion _ _ (RamDisk.ram_disk 0)
                     "save" [1; 2; 3] 3 (RamDisk.blank 1700000000)
                     _ _ _ _ _ _ 3 0
                     ltac:(discriminate) eq_refl eq_refl eq_refl eq_refl)).
    reflexivity.
  - eapply (proj1 (core_write_close_assertion _ _ (RamDisk.ram_disk 1)
                     "save" [1; 2; 3] 3 (RamDisk.blank 1700000000)
                     _ _ _ _ _ _ 3 1
                     ltac:(discriminate) eq_refl eq_refl eq_refl eq_refl)).
    discriminate.
Defined.

(** ** The handle pool, run on a whole array *)

Lemma slot_index_0 : PoolFS.slot_index 0 = Some 0%nat.
Proof. reflexivity. Qed.

Lemma slot_index_1 : PoolFS.slot_index 1 = Some 1%nat.
Proof. reflexivity. Qed.

Lemma slot_index_outside (i : Z) :
  i <> 0 -> i <> 1 -> PoolFS.slot_index i = None.
Proof.
  intros H0 H1. unfold PoolFS.slot_index, PoolFS.MAX_OPEN_FILES.
  destruct (Z.leb_spec 0 i), (Z.ltb_spec i 2); cbn; try reflexivity. lia.
Qed.

Ltac run_c :=
  unfold bind, ret, get, PoolFS.load_handle, PoolFS.store_handle,
    PoolFS.store_file, PoolFS.deref,
    PoolFS.set_file_handles, PoolFS.set_file_handles_used_bitmask,
    PoolFS.set_file_index_using_compression, PoolFS.set_cfg,
    PoolFS.lift, GW_GetUnixTime, printf, lfs_mount, lfs_format,
    lfs_file_opencfg, lfs_file_close, lfs_file_write, lfs_file_read,
    lfs_file_seek, log, set_lfs, modify, assert, undefined, behind;
  rewrite ?slot_index_0, ?slot_index_1;
  change (Z.to_nat 0) with 0%nat;
  change (Z.to_nat 1) with 1%nat;
  cbn -[PoolFS.slot_index Z.eqb Z.leb Z.ltb u32 u8 zero_buffer Z.land Z.lor Z.lnot].

Section PoolRuns.
Context {lfs_t lfs_file_t : Type}.
Variable E : externals lfs_t lfs_file_t.
Abbreviation W := (PoolFS.world lfs_t lfs_file_t).

Lemma acquire_run (use_compression : bool) (w : W) :
  PoolFS.acquire_file_handle E use_compression w =
  match first_free (PoolFS.file_handles_used_bitmask w) with
  | None => (Returns None, w)
  | Some (i, bit) =>
      if use_compression && (0 <=? PoolFS.file_index_using_compression w)
      then (Returns None,
            PoolFS.mk_world (PoolFS.file_handles w)
              (Z.lor (PoolFS.file_handles_used_bitmask w) bit)
              (PoolFS.file_index_using_compression w) (PoolFS.cfg w)
              (PoolFS.system w))
      else (Returns (Some i),
            PoolFS.mk_world
              (<[Z.to_nat i := PoolFS.zero_handle E]> (PoolFS.file_handles w))
              (Z.lor (PoolFS.file_handles_used_bitmask w) bit)
              (if use_compression then i
               else PoolFS.file_index_using_compression w)
              (PoolFS.cfg w) (PoolFS.system w))
  end.
Proof.
  destruct w as [hs mask owner c s].
  unfold PoolFS.acquire_file_handle, first_free.
  change (Z.to_nat PoolFS.MAX_OPEN_FILES) with 2%nat.
  cbn [PoolFS.acquire_file_handle_loop].
  unfold bind at 1. cbn.
  destruct (Z.land mask 1 =? 0) eqn:H0.
  - destruct use_compression; cbn.
    + destruct (0 <=? owner); reflexivity.
    + reflexivity.
  - unfold bind at 1. cbn. change (u8 (Z.shiftl 1 1)) with 2.
    destruct (Z.land mask 2 =? 0) eqn:H1.
    + destruct use_compression; cbn.
      * destruct (0 <=? owner); reflexivity.
      * reflexivity.
    + reflexivity.
Qed.

Lemma using_compression_run (file : file_ptr) (w : W) :
  PoolFS.file_is_using_compression file w =
  match file with
  | HandleFile i =>
      ((i =? 0) || (i =? 1)) && (i =? PoolFS.file_index_using_compression w)
  | _ => false
  end.
Proof.
  unfold PoolFS.file_is_using_compression.
  change (Z.to_nat PoolFS.MAX_OPEN_FILES) with 2%nat.
  cbn [PoolFS.file_is_using_compression_loop].
  destruct file as [ | i | | a]; cbn [file_ptr_eqb andb]; try reflexivity.
  change (0 + 1) with 1.
  destruct (Z.eqb_spec i 0) as [-> | H0].
  - change (0 =? 1) with false. cbn [andb orb].
    now destruct (0 =? _).
  - cbn [andb orb].
    destruct (Z.eqb_spec i 1) as [-> | H1]; cbn [andb]; [ | reflexivity ].
    now destruct (1 =? _).
Qed.

Lemma release_run (file : file_ptr) (w : W) :
  PoolFS.release_file_handle file w =
  match file with
  | HandleFile i =>
      if (i =? 0) || (i =? 1) then
        (Returns tt,
         PoolFS.mk_world (PoolFS.file_handles w)
           (u8 (Z.land (PoolFS.file_handles_used_bitmask w) (Z.lnot 1)))
           (if i =? PoolFS.file_index_using_compression w then -1
            else PoolFS.file_index_using_compression w)
           (PoolFS.cfg w) (PoolFS.system w))
      else (AssertFails "0", w)
  | _ => (AssertFails "0", w)
  end.
Proof.
  assert (Hfound : forall i, (i =? 0) || (i =? 1) = true ->
    (w' <- get ;;
     PoolFS.set_file_handles_used_bitmask
       (u8 (Z.land (PoolFS.file_handles_used_bitmask w') (Z.lnot 1))) ;;
     w' <- get ;;
     if PoolFS.file_is_using_compression (HandleFile i) w'
     then PoolFS.set_file_index_using_compression (-1)
     else ret tt) w =
    (Returns tt,
     PoolFS.mk_world (PoolFS.file_handles w)
       (u8 (Z.land (PoolFS.file_handles_used_bitmask w) (Z.lnot 1)))
       (if i =? PoolFS.file_index_using_compression w then -1
        else PoolFS.file_index_using_compression w)
       (PoolFS.cfg w) (PoolFS.system w))).
  { intros i Hi. destruct w as [hs mask owner c s].
    unfold bind, get, PoolFS.set_file_handles_used_bitmask, modify.
    cbn [PoolFS.file_handles PoolFS.file_handles_used_bitmask
         PoolFS.file_index_using_compression PoolFS.cfg PoolFS.system].
    rewrite using_compression_run, Hi.
    cbn [andb PoolFS.file_index_using_compression].
    now destruct (i =? owner). }
  unfold PoolFS.release_file_handle.
  change (Z.to_nat PoolFS.MAX_OPEN_FILES) with 2%nat.
  cbn [PoolFS.release_file_handle_loop].
  destruct file as [ | i | | a]; cbn [file_ptr_eqb]; try reflexivity.
  change (0 + 1) with 1.
  destruct (i =? 0) eqn:H0.
  - apply Hfound. now rewrite H0.
  - destruct (i =? 1) eqn:H1.
    + apply Hfound. now rewrite H0, H1.
    + reflexivity.
Qed.

Lemma zero_handle_eq :
  PoolFS.zero_handle E =
  PoolFS.mk_handle (lfs_file_zero E) zero_buffer [PoolFS.zero_attr]
    (mk_lfs_file_config NullPtr NullPtr 0).
Proof. reflexivity. Qed.

Lemma open_run (path : string) (write_mode use_compression : bool) (w : W) :
  well_formed w ->
  PoolFS.filesystem_open E path write_mode use_compression w =
  open_result E path write_mode use_compression w.
Proof.
  destruct w as [hs mask owner c s]. unfold well_formed.
  cbn [PoolFS.file_handles].
  change (Z.to_nat PoolFS.MAX_OPEN_FILES) with 2%nat.
  intros Hlen.
  destruct hs as [ | h0 [ | h1 [ | ? ? ] ] ]; try discriminate Hlen.
  unfold PoolFS.filesystem_open, open_result.
  unfold bind at 1. rewrite acquire_run.
  cbn [PoolFS.file_handles PoolFS.file_handles_used_bitmask
       PoolFS.file_index_using_compression PoolFS.cfg PoolFS.system].
  destruct (first_free mask) as [ [i bit] | ] eqn:Hfree.
  - assert (Hi : i = 0 \/ i = 1).
    { unfold first_free in Hfree.
      destruct (_ =? 0); [ injection Hfree; auto | ].
      destruct (_ =? 0); [ injection Hfree; auto | discriminate ]. }
    destruct use_compression.
    + cbn [andb]. destruct (0 <=? owner).
      * reflexivity.
      * reflexivity.
    + cbn [andb].
      destruct s as [l now t].
      destruct Hi as [-> | ->].
      * rewrite zero_handle_eq. run_c.
        unfold add_calls, open_flags, opened_handle, slot_config, time_attr_at, time_attr.
        cbn -[Z.eqb u32 zero_buffer].
        destruct (u32 now =? 0); run_c; [ reflexivity | ].
        destruct (opencfg_result E l path _ _ _) as [[rc l'] obj]. run_c.
        rewrite <- app_assoc. now destruct (0 =? rc).
      * rewrite zero_handle_eq. run_c.
        unfold add_calls, open_flags, opened_handle, slot_config, time_attr_at, time_attr.
        cbn -[Z.eqb u32 zero_buffer].
        destruct (u32 now =? 0); run_c; [ reflexivity | ].
        destruct (opencfg_result E l path _ _ _) as [[rc l'] obj]. run_c.
        rewrite <- app_assoc. now destruct (0 =? rc).
  - reflexivity.
Qed.

Lemma close_run (file : file_ptr) (w : W) :
  well_formed w ->
  PoolFS.filesystem_close E file w = close_outcome E file w.
Proof.
  destruct w as [hs mask owner c s]. unfold well_formed.
  cbn [PoolFS.file_handles].
  change (Z.to_nat PoolFS.MAX_OPEN_FILES) with 2%nat.
  intros Hlen.
  destruct hs as [ | h0 [ | h1 [ | ? ? ] ] ]; try discriminate Hlen.
  destruct s as [l now t].
  unfold PoolFS.filesystem_close, close_outcome.
  unfold bind at 1, get at 1. unfold bind at 1.
  rewrite using_compression_run.
  assert (Houtside : forall file : file_ptr,
            file_ptr_eqb file (HandleFile 0) = false ->
            file_ptr_eqb file (HandleFile 1) = false ->
            forall w' : W, PoolFS.release_file_handle file w'
                           = (AssertFails "0", w')).
  { intros f Hf0 Hf1 w'. rewrite release_run.
    destruct f as [ | i | | a]; try reflexivity.
    cbn [file_ptr_eqb] in Hf0, Hf1. now rewrite Hf0, Hf1. }
  destruct file as [ | i | | a]; try reflexivity.
  2, 3 : cbn [PoolFS.system lfs]; do 2 run_c;
    match goal with
    | |- context [ close_result E ?l0 ?obj ] =>
        destruct (close_result E l0 obj) as [[rc l'] obj']
    end; run_c;
    destruct (0 <=? rc); [ | reflexivity ];
    now rewrite Houtside by reflexivity.
  cbn [PoolFS.file_index_using_compression PoolFS.file_handles PoolFS.system
       PoolFS.file_handles_used_bitmask PoolFS.cfg].
  destruct (Z.eqb_spec i 0) as [-> | H0].
  - cbn [orb andb]. destruct (0 =? owner) eqn:Ho; [ reflexivity | ].
    do 2 run_c.
    destruct (close_result E l (PoolFS.file h0)) as [[rc l'] obj]. run_c.
    destruct (0 <=? rc); [ | reflexivity ].
    rewrite release_run. change ((0 =? 0) || (0 =? 1)) with true.
    run_c. now rewrite Ho.
  - destruct (Z.eqb_spec i 1) as [-> | H1].
    + cbn [orb andb]. destruct (1 =? owner) eqn:Ho; [ reflexivity | ].
      do 2 run_c.
      destruct (close_result E l (PoolFS.file h1)) as [[rc l'] obj]. run_c.
      destruct (0 <=? rc); [ | reflexivity ].
      rewrite release_run. change ((0 =? 0) || (0 =? 1)) with true.
    run_c. now rewrite Ho.
    + cbn [orb andb]. do 2 run_c.
      now rewrite slot_index_outside by assumption.
Qed.
End PoolRuns.


(** ** Relations kept by every step of a computation *)

Section Respects.
Context {S : Type} (R : S -> S -> Prop).
Hypothesis R_refl : forall s, R s s.
Hypothesis R_trans : forall s1 s2 s3, R s1 s2 -> R s2 s3 -> R s1 s3.

Lemma respects_ret {A : Type} (a : A) : respects R (ret a).
Proof. intros s. apply R_refl. Qed.

Lemma respects_get : respects R get.
Proof. intros s. apply R_refl. Qed.

Lemma respects_assert (cond : bool) (expr : string) :
  respects R (assert cond expr).
Proof. intros s. unfold assert. destruct cond; apply R_refl. Qed.

Lemma respects_undefined {A : Type} (what : string) :
  respects R (@undefined S A what).
Proof. intros s. apply R_refl. Qed.

Lemma respects_bind {A B : Type} (m : M S A) (k : A -> M S B) :
  respects R m -> (forall a, respects R (k a)) -> respects R (bind m k).
Proof.
  intros Hm Hk s. unfold bind. specialize (Hm s).
  destruct (m s) as [[a | e | u] s']; cbn [snd] in *; try assumption.
  eapply R_trans; [ exact Hm | apply Hk ].
Qed.
End Respects.

Create HintDb respects.
#[export] Hint Resolve respects_ret respects_get respects_assert
  respects_undefined : respects.

(** Breaks a goal [respects R m] down along the structure of [m]. *)
Ltac respects_step :=
  match goal with
  | Ht : forall w1 w2 w3, ?R w1 w2 -> ?R w2 w3 -> ?R w1 w3
    |- respects ?R (bind _ _) =>
      apply (respects_bind R Ht); [ | intros ? ]
  | |- respects _ (if ?b then _ else _) => destruct b
  | |- respects _ (match ?x with (_, _) => _ end) => destruct x
  | |- respects _ (match ?x with Some _ => _ | None => _ end) => destruct x
  | |- respects _ (match ?x with NULL => _ | _ => _ end) => destruct x
  | |- respects _ _ => solve [ auto with respects ]
  end.

Section PoolRespects.
Context {lfs_t lfs_file_t : Type}.
Variable E : externals lfs_t lfs_file_t.
Abbreviation W := (PoolFS.world lfs_t lfs_file_t).
Variable R : W -> W -> Prop.
Hypothesis R_refl : forall w, R w w.
Hypothesis R_trans : forall w1 w2 w3, R w1 w2 -> R w2 w3 -> R w1 w3.
Hypothesis R_store : forall i h, respects R (PoolFS.store_handle i h).
Hypothesis R_acquire : forall uc, respects R (PoolFS.acquire_file_handle E uc).
Hypothesis R_release : forall file, respects R (PoolFS.release_file_handle file).
Hypothesis R_printf : forall f args, respects R (PoolFS.lift (printf f args)).
Hypothesis R_time : respects R (PoolFS.lift (GW_GetUnixTime E)).
Hypothesis R_opencfg : forall file path flags c a,
  respects R (PoolFS.lift (lfs_file_opencfg E file path flags c a)).
Hypothesis R_close : forall file obj attributes,
  respects R (PoolFS.lift (lfs_file_close E file obj attributes)).
Hypothesis R_write : forall file obj data size,
  respects R (PoolFS.lift (lfs_file_write E file obj data size)).
Hypothesis R_read : forall file obj size,
  respects R (PoolFS.lift (lfs_file_read E file obj size)).
Hypothesis R_seek : forall file obj off whence,
  respects R (PoolFS.lift (lfs_file_seek E file obj off whence)).

Local Hint Resolve R_refl R_trans R_store R_acquire R_release R_printf R_time
  R_opencfg R_close R_write R_read R_seek : respects.

Lemma respects_load_handle (i : Z) : respects R (PoolFS.load_handle i).
Proof. unfold PoolFS.load_handle. repeat respects_step. Qed.
Local Hint Resolve respects_load_handle : respects.

Lemma respects_store_file (place : PoolFS.file_place) (obj : lfs_file_t) :
  respects R (PoolFS.store_file place obj).
Proof. destruct place; unfold PoolFS.store_file; repeat respects_step. Qed.
Local Hint Resolve respects_store_file : respects.

Lemma respects_deref (file : file_ptr) : respects R (PoolFS.deref E file).
Proof. unfold PoolFS.deref. repeat respects_step. Qed.
Local Hint Resolve respects_deref : respects.

Lemma respects_open (path : string) (write_mode use_compression : bool) :
  respects R (PoolFS.filesystem_open E path write_mode use_compression).
Proof. unfold PoolFS.filesystem_open. repeat respects_step. Qed.

Lemma respects_read (file : file_ptr) (size : Z) :
  respects R (PoolFS.filesystem_read E file size).
Proof. unfold PoolFS.filesystem_read. repeat respects_step. Qed.

Lemma respects_write (file : file_ptr) (data : list Z) (size : Z) :
  respects R (PoolFS.filesystem_write E file data size).
Proof. unfold PoolFS.filesystem_write. repeat respects_step. Qed.

Lemma respects_close (file : file_ptr) :
  respects R (PoolFS.filesystem_close E file).
Proof. unfold PoolFS.filesystem_close. repeat respects_step. Qed.

Lemma respects_seek (file : file_ptr) (off whence : Z) :
  respects R (PoolFS.filesystem_seek E file off whence).
Proof. unfold PoolFS.filesystem_seek. repeat respects_step. Qed.

Local Hint Resolve respects_open respects_read respects_write respects_close
  respects_seek : respects.

Lemma respects_boot_counter : respects R (PoolFS.boot_counter E).
Proof. unfold PoolFS.boot_counter. repeat respects_step. Qed.
Local Hint Resolve respects_boot_counter : respects.

Lemma respects_init (FILESYSTEM_START FILESYSTEM_END : Z) :
  (forall c, respects R (PoolFS.set_cfg c)) ->
  (forall c, respects R (PoolFS.lift (lfs_mount E c))) ->
  (forall c, respects R (PoolFS.lift (lfs_format E c))) ->
  respects R (PoolFS.filesystem_init E FILESYSTEM_START FILESYSTEM_END).
Proof.
  intros Hcfg Hmount Hformat.
  unfold PoolFS.filesystem_init. repeat respects_step.
Qed.
End PoolRespects.


(** ** The pool invariant *)

Section Invariant.
Context {lfs_t lfs_file_t : Type}.
Variable E : externals lfs_t lfs_file_t.
Abbreviation W := (PoolFS.world lfs_t lfs_file_t).
Abbreviation keeps := (@keeps_invariant lfs_t lfs_file_t).

Lemma keeps_refl (w : W) : keeps_invariant w w.
Proof. now intros H. Qed.

Lemma keeps_trans (w1 w2 w3 : W) :
  keeps_invariant w1 w2 -> keeps_invariant w2 w3 -> keeps_invariant w1 w3.
Proof. unfold keeps_invariant. auto. Qed.

Lemma small_mask_cases (mask : Z) :
  0 <= mask <= 3 -> mask = 0 \/ mask = 1 \/ mask = 2 \/ mask = 3.
Proof. lia. Qed.

Lemma keeps_store (i : Z) (h : PoolFS.filesystem_file_handle_t lfs_file_t) :
  respects keeps (PoolFS.store_handle i h).
Proof.
  intros w [Hwf Hrest]. unfold PoolFS.store_handle, bind, get.
  destruct (PoolFS.slot_index i); cbn; [ | now split ].
  split; [ | exact Hrest ].
  unfold well_formed in *. cbn. now rewrite length_insert.
Qed.

Lemma first_free_some (mask i bit : Z) :
  0 <= mask <= 3 -> first_free mask = Some (i, bit) ->
  (i = 0 \/ i = 1) /\ bit = 2 ^ i /\ Z.testbit mask i = false
  /\ mask < Z.lor mask bit <= 3.
Proof.
  intros H Hf.
  destruct (small_mask_cases _ H) as [-> | [-> | [-> | ->]]];
    vm_compute in Hf; try discriminate Hf;
    injection Hf as <- <-;
    (split; [ auto | split; [ reflexivity | split; [ reflexivity | ] ] ]).
  - change (Z.lor 0 1) with 1. lia.
  - change (Z.lor 1 2) with 3. lia.
  - change (Z.lor 2 1) with 3. lia.
Qed.

Lemma first_free_none (mask : Z) :
  0 <= mask <= 3 -> first_free mask = None -> mask = 3.
Proof.
  intros H Hf.
  destruct (small_mask_cases _ H) as [-> | [-> | [-> | ->]]];
    vm_compute in Hf; try discriminate Hf; reflexivity.
Qed.

Lemma release_mask_bounds (mask : Z) :
  0 <= mask <= 3 -> 0 <= u8 (Z.land mask (Z.lnot 1)) <= mask.
Proof.
  intros H.
  destruct (small_mask_cases _ H) as [-> | [-> | [-> | ->]]].
  - change (u8 (Z.land 0 (Z.lnot 1))) with 0. lia.
  - change (u8 (Z.land 1 (Z.lnot 1))) with 0. lia.
  - change (u8 (Z.land 2 (Z.lnot 1))) with 2. lia.
  - change (u8 (Z.land 3 (Z.lnot 1))) with 2. lia.
Qed.

Lemma keeps_acquire (use_compression : bool) :
  respects keeps (PoolFS.acquire_file_handle E use_compression).
Proof.
  intros w (Hwf & Howner & Hmask). rewrite acquire_run.
  destruct (first_free _) as [[i bit] | ] eqn:Hf; [ | now repeat split ].
  destruct (first_free_some _ _ _ Hmask Hf) as (Hi & _ & _ & Hlor).
  unfold pool_invariant, well_formed in *.
  destruct (use_compression && _) eqn:Hbusy; cbn.
  - repeat split; auto; lia.
  - rewrite length_insert. repeat split; auto; try lia.
    destruct use_compression; [ | exact Howner ].
    destruct Hi as [-> | ->]; auto.
Qed.

Lemma keeps_release (file : file_ptr) :
  respects keeps (PoolFS.release_file_handle file).
Proof.
  intros w (Hwf & Howner & Hmask). rewrite release_run.
  destruct file as [ | i | | a]; try (now repeat split).
  destruct ((i =? 0) || (i =? 1)); [ | now repeat split ].
  pose proof (release_mask_bounds _ Hmask) as Hb.
  unfold pool_invariant, well_formed in *. cbn.
  repeat split; auto; try lia.
  destruct (i =? _); auto.
Qed.

Lemma keeps_lift {A : Type} (m : M (sys lfs_t) A) :
  respects keeps (@PoolFS.lift lfs_t lfs_file_t A m).
Proof.
  intros w H. unfold PoolFS.lift. destruct (m (PoolFS.system w)). exact H.
Qed.

Lemma keeps_set_cfg (c : lfs_config) :
  respects keeps (@PoolFS.set_cfg lfs_t lfs_file_t c).
Proof. now intros w H. Qed.
End Invariant.

Section InvariantOfTheInterface.
Context {lfs_t lfs_file_t : Type}.
Variable E : externals lfs_t lfs_file_t.
Variables FILESYSTEM_START FILESYSTEM_END : Z.
Abbreviation W := (PoolFS.world lfs_t lfs_file_t).
Abbreviation keeps := (@keeps_invariant lfs_t lfs_file_t).

Ltac keeps_side :=
  first [ exact keeps_refl | exact keeps_trans | exact keeps_store
        | exact (keeps_acquire _) | exact keeps_release | exact keeps_set_cfg
        | intros; apply keeps_lift ].

Lemma keeps_open (path : string) (write_mode use_compression : bool) :
  respects keeps (PoolFS.filesystem_open E path write_mode use_compression).
Proof.
  apply respects_open; keeps_side.
Qed.

Lemma keeps_read (file : file_ptr) (size : Z) :
  respects keeps (PoolFS.filesystem_read E file size).
Proof.
  apply respects_read; keeps_side.
Qed.

Lemma keeps_write (file : file_ptr) (data : list Z) (size : Z) :
  respects keeps (PoolFS.filesystem_write E file data size).
Proof.
  apply respects_write; keeps_side.
Qed.

Lemma keeps_close (file : file_ptr) :
  respects keeps (PoolFS.filesystem_close E file).
Proof.
  apply respects_close; keeps_side.
Qed.

Lemma keeps_seek (file : file_ptr) (off whence : Z) :
  respects keeps (PoolFS.filesystem_seek E file off whence).
Proof.
  apply respects_seek; keeps_side.
Qed.

Lemma keeps_init :
  respects keeps (PoolFS.filesystem_init E FILESYSTEM_START FILESYSTEM_END).
Proof.
  apply respects_init; keeps_side.
Qed.

Lemma initial_world_invariant (s : sys lfs_t) :
  pool_invariant (PoolFS.initial_world E s).
Proof.
  unfold pool_invariant, well_formed. cbn. repeat split; auto; lia.
Qed.

Lemma reachable_invariant (w : W) :
  reachable E FILESYSTEM_START FILESYSTEM_END w -> pool_invariant w.
Proof.
  induction 1 as [ s | w now _ IH | w _ IH | w path wm uc _ IH
                 | w file size _ IH | w file data size _ IH | w file _ IH
                 | w file off whence _ IH ].
  - apply initial_world_invariant.
  - exact IH.
  - now apply keeps_init.
  - now apply keeps_open.
  - now apply keeps_read.
  - now apply keeps_write.
  - now apply keeps_close.
  - now apply keeps_seek.
Qed.
End InvariantOfTheInterface.

(** ** Calls made by the public interface *)

Section Emits.
Context {lfs_t lfs_file_t : Type}.
Variable E : externals lfs_t lfs_file_t.
Variable P : sys_call -> Prop.
Abbreviation W := (PoolFS.world lfs_t lfs_file_t).
Abbreviation em := (@emits lfs_t lfs_file_t P).

Lemma emits_same_system (w w' : W) :
  PoolFS.system w' = PoolFS.system w -> em w w'.
Proof.
  intros H. exists []. rewrite H, app_nil_r. split; [ reflexivity | constructor ].
Qed.

Lemma emits_refl (w : W) : em w w.
Proof. now apply emits_same_system. Qed.

Lemma emits_trans (w1 w2 w3 : W) : em w1 w2 -> em w2 w3 -> em w1 w3.
Proof.
  intros (n1 & H1 & F1) (n2 & H2 & F2). exists (n1 ++ n2).
  rewrite H2, H1, app_assoc. split; [ reflexivity | now apply Forall_app ].
Qed.

Lemma emits_one (w w' : W) (c : sys_call) :
  P c ->
  trace (PoolFS.system w') = trace (PoolFS.system w) ++ [c] -> em w w'.
Proof. intros Hc H. exists [c]. split; [ exact H | now repeat constructor ]. Qed.

Lemma emits_store (i : Z) (h : PoolFS.filesystem_file_handle_t lfs_file_t) :
  respects em (PoolFS.store_handle i h).
Proof.
  intros w. apply emits_same_system.
  unfold PoolFS.store_handle, bind, get. now destruct (PoolFS.slot_index i).
Qed.

Lemma emits_set_cfg (c : lfs_config) : respects em (PoolFS.set_cfg c).
Proof. intros w. now apply emits_same_system. Qed.

Lemma emits_acquire (use_compression : bool) :
  respects em (PoolFS.acquire_file_handle E use_compression).
Proof.
  intros w. apply emits_same_system. rewrite acquire_run.
  destruct (first_free _) as [[i bit] | ]; [ | reflexivity ].
  now destruct (use_compression && _).
Qed.

Lemma emits_release (file : file_ptr) :
  respects em (PoolFS.release_file_handle file).
Proof.
  intros w. apply emits_same_system. rewrite release_run.
  destruct file as [ | i | | a]; try reflexivity.
  now destruct ((i =? 0) || (i =? 1)).
Qed.

Lemma emits_printf (format : string) (args : list Z) :
  P (Printf format args) -> respects em (PoolFS.lift (printf format args)).
Proof. intros HP w. now apply (emits_one _ _ (Printf format args)). Qed.

Lemma emits_time :
  (forall now, P (GetUnixTime now)) -> respects em (PoolFS.lift (GW_GetUnixTime E)).
Proof.
  intros HP w. now apply (emits_one _ _ (GetUnixTime (rtc (PoolFS.system w)))).
Qed.

Lemma emits_mount (c : lfs_config) :
  P (LfsMount c) -> respects em (PoolFS.lift (lfs_mount E c)).
Proof.
  intros HP w. apply (emits_one _ _ (LfsMount c)); [ exact HP | ].
  unfold PoolFS.lift, lfs_mount, bind, get, log, set_lfs, modify, ret. cbn.
  now destruct (mount_result E _ _).
Qed.

Lemma emits_format (c : lfs_config) :
  P (LfsFormat c) -> respects em (PoolFS.lift (lfs_format E c)).
Proof.
  intros HP w. apply (emits_one _ _ (LfsFormat c)); [ exact HP | ].
  unfold PoolFS.lift, lfs_format, bind, get, log, set_lfs, modify, ret. cbn.
  now destruct (format_result E _ _).
Qed.

Lemma emits_opencfg file path flags c a :
  P (LfsFileOpencfg file path flags c a) ->
  respects em (PoolFS.lift (lfs_file_opencfg E file path flags c a)).
Proof.
  intros HP w. apply (emits_one _ _ (LfsFileOpencfg file path flags c a));
    [ exact HP | ].
  unfold PoolFS.lift, lfs_file_opencfg, bind, get, log, set_lfs, modify, ret.
  cbn. now destruct (opencfg_result E _ _ _ _ _) as [[? ?] ?].
Qed.

Lemma emits_file_close file obj attributes :
  P (LfsFileClose file attributes) ->
  respects em (PoolFS.lift (lfs_file_close E file obj attributes)).
Proof.
  intros HP w. apply (emits_one _ _ (LfsFileClose file attributes));
    [ exact HP | ].
  unfold PoolFS.lift, lfs_file_close, bind, get, log, set_lfs, modify, ret.
  cbn. now destruct (close_result E _ _) as [[? ?] ?].
Qed.

Lemma emits_file_write file obj data size :
  P (LfsFileWrite file data size) ->
  respects em (PoolFS.lift (lfs_file_write E file obj data size)).
Proof.
  intros HP w. apply (emits_one _ _ (LfsFileWrite file data size));
    [ exact HP | ].
  unfold PoolFS.lift, lfs_file_write, bind, get, log, set_lfs, modify, ret.
  cbn. now destruct (write_result E _ _ _ _) as [[? ?] ?].
Qed.

Lemma emits_file_read file obj size :
  P (LfsFileRead file size) ->
  respects em (PoolFS.lift (lfs_file_read E file obj size)).
Proof.
  intros HP w. apply (emits_one _ _ (LfsFileRead file size)); [ exact HP | ].
  unfold PoolFS.lift, lfs_file_read, bind, get, log, set_lfs, modify, ret.
  cbn. now destruct (read_result E _ _ _) as [[[? ?] ?] ?].
Qed.

Lemma emits_file_seek file obj off whence :
  P (LfsFileSeek file off whence) ->
  respects em (PoolFS.lift (lfs_file_seek E file obj off whence)).
Proof.
  intros HP w. apply (emits_one _ _ (LfsFileSeek file off whence));
    [ exact HP | ].
  unfold PoolFS.lift, lfs_file_seek, bind, get, log, set_lfs, modify, ret.
  cbn. now destruct (seek_result E _ _ _ _) as [[? ?] ?].
Qed.
End Emits.

Lemma new_calls_app {lfs_t : Type} (s s' : sys lfs_t) (new : list sys_call) :
  trace s' = trace s ++ new -> new_calls s s' = new.
Proof. intros H. unfold new_calls. rewrite H. apply skipn_app_exact. Qed.

Lemma geometry_of_all (g : lfs_config) (cs : list sys_call) :
  Forall (geometry_is g) cs -> Forall (fun g' => g' = g) (geometry_of cs).
Proof.
  induction 1 as [ | c cs Hc _ IH ]; cbn; [ constructor | ].
  apply Forall_app. split; [ | exact IH ].
  destruct c; cbn in *; auto.
Qed.

(** ** Mounting *)

Section Mount.
Context {lfs_t lfs_file_t : Type}.
Variable E : externals lfs_t lfs_file_t.
Abbreviation W := (PoolFS.world lfs_t lfs_file_t).

(** The geometry with which the pooled [filesystem_init] started in [w]
    calls littlefs. *)
Lemma pool_init_calls (FILESYSTEM_START FILESYSTEM_END : Z) (w : W) :
  let g := set_block_count (PoolFS.cfg w)
             (u32 (Z.shiftr (PoolFS.filesystem_region_size
                              FILESYSTEM_START FILESYSTEM_END) 12)) in
  exists new,
    trace (PoolFS.system
             (snd (PoolFS.filesystem_init E FILESYSTEM_START FILESYSTEM_END w)))
    = trace (PoolFS.system w) ++ LfsMount g :: new
    /\ Forall (geometry_is g) new.
Proof.
  intros g.
  set (w1 := PoolFS.mk_world (PoolFS.file_handles w)
               (PoolFS.file_handles_used_bitmask w)
               (PoolFS.file_index_using_compression w) g (PoolFS.system w)).
  set (rest := fun rc : Z =>
    ((if negb (rc =? 0) then
        PoolFS.lift (printf "Filesystem formatting...\n" []) ;;
        rc <- PoolFS.lift (lfs_format E g) ;;
        assert (rc =? 0) "lfs_format(&lfs, &cfg) == 0" ;;
        rc <- PoolFS.lift (lfs_mount E g) ;;
        assert (rc =? 0) "lfs_mount(&lfs, &cfg) == 0"
      else ret tt) ;;
     PoolFS.lift (printf "Filesystem mounted.\n" []) ;;
     PoolFS.boot_counter E)%C).
  assert (Hrun : PoolFS.filesystem_init E FILESYSTEM_START FILESYSTEM_END w =
                 bind (PoolFS.lift (lfs_mount E g)) rest w1) by reflexivity.
  rewrite Hrun. clear Hrun.
  assert (Hrest : forall rc, respects (emits (geometry_is g)) (rest rc)).
  { intros rc. subst rest. cbv beta.
    pose proof (@emits_trans lfs_t lfs_file_t (geometry_is g)) as Ht.
    assert (Hboot : respects (emits (geometry_is g)) (PoolFS.boot_counter E)).
    { apply respects_boot_counter;
        first [ exact Ht
              | intros;
                first [ apply emits_refl | apply emits_store
                      | apply emits_acquire | apply emits_release
                      | apply emits_printf | apply emits_time
                      | apply emits_opencfg | apply emits_file_close
                      | apply emits_file_write | apply emits_file_read
                      | apply emits_file_seek ];
                try exact I; intros; exact I ]. }
    repeat respects_step;
      first [ exact Hboot
            | apply emits_printf; exact I
            | apply emits_format; reflexivity
            | apply emits_mount; reflexivity
            | apply respects_assert; apply emits_refl
            | apply respects_ret; apply emits_refl ]. }
  assert (Hm : exists rc w2,
             PoolFS.lift (lfs_mount E g) w1 = (Returns rc, w2)
             /\ trace (PoolFS.system w2)
                = trace (PoolFS.system w) ++ [LfsMount g]).
  { unfold PoolFS.lift, lfs_mount, bind, get, log, set_lfs, modify, ret. cbn.
    destruct (mount_result E _ _) as [rc l]. cbn. eauto. }
  destruct Hm as (rc & w2 & Hm & Ht2).
  unfold bind at 1. rewrite Hm.
  destruct (Hrest rc w2) as (new & Hnew & Hall).
  exists new. rewrite Hnew, Ht2, <- app_assoc. now split.
Qed.

Lemma core_init_calls (s : sys lfs_t) :
  exists new,
    trace (snd (CoreFS.filesystem_init E s))
    = trace s ++ LfsMount CoreFS.cfg :: new
    /\ Forall (geometry_is CoreFS.cfg) new.
Proof.
  unfold CoreFS.filesystem_init, lfs_mount, lfs_format, bind, get, log,
    set_lfs, modify, ret, assert. cbn.
  destruct (mount_result E (lfs s) CoreFS.cfg) as [rc l]. cbn.
  destruct (rc =? 0); cbn.
  - exists []. split; [ reflexivity | constructor ].
  - destruct (format_result E l CoreFS.cfg) as [rc' l']. cbn.
    destruct (rc' =? 0); cbn.
    + destruct (mount_result E l' CoreFS.cfg) as [rc'' l'']. cbn.
      exists [LfsFormat CoreFS.cfg; LfsMount CoreFS.cfg].
      rewrite <- !app_assoc.
      destruct (rc'' =? 0); cbn; (split; [ reflexivity | now repeat constructor ]).
    + exists [LfsFormat CoreFS.cfg]. rewrite <- !app_assoc.
      split; [ reflexivity | now repeat constructor ].
Qed.
End Mount.

(** ** Reading, writing and seeking, run on a whole array *)

Section FileIO.
Context {lfs_t lfs_file_t : Type}.
Variable E : externals lfs_t lfs_file_t.
Abbreviation W := (PoolFS.world lfs_t lfs_file_t).

Lemma write_run (file : file_ptr) (data : list Z) (size : Z) (w : W) :
  well_formed w ->
  PoolFS.filesystem_write E file data size w =
  io_outcome E "0 && tamp compression not yet implemented"
    (LfsFileWrite file data size)
    (fun l obj => write_result E l obj data size) file w.
Proof.
  destruct w as [hs mask owner c s]. unfold well_formed.
  cbn [PoolFS.file_handles].
  change (Z.to_nat PoolFS.MAX_OPEN_FILES) with 2%nat.
  intros Hlen.
  destruct hs as [ | h0 [ | h1 [ | ? ? ] ] ]; try discriminate Hlen.
  destruct s as [l now t].
  unfold PoolFS.filesystem_write, io_outcome.
  unfold bind at 1, get at 1. unfold bind at 1.
  rewrite using_compression_run.
  destruct file as [ | i | | a]; try reflexivity.
  2, 3 : cbn [PoolFS.system lfs]; do 2 run_c;
    match goal with
    | |- context [ write_result E ?l0 ?o ?d ?n ] =>
        destruct (write_result E l0 o d n) as [[rc0 l1] obj0]
    end; now run_c.
  cbn [PoolFS.file_index_using_compression PoolFS.file_handles PoolFS.system
       PoolFS.file_handles_used_bitmask PoolFS.cfg].
  destruct (Z.eqb_spec i 0) as [-> | H0].
  - cbn [orb andb]. destruct (0 =? owner); [ reflexivity | ].
    do 2 run_c.
    destruct (write_result E l (PoolFS.file h0) data size) as [[rc l'] obj].
    now run_c.
  - destruct (Z.eqb_spec i 1) as [-> | H1].
    + cbn [orb andb]. destruct (1 =? owner); [ reflexivity | ].
      do 2 run_c.
      destruct (write_result E l (PoolFS.file h1) data size) as [[rc l'] obj].
      now run_c.
    + cbn [orb andb]. do 2 run_c.
      now rewrite slot_index_outside by assumption.
Qed.

Lemma read_run (file : file_ptr) (size : Z) (w : W) :
  well_formed w ->
  PoolFS.filesystem_read E file size w =
  io_outcome E "0 && tamp compression not yet implemented"
    (LfsFileRead file size)
    (fun l obj => read_result E l obj size) file w.
Proof.
  destruct w as [hs mask owner c s]. unfold well_formed.
  cbn [PoolFS.file_handles].
  change (Z.to_nat PoolFS.MAX_OPEN_FILES) with 2%nat.
  intros Hlen.
  destruct hs as [ | h0 [ | h1 [ | ? ? ] ] ]; try discriminate Hlen.
  destruct s as [l now t].
  unfold PoolFS.filesystem_read, io_outcome.
  unfold bind at 1, get at 1. unfold bind at 1.
  rewrite using_compression_run.
  destruct file as [ | i | | a]; try reflexivity.
  2, 3 : cbn [PoolFS.system lfs]; do 2 run_c;
    match goal with
    | |- context [ read_result E ?l0 ?o ?n ] =>
        destruct (read_result E l0 o n) as [[[rc0 data0] l1] obj0]
    end; now run_c.
  cbn [PoolFS.file_index_using_compression PoolFS.file_handles PoolFS.system
       PoolFS.file_handles_used_bitmask PoolFS.cfg].
  destruct (Z.eqb_spec i 0) as [-> | H0].
  - cbn [orb andb]. destruct (0 =? owner); [ reflexivity | ].
    do 2 run_c.
    destruct (read_result E l (PoolFS.file h0) size) as [[[rc data] l'] obj].
    now run_c.
  - destruct (Z.eqb_spec i 1) as [-> | H1].
    + cbn [orb andb]. destruct (1 =? owner); [ reflexivity | ].
      do 2 run_c.
      destruct (read_result E l (PoolFS.file h1) size) as [[[rc data] l'] obj].
      now run_c.
    + cbn [orb andb]. do 2 run_c.
      now rewrite slot_index_outside by assumption.
Qed.

Lemma seek_run (file : file_ptr) (off whence : Z) (w : W) :
  well_formed w ->
  PoolFS.filesystem_seek E file off whence w =
  io_outcome E "file_is_using_compression(file) == false"
    (LfsFileSeek file off whence)
    (fun l obj => seek_result E l obj off whence) file w.
Proof.
  destruct w as [hs mask owner c s]. unfold well_formed.
  cbn [PoolFS.file_handles].
  change (Z.to_nat PoolFS.MAX_OPEN_FILES) with 2%nat.
  intros Hlen.
  destruct hs as [ | h0 [ | h1 [ | ? ? ] ] ]; try discriminate Hlen.
  destruct s as [l now t].
  unfold PoolFS.filesystem_seek, io_outcome.
  unfold bind at 1, get at 1. unfold bind at 1.
  rewrite using_compression_run.
  destruct file as [ | i | | a]; try reflexivity.
  2, 3 : cbn [PoolFS.system lfs]; do 2 run_c;
    match goal with
    | |- context [ seek_result E ?l0 ?o ?a ?b ] =>
        destruct (seek_result E l0 o a b) as [[rc0 l1] obj0]
    end; now run_c.
  cbn [PoolFS.file_index_using_compression PoolFS.file_handles PoolFS.system
       PoolFS.file_handles_used_bitmask PoolFS.cfg].
  destruct (Z.eqb_spec i 0) as [-> | H0].
  - cbn [orb andb]. destruct (0 =? owner); [ reflexivity | ].
    do 2 run_c.
    destruct (seek_result E l (PoolFS.file h0) off whence) as [[rc l'] obj].
    now run_c.
  - destruct (Z.eqb_spec i 1) as [-> | H1].
    + cbn [orb andb]. destruct (1 =? owner); [ reflexivity | ].
      do 2 run_c.
      destruct (seek_result E l (PoolFS.file h1) off whence) as [[rc l'] obj].
      now run_c.
    + cbn [orb andb]. do 2 run_c.
      now rewrite slot_index_outside by assumption.
Qed.
End FileIO.

(** ** States of a running program *)

Section Returning.
Context {S : Type}.
Variable P : S -> Prop.




End Returning.

Section Live.
Context {lfs_t lfs_file_t : Type}.
Variable E : externals lfs_t lfs_file_t.
Variables FILESYSTEM_START FILESYSTEM_END : Z.
Abbreviation W := (PoolFS.world lfs_t lfs_file_t).

(** The states of a running program are among the reachable ones. *)
Lemma live_is_reachable (w : W) :
  live E FILESYSTEM_START FILESYSTEM_END w ->
  reachable E FILESYSTEM_START FILESYSTEM_END w.
Proof.
  induction 1 as [ s | w now _ IH | w w' _ IH Hrun | w w' p wm uc f _ IH Hrun
                 | w w' f size r _ IH Hrun | w w' f data size rc _ IH Hrun
                 | w w' f _ IH Hrun | w w' f off whence rc _ IH Hrun ].
  - apply reach_start.
  - now apply reach_clock.
  - replace w' with (snd (PoolFS.filesystem_init E FILESYSTEM_START
                            FILESYSTEM_END w)) by now rewrite Hrun.
    now apply reach_init.
  - replace w' with (snd (PoolFS.filesystem_open E p wm uc w))
      by now rewrite Hrun.
    now apply reach_open.
  - replace w' with (snd (PoolFS.filesystem_read E f size w))
      by now rewrite Hrun.
    now apply reach_read.
  - replace w' with (snd (PoolFS.filesystem_write E f data size w))
      by now rewrite Hrun.
    now apply reach_write.
  - replace w' with (snd (PoolFS.filesystem_close E f w)) by now rewrite Hrun.
    now apply reach_close.
  - replace w' with (snd (PoolFS.filesystem_seek E f off whence w))
      by now rewrite Hrun.
    now apply reach_seek.
Qed.











End Live.

(** ** The handle pool and the compression slot *)

Lemma u8_land_lnot_1_bit0 (mask : Z) :
  Z.testbit (u8 (Z.land mask (Z.lnot 1))) 0 = false.
Proof.
  unfold u8. rewrite Z.mod_pow2_bits_low by lia.
  rewrite Z.land_spec, Z.lnot_spec by lia.
  change (Z.testbit 1 0) with true. cbn. apply andb_false_r.
Qed.

Lemma u8_land_lnot_1_high (mask j : Z) :
  1 <= j < 8 ->
  Z.testbit (u8 (Z.land mask (Z.lnot 1))) j = Z.testbit mask j.
Proof.
  intros Hj. unfold u8. rewrite Z.mod_pow2_bits_low by lia.
  rewrite Z.land_spec, Z.lnot_spec by lia.
  replace (Z.testbit 1 j) with false; [ cbn; apply andb_true_r | ].
  symmetry. change 1 with (2 ^ 0). rewrite Z.pow2_bits_eqb by lia.
  apply Z.eqb_neq. lia.
Qed.

(** The scan of [acquire_file_handle], taken alone: were it called for
    compression in a state with an owner and a free slot, it would return
    [NULL] after it has set the bit of that slot, and [filesystem_open]
    would return [NULL] with the bitmask grown by that bit. No running
    program is ever in such a state, as the theorem after this one shows. *)
Lemma busy_acquire_leaves_slot_marked
    (lfs_t lfs_file_t : Type) (E : externals lfs_t lfs_file_t)
    (w : PoolFS.world lfs_t lfs_file_t) (path : string)
    (write_mode : bool) :
  pool_invariant w ->
  0 <= PoolFS.file_index_using_compression w ->
  PoolFS.file_handles_used_bitmask w <> 3 ->
  let a := PoolFS.acquire_file_handle E true w in
  let r := PoolFS.filesystem_open E path write_mode true w in
  fst a = Returns None
  /\ fst r = Returns NULL
  /\ PoolFS.file_handles_used_bitmask (snd r)
     = PoolFS.file_handles_used_bitmask (snd a)
  /\ PoolFS.file_handles_used_bitmask w
     < PoolFS.file_handles_used_bitmask (snd r) <= 3
  /\ PoolFS.file_handles (snd r) = PoolFS.file_handles w
  /\ PoolFS.file_index_using_compression (snd r)
     = PoolFS.file_index_using_compression w
  /\ PoolFS.cfg (snd r) = PoolFS.cfg w.
Proof.
  intros (Hwf & Howner & Hmask) Hbusy Hfree a r.
  subst a r. rewrite acquire_run, open_run by exact Hwf. unfold open_result.
  destruct (first_free _) as [[i bit] | ] eqn:Hf.
  - destruct (first_free_some _ _ _ Hmask Hf) as (_ & _ & _ & Hlor).
    apply Z.leb_le in Hbusy. rewrite Hbusy. cbn.
    repeat split; auto; lia.
  - now apply first_free_none in Hf.
Qed.



(** C2 is not what the code does. Releasing the handle of slot 0 or of
    slot 1 returns, and in both cases clears bit 0 of the used bitmask and
    leaves every other bit as it was: the release of slot 1 frees slot 0
    and keeps slot 1 marked. The ownership part of the claim holds: the
    owner is cleared exactly when the released slot owns the compression
    slot. *)
Theorem release_clears_first_bit_only :
  forall (lfs_t lfs_file_t : Type) (w : PoolFS.world lfs_t lfs_file_t)
         (i : Z),
    i = 0 \/ i = 1 ->
    let r := PoolFS.release_file_handle (HandleFile i) w in
    fst r = Returns tt
    /\ slot_used (snd r) 0 = false
    /\ (forall j, 1 <= j < 8 -> slot_used (snd r) j = slot_used w j)
    /\ PoolFS.file_index_using_compression (snd r)
       = (if i =? PoolFS.file_index_using_compression w then -1
          else PoolFS.file_index_using_compression w).
Proof.
  intros lfs_t lfs_file_t w i Hi r. subst r. rewrite release_run.
  replace ((i =? 0) || (i =? 1)) with true
    by (destruct Hi as [-> | ->]; reflexivity).
  unfold slot_used. cbn.
  split; [ reflexivity | ].
  split; [ apply u8_land_lnot_1_bit0 | ].
  split; [ intros j Hj; now apply u8_land_lnot_1_high | reflexivity ].
Qed.

Lemma release_clears_first_bit_only_witness :
  let E := RamDisk.ram_disk 0 in
  let w0 := PoolFS.initial_world E (RamDisk.blank 1700000000) in
  let w2 := snd (PoolFS.acquire_file_handle E false
                   (snd (PoolFS.acquire_file_handle E false w0))) in
  let w3 := snd (PoolFS.release_file_handle (HandleFile 1) w2) in
  PoolFS.file_handles_used_bitmask w2 = 3
  /\ slot_used w3 0 = false
  /\ slot_used w3 1 = true.
Proof.
  intros E w0 w2 w3.
  pose proof (release_clears_first_bit_only _ _ w2 1 (or_intror eq_refl))
    as (_ & H0 & Hhigh & _).
  split; [ reflexivity | split; [ exact H0 | ] ].
  subst w3. rewrite (Hhigh 1) by lia. reflexivity.
Defined.

(** ** Opening and closing files *)

Section OpenClose.
Context {lfs_t lfs_file_t : Type}.
Variable E : externals lfs_t lfs_file_t.
Abbreviation W := (PoolFS.world lfs_t lfs_file_t).

Lemma acquire_gives_first_free (w : W) (i : Z) :
  fst (PoolFS.acquire_file_handle E false w) = Returns (Some i) ->
  exists bit, first_free (PoolFS.file_handles_used_bitmask w) = Some (i, bit).
Proof.
  rewrite acquire_run.
  destruct (first_free _) as [[i' bit] | ]; cbn; [ | discriminate ].
  intros [= <-]. now exists bit.
Qed.

Lemma first_free_index (mask i bit : Z) :
  first_free mask = Some (i, bit) -> i = 0 \/ i = 1.
Proof.
  unfold first_free.
  destruct (_ =? 0); [ intros [= <- <-]; auto | ].
  destruct (_ =? 0); [ intros [= <- <-]; auto | discriminate ].
Qed.

Lemma lookup_inserted_slot (w : W) (i : Z)
    (h : PoolFS.filesystem_file_handle_t lfs_file_t) :
  well_formed w -> i = 0 \/ i = 1 ->
  <[Z.to_nat i := h]> (PoolFS.file_handles w) !! Z.to_nat i = Some h.
Proof.
  unfold well_formed. change (Z.to_nat PoolFS.MAX_OPEN_FILES) with 2%nat.
  intros Hlen Hi. apply list_lookup_insert_eq.
  destruct Hi as [-> | ->]; cbn; lia.
Qed.

(** A successful open: which branch of the closed form was taken. *)
Lemma open_returns_handle (path : string) (write_mode use_compression : bool)
    (w : W) (file : file_ptr) :
  well_formed w ->
  fst (PoolFS.filesystem_open E path write_mode use_compression w)
    = Returns file ->
  file <> NULL ->
  exists i bit l obj,
    file = HandleFile i
    /\ use_compression = false
    /\ first_free (PoolFS.file_handles_used_bitmask w) = Some (i, bit)
    /\ u32 (rtc (PoolFS.system w)) <> 0
    /\ opencfg_result E (lfs (PoolFS.system w)) path (open_flags E write_mode)
         (slot_config i) [time_attr_at (u32 (rtc (PoolFS.system w)))]
       = (0, l, obj)
    /\ snd (PoolFS.filesystem_open E path write_mode use_compression w)
       = PoolFS.mk_world
           (<[Z.to_nat i :=
                opened_handle i obj]>
              (PoolFS.file_handles w))
           (Z.lor (PoolFS.file_handles_used_bitmask w) bit)
           (PoolFS.file_index_using_compression w) (PoolFS.cfg w)
           (mk_sys l (rtc (after_reading E (PoolFS.system w)))
              (trace (PoolFS.system w) ++
               [GetUnixTime (rtc (PoolFS.system w));
                LfsFileOpencfg (HandleFile i) path (open_flags E write_mode)
                  (slot_config i)
                  [time_attr_at (u32 (rtc (PoolFS.system w)))]])).
Proof.
  intros Hwf. rewrite open_run by exact Hwf. unfold open_result.
  destruct (first_free _) as [[i bit] | ] eqn:Hf; cbn [fst snd];
    [ | intros [= <-]; congruence ].
  destruct use_compression.
  { destruct (0 <=? _); cbn [fst]; [ intros [= <-]; congruence | discriminate ]. }
  destruct (Z.eqb_spec (u32 (rtc (PoolFS.system w))) 0) as [Hz | Hnz];
    cbn [fst]; [ discriminate | ].
  destruct (opencfg_result E _ _ _ _ _) as [[rc l] obj] eqn:Hopen.
  cbn [fst snd].
  destruct (Z.eqb_spec 0 rc) as [<- | Hrc]; [ | discriminate ].
  intros [= <-] _. exists i, bit, l, obj. repeat split; auto.
Qed.
End OpenClose.

(** C5 is not what the code does. A read-mode open that has obtained a
    handle and read a non-zero clock stops at the assertion around
    [lfs_file_opencfg] whenever littlefs answers a non-zero code, which is
    how it reports a missing path: the call does not return [NULL]. *)
Theorem open_of_missing_path_stops :
  forall (lfs_t lfs_file_t : Type) (E : externals lfs_t lfs_file_t)
         (w : PoolFS.world lfs_t lfs_file_t) (path : string) (i rc : Z)
         (l : lfs_t) (obj : lfs_file_t),
    well_formed w ->
    fst (PoolFS.acquire_file_handle E false w) = Returns (Some i) ->
    u32 (rtc (PoolFS.system w)) <> 0 ->
    opencfg_result E (lfs (PoolFS.system w)) path (LFS_O_RDONLY E)
      (slot_config i) [time_attr_at (u32 (rtc (PoolFS.system w)))] = (rc, l, obj) ->
    rc <> 0 ->
    fst (PoolFS.filesystem_open E path false false w) =
    AssertFails "0 == lfs_file_opencfg(&lfs, &fs_file_handle->file, path, flags, &fs_file_handle->config)".
Proof.
  intros lfs_t lfs_file_t E w path i rc l obj Hwf Hacq Hclock Hopen Hrc.
  destruct (acquire_gives_first_free E w i Hacq) as (bit & Hf).
  rewrite open_run by exact Hwf. unfold open_result. rewrite Hf.
  apply Z.eqb_neq in Hclock. rewrite Hclock.
  change (open_flags E false) with (LFS_O_RDONLY E). rewrite Hopen.
  cbn [fst]. destruct (Z.eqb_spec 0 rc); [ congruence | reflexivity ].
Qed.

Lemma open_of_missing_path_stops_witness :
  fst (PoolFS.filesystem_open (RamDisk.ram_disk 0) "boot_counter" false false
         (PoolFS.initial_world (RamDisk.ram_disk 0)
            (RamDisk.blank 1700000000))) =
  AssertFails "0 == lfs_file_opencfg(&lfs, &fs_file_handle->file, path, flags, &fs_file_handle->config)".
Proof.
  apply (open_of_missing_path_stops _ _ (RamDisk.ram_disk 0)
           (PoolFS.initial_world (RamDisk.ram_disk 0) (RamDisk.blank 1700000000))
           "boot_counter" 0 RamDisk.LFS_ERR_NOENT
           (RamDisk.mk_disk true []) "").
  - reflexivity.
  - reflexivity.
  - discriminate.
  - reflexivity.
  - discriminate.
Defined.

(** Every close that the standalone [filesystem_write] makes is handed the
    time attribute with the clock reading of the open behind it. *)
Lemma core_write_closes_with_time {lfs_t lfs_file_t : Type}
    (E : externals lfs_t lfs_file_t) (path : string) (data : list Z)
    (size : Z) (s : sys lfs_t) :
  exists new,
    trace (snd (CoreFS.filesystem_write E path data size s)) = trace s ++ new
    /\ Forall (closes_with [time_attr_at (u32 (rtc s))]) new.
Proof.
  unfold CoreFS.filesystem_write, bind, log, GW_GetUnixTime, lfs_file_opencfg,
    lfs_file_write, lfs_file_close, set_lfs, modify, get, ret, assert.
  cbn -[Z.eqb u32 CoreFS.attributes_of]. rewrite !core_attributes.
  destruct (u32 (rtc s) =? 0); cbn -[Z.eqb u32].
  { eexists. rewrite <- !app_assoc. split; [ reflexivity | ].
    repeat constructor. }
  destruct (opencfg_result E _ _ _ _ _) as [[rc1 l1] f1]. cbn -[Z.eqb u32].
  destruct (0 =? rc1); cbn -[Z.eqb u32].
  - destruct (write_result E _ _ _ _) as [[rc2 l2] f2]. cbn -[Z.eqb u32].
    destruct (size =? u32 rc2); cbn -[Z.eqb u32].
    + destruct (close_result E _ _) as [[rc3 l3] f3]. cbn -[Z.eqb u32].
      eexists. rewrite <- !app_assoc.
      split; [ now destruct (rc3 =? 0) | ].
      repeat constructor.
    + eexists. rewrite <- !app_assoc. split; [ reflexivity | ].
      repeat constructor.
  - eexists. rewrite <- !app_assoc. split; [ reflexivity | ].
    repeat constructor.
Qed.

(** The attributes that littlefs reaches through the configuration of an
    opened slot: the time attribute, with what is behind it. *)
Lemma attributes_of_opened_slot {lfs_t lfs_file_t : Type}
    (w : PoolFS.world lfs_t lfs_file_t) (i : Z) (obj : lfs_file_t)
    (current_time : option Z) :
  i = 0 \/ i = 1 ->
  PoolFS.file_handles w !! Z.to_nat i = Some (opened_handle i obj) ->
  PoolFS.attributes_of current_time (slot_config i) w
  = [(time_attr, current_time)].
Proof.
  intros Hi Hh. unfold PoolFS.attributes_of, slot_config.
  cbn [cfg_attrs cfg_attr_count].
  replace (PoolFS.slot_index i) with (Some (Z.to_nat i))
    by (now destruct Hi as [-> | ->]).
  rewrite Hh. reflexivity.
Qed.

(** C8 is not what the pooled code does. [filesystem_open] attaches one
    attribute to the file it opens, through the configuration of the slot:
    tag ['t'], size 4, buffer [&current_time]; during [lfs_file_opencfg]
    that buffer holds the non-zero clock reading of the open. The buffer is
    a local of [filesystem_open]: when the file is closed, where littlefs
    writes the attributes of a file, the attribute is the same and nothing
    is behind its buffer any more. The standalone write of
    [src/Core/Src/filesystem.c] opens and closes inside one function, and
    every close it makes finds the clock reading of the open behind the
    buffer. With a clock that reads zero, either open stops at its
    assertion. *)
Theorem time_attribute_outlives_its_value :
  forall (lfs_t lfs_file_t : Type) (E : externals lfs_t lfs_file_t),
    (forall (w : PoolFS.world lfs_t lfs_file_t) (path : string)
            (write_mode : bool) (i bit : Z) (l : lfs_t) (obj : lfs_file_t),
        let s := PoolFS.system w in
        let current_time := u32 (rtc s) in
        let opened := PoolFS.filesystem_open E path write_mode false w in
        let closed := PoolFS.filesystem_close E (HandleFile i) (snd opened) in
        well_formed w ->
        first_free (PoolFS.file_handles_used_bitmask w) = Some (i, bit) ->
        PoolFS.file_index_using_compression w <> i ->
        current_time <> 0 ->
        opencfg_result E (lfs s) path (open_flags E write_mode)
          (slot_config i) [time_attr_at current_time] = (0, l, obj) ->
        fst opened = Returns (HandleFile i)
        /\ (exists h,
              PoolFS.file_handles (snd opened) !! Z.to_nat i = Some h
              /\ PoolFS.config h
                 = mk_lfs_file_config (HandleBuffer i) (HandleAttrs i) 1
              /\ PoolFS.file_attrs h = [mk_lfs_attr char_t LocalCurrentTime 4])
        /\ new_calls s (PoolFS.system (snd opened))
           = [GetUnixTime (rtc s);
              LfsFileOpencfg (HandleFile i) path (open_flags E write_mode)
                (mk_lfs_file_config (HandleBuffer i) (HandleAttrs i) 1)
                [(mk_lfs_attr char_t LocalCurrentTime 4, Some current_time)]]
        /\ new_calls (PoolFS.system (snd opened)) (PoolFS.system (snd closed))
           = [LfsFileClose (HandleFile i)
                [(mk_lfs_attr char_t LocalCurrentTime 4, None)]])
    /\ (forall (w : PoolFS.world lfs_t lfs_file_t) (path : string)
               (write_mode : bool) (i : Z),
        well_formed w ->
        fst (PoolFS.acquire_file_handle E false w) = Returns (Some i) ->
        u32 (rtc (PoolFS.system w)) = 0 ->
        fst (PoolFS.filesystem_open E path write_mode false w)
        = AssertFails "current_time")
    /\ (forall (s : sys lfs_t) (path : string) (data : list Z) (size : Z),
        let r := CoreFS.filesystem_write E path data size s in
        (u32 (rtc s) = 0 -> fst r = AssertFails "current_time")
        /\ Forall (closes_with
                     [(mk_lfs_attr char_t LocalCurrentTime 4,
                       Some (u32 (rtc s)))])
                  (new_calls s (snd r))).
Proof.
  intros lfs_t lfs_file_t E. split; [ | split ].
  - intros w path write_mode i bit l obj s current_time opened closed
      Hwf Hf Howner Hclock Hopen.
    pose proof (first_free_index _ _ _ Hf) as Hi.
    assert (Hrun : opened =
              (Returns (HandleFile i),
               PoolFS.mk_world
                 (<[Z.to_nat i := opened_handle i obj]> (PoolFS.file_handles w))
                 (Z.lor (PoolFS.file_handles_used_bitmask w) bit)
                 (PoolFS.file_index_using_compression w) (PoolFS.cfg w)
                 (mk_sys l (rtc (after_reading E s))
                    (trace s ++
                     [GetUnixTime (rtc s);
                      LfsFileOpencfg (HandleFile i) path
                        (open_flags E write_mode) (slot_config i)
                        [time_attr_at current_time]])))).
    { subst opened. rewrite open_run by exact Hwf. unfold open_result.
      rewrite Hf. fold s. fold current_time.
      apply Z.eqb_neq in Hclock. rewrite Hclock, Hopen. reflexivity. }
    assert (Hslot : PoolFS.file_handles (snd opened) !! Z.to_nat i
                    = Some (opened_handle i obj)).
    { rewrite Hrun. cbn [snd PoolFS.file_handles].
      now apply lookup_inserted_slot. }
    assert (Hwf1 : well_formed (snd opened)).
    { rewrite Hrun. unfold well_formed in *. cbn [snd PoolFS.file_handles].
      now rewrite length_insert. }
    split; [ now rewrite Hrun | ].
    split; [ exists (opened_handle i obj); now repeat split | ].
    split; [ apply new_calls_app; now rewrite Hrun | ].
    apply new_calls_app. subst closed.
    rewrite close_run by exact Hwf1. unfold close_outcome.
    replace ((i =? 0) || (i =? 1)) with true by now destruct Hi as [-> | ->].
    replace (PoolFS.file_index_using_compression (snd opened))
      with (PoolFS.file_index_using_compression w) by now rewrite Hrun.
    destruct (Z.eqb_spec i (PoolFS.file_index_using_compression w));
      [ congruence | ].
    rewrite Hslot. cbn [PoolFS.config opened_handle].
    rewrite (attributes_of_opened_slot _ i obj None Hi Hslot).
    destruct (close_result E _ _) as [[rc l'] obj'].
    now destruct (0 <=? rc).
  - intros w path write_mode i Hwf Hacq Hz.
    destruct (acquire_gives_first_free E w i Hacq) as (bit & Hf).
    rewrite open_run by exact Hwf. unfold open_result. rewrite Hf, Hz.
    reflexivity.
  - intros s path data size r. subst r. split.
    + intros Hz. now rewrite core_write_clock_zero by exact Hz.
    + destruct (core_write_closes_with_time E path data size s)
        as (new & Ht & Hall).
      now rewrite (new_calls_app _ _ _ Ht).
Qed.

Lemma time_attribute_outlives_its_value_witness :
  let E := RamDisk.ram_disk 0 in
  let w := PoolFS.initial_world E (RamDisk.blank 1700000000) in
  let opened := PoolFS.filesystem_open E "save" true false w in
  let closed := PoolFS.filesystem_close E (HandleFile 0) (snd opened) in
  fst opened = Returns (HandleFile 0)
  /\ (exists h,
        PoolFS.file_handles (snd opened) !! Z.to_nat 0 = Some h
        /\ PoolFS.config h
           = mk_lfs_file_config (HandleBuffer 0) (HandleAttrs 0) 1
        /\ PoolFS.file_attrs h = [mk_lfs_attr char_t LocalCurrentTime 4])
  /\ new_calls (PoolFS.system w) (PoolFS.system (snd opened))
     = [GetUnixTime 1700000000;
        LfsFileOpencfg (HandleFile 0) "save" (open_flags E true)
          (mk_lfs_file_config (HandleBuffer 0) (HandleAttrs 0) 1)
          [(mk_lfs_attr char_t LocalCurrentTime 4, Some (u32 1700000000))]]
  /\ new_calls (PoolFS.system (snd opened)) (PoolFS.system (snd closed))
     = [LfsFileClose (HandleFile 0)
          [(mk_lfs_attr char_t LocalCurrentTime 4, None)]].
Proof.
  intros E w.
  apply (proj1 (time_attribute_outlives_its_value _ _ E) w "save" true 0 1
           (RamDisk.mk_disk true [("save", [])]) "save").
  - reflexivity.
  - reflexivity.
  - discriminate.
  - discriminate.
  - reflexivity.
Defined.



(** ** Capacity of the pool *)

(** C3 is not what the code does. A client opens two files, closes both
    handles, the one of slot 1 first, and opens two files again. No more
    than two handles are ever open, yet the last open returns [NULL]: the
    release of slot 1 cleared the bit of slot 0, so the bit of slot 1 is
    still set when nothing is open. *)
Theorem open_fails_below_capacity :
  let E := RamDisk.ram_disk 0 in
  let w0 := PoolFS.initial_world E (RamDisk.blank 1700000000) in
  let run := run_client E
               [Open "a" true false; Open "b" true false; Close 1; Close 0;
                Open "c" true false; Open "d" true false] [] w0 in
  fst (fst run)
  = [Opened (HandleFile 0); Opened (HandleFile 1);
     Closed (HandleFile 1); Closed (HandleFile 0);
     Opened (HandleFile 0); OpenFailed]
  /\ snd (fst run) = [HandleFile 0]
  /\ PoolFS.file_handles_used_bitmask (snd run) = 3.
Proof. repeat split. Qed.

(** With both bits set, every open returns [NULL]. *)
Lemma full_pool_open_fails {lfs_t lfs_file_t : Type}
    (E : externals lfs_t lfs_file_t) (w : PoolFS.world lfs_t lfs_file_t)
    (path : string) (write_mode use_compression : bool) :
  well_formed w ->
  PoolFS.file_handles_used_bitmask w = 3 ->
  fst (PoolFS.filesystem_open E path write_mode use_compression w)
  = Returns NULL.
Proof.
  intros Hwf Hfull. rewrite open_run by exact Hwf.
  unfold open_result. now rewrite Hfull.
Qed.

(** *** A client never holds more handles than slots are marked *)

Section Client.
Context {lfs_t lfs_file_t : Type}.
Variable E : externals lfs_t lfs_file_t.
Abbreviation W := (PoolFS.world lfs_t lfs_file_t).

Lemma used_slots_full (w : W) :
  pool_invariant w -> 2 <= used_slots w ->
  PoolFS.file_handles_used_bitmask w = 3.
Proof.
  intros (_ & _ & Hmask). unfold used_slots, slot_used.
  destruct (small_mask_cases _ Hmask) as [-> | [-> | [-> | ->]]];
    cbn; intros; lia.
Qed.

Lemma used_slots_after_acquire (mask i bit : Z) :
  0 <= mask <= 3 -> first_free mask = Some (i, bit) ->
  Z.b2z (Z.testbit (Z.lor mask bit) 0) + Z.b2z (Z.testbit (Z.lor mask bit) 1)
  = Z.b2z (Z.testbit mask 0) + Z.b2z (Z.testbit mask 1) + 1.
Proof.
  intros H Hf.
  destruct (small_mask_cases _ H) as [-> | [-> | [-> | ->]]];
    vm_compute in Hf; try discriminate Hf; injection Hf as <- <-; reflexivity.
Qed.

Lemma used_slots_after_release (mask : Z) :
  0 <= mask <= 3 ->
  Z.b2z (Z.testbit mask 0) + Z.b2z (Z.testbit mask 1) - 1
  <= Z.b2z (Z.testbit (u8 (Z.land mask (Z.lnot 1))) 0)
     + Z.b2z (Z.testbit (u8 (Z.land mask (Z.lnot 1))) 1).
Proof.
  intros H.
  destruct (small_mask_cases _ H) as [-> | [-> | [-> | ->]]];
    vm_compute; discriminate.
Qed.

(** An open never unmarks a slot, and marks one more when it succeeds. *)
Lemma open_marks_a_slot (path : string) (write_mode use_compression : bool)
    (w : W) :
  pool_invariant w ->
  let r := PoolFS.filesystem_open E path write_mode use_compression w in
  used_slots w <= used_slots (snd r)
  /\ (forall file, fst r = Returns file -> file <> NULL ->
      used_slots (snd r) = used_slots w + 1).
Proof.
  intros (Hwf & Howner & Hmask) r. subst r.
  rewrite open_run by exact Hwf. unfold open_result, used_slots, slot_used.
  destruct (first_free _) as [[i bit] | ] eqn:Hf; cbn [fst snd].
  - pose proof (used_slots_after_acquire _ _ _ Hmask Hf) as Hup.
    destruct use_compression.
    + destruct (0 <=? _); cbn [fst snd PoolFS.file_handles_used_bitmask];
        (split; [ lia | ]); intros file; [ intros [= <-] | intros [=] ];
        congruence.
    + destruct (_ =? 0); cbn [fst snd PoolFS.file_handles_used_bitmask].
      * split; [ lia | discriminate ].
      * destruct (opencfg_result E _ _ _ _ _) as [[rc l] obj].
        cbn [fst snd PoolFS.file_handles_used_bitmask].
        split; [ lia | ]. intros; lia.
  - cbn [fst snd PoolFS.file_handles_used_bitmask].
    split; [ lia | ]. intros file [= <-]. congruence.
Qed.

(** A close unmarks at most one slot, and none when it does not return. *)
Lemma close_unmarks_at_most_one (file : file_ptr) (w : W) :
  pool_invariant w ->
  let r := PoolFS.filesystem_close E file w in
  used_slots w - 1 <= used_slots (snd r)
  /\ (fst r <> Returns tt -> used_slots (snd r) = used_slots w).
Proof.
  intros (Hwf & Howner & Hmask) r. subst r.
  rewrite close_run by exact Hwf. unfold close_outcome, used_slots, slot_used.
  pose proof (used_slots_after_release _ Hmask) as Hdown.
  destruct file as [ | i | | a]; cbn [fst snd];
    try (split; [ lia | reflexivity ]);
    try (destruct (close_result E _ _) as [[rc l] obj];
         cbn [fst snd PoolFS.file_handles_used_bitmask];
         split; [ lia | reflexivity ]).
  destruct ((i =? 0) || (i =? 1)); cbn [fst snd];
    [ | split; [ lia | reflexivity ] ].
  destruct (i =? _); cbn [fst snd]; [ split; [ lia | reflexivity ] | ].
  destruct (_ !! _) as [h | ]; cbn [fst snd];
    [ | split; [ lia | reflexivity ] ].
  destruct (close_result E _ _) as [[rc l] obj].
  destruct (0 <=? rc); cbn [fst snd PoolFS.file_handles_used_bitmask].
  - split; [ lia | congruence ].
  - split; [ lia | reflexivity ].
Qed.

Lemma run_client_holds_at_most_used (calls : list api_call) :
  forall (held : list file_ptr) (w : W),
    pool_invariant w ->
    Z.of_nat (length held) <= used_slots w ->
    let run := run_client E calls held w in
    pool_invariant (snd run)
    /\ Z.of_nat (length (snd (fst run))) <= used_slots (snd run).
Proof.
  induction calls as [ | [path write_mode use_compression | k] calls IH ];
    intros held w Hinv Hheld; cbn [run_client].
  - now split.
  - pose proof (keeps_open E path write_mode use_compression w Hinv) as Hinv'.
    destruct (open_marks_a_slot path write_mode use_compression w Hinv)
      as (Hmono & Hsucc).
    destruct (PoolFS.filesystem_open E path write_mode use_compression w)
      as [[file | e | u] w'] eqn:Hopen; cbn [fst snd] in *;
      try (split; [ assumption | lia ]).
    destruct file as [ | i | | a].
    + specialize (IH held w' Hinv' ltac:(lia)).
      destruct (run_client E calls held w') as [[rs held'] w''].
      exact IH.
    + specialize (Hsucc (HandleFile i) eq_refl ltac:(discriminate)).
      specialize (IH (held ++ [HandleFile i]) w' Hinv').
      rewrite length_app in IH. cbn [length] in IH.
      specialize (IH ltac:(lia)).
      destruct (run_client E calls (held ++ [HandleFile i]) w')
        as [[rs held'] w''].
      exact IH.
    + specialize (Hsucc LocalFile eq_refl ltac:(discriminate)).
      specialize (IH (held ++ [LocalFile]) w' Hinv').
      rewrite length_app in IH. cbn [length] in IH.
      specialize (IH ltac:(lia)).
      destruct (run_client E calls (held ++ [LocalFile]) w')
        as [[rs held'] w''].
      exact IH.
    + specialize (Hsucc (Foreign a) eq_refl ltac:(discriminate)).
      specialize (IH (held ++ [Foreign a]) w' Hinv').
      rewrite length_app in IH. cbn [length] in IH.
      specialize (IH ltac:(lia)).
      destruct (run_client E calls (held ++ [Foreign a]) w')
        as [[rs held'] w''].
      exact IH.
  - destruct (held !! k) as [file | ] eqn:Hk; [ | now split ].
    pose proof (keeps_close E file w Hinv) as Hinv'.
    destruct (close_unmarks_at_most_one file w Hinv) as (Hdown & Hstop).
    destruct (PoolFS.filesystem_close E file w) as [[[] | e | u] w'];
      cbn [fst snd] in *;
      try (split; [ assumption | rewrite Hstop by discriminate; lia ]).
    apply lookup_lt_Some in Hk.
    specialize (IH (delete k held) w' Hinv').
    rewrite length_delete in IH by eauto using lookup_lt_is_Some_2.
    specialize (IH ltac:(lia)).
    destruct (run_client E calls (delete k held) w') as [[rs held'] w''].
    exact IH.
Qed.

(** Whatever a client has done since start-up, when it holds two handles
    the next open returns [NULL]. *)
Lemma third_open_fails (calls : list api_call) (s : sys lfs_t)
    (path : string) (write_mode use_compression : bool) :
  let run := run_client E calls [] (PoolFS.initial_world E s) in
  length (snd (fst run)) = 2%nat ->
  fst (PoolFS.filesystem_open E path write_mode use_compression (snd run))
  = Returns NULL.
Proof.
  intros run Htwo.
  destruct (run_client_holds_at_most_used calls [] (PoolFS.initial_world E s)
              (initial_world_invariant E s))
    as (Hinv & Hheld).
  { cbn. unfold used_slots, slot_used. cbn. lia. }
  fold run in Hinv, Hheld. rewrite Htwo in Hheld.
  apply full_pool_open_fails; [ apply Hinv | ].
  apply used_slots_full; [ exact Hinv | lia ].
Qed.
End Client.

(** ** Geometry at mount time *)

(** C6, as stated, fails in [src/Core/Src/filesystem.c]: for a reserved
    region of 2 MiB the claim asks for 512 blocks, and the file system is
    mounted with the 256 blocks written in the static configuration. *)
Lemma core_block_count_is_fixed :
  core_init_geometry (RamDisk.ram_disk 0) (RamDisk.blank 1700000000)
  = [CoreFS.cfg]
  /\ block_count CoreFS.cfg = 256
  /\ ~ mounts_with_region_blocks
         (fun _ _ => core_init_geometry (RamDisk.ram_disk 0)
                       (RamDisk.blank 1700000000)).
Proof.
  split; [ reflexivity | split; [ reflexivity | ] ].
  intros H.
  destruct (H 0x90100000 0x90300000 ltac:(lia)) as [_ Hall].
  change (core_init_geometry (RamDisk.ram_disk 0) (RamDisk.blank 1700000000))
    with [CoreFS.cfg] in Hall.
  apply Forall_cons_iff in Hall as [Hcount _].
  discriminate Hcount.
Qed.

(** The block count that the pooled [filesystem_init] computes for a
    region of less than 2^31 bytes, the range of the signed 32-bit address
    difference. *)
Lemma region_block_count (START END : Z) :
  0 <= END - START < 2 ^ 31 ->
  u32 (Z.shiftr (PoolFS.filesystem_region_size START END) 12)
  = (END - START) / 4096.
Proof.
  intros H. unfold PoolFS.filesystem_region_size, s32.
  rewrite (Z.mod_small (END - START + 2 ^ 31)) by lia.
  replace (END - START + 2 ^ 31 - 2 ^ 31) with (END - START) by lia.
  rewrite Z.shiftr_div_pow2 by lia. change (2 ^ 12) with 4096.
  unfold u32. apply Z.mod_small.
  split; [ apply Z.div_pos; lia | ].
  apply Z.div_lt_upper_bound; lia.
Qed.

(** From 2^31 bytes on the signed difference is negative and the block
    count is not the size divided by 4096. *)
Lemma region_block_count_of_a_large_region :
  u32 (Z.shiftr (PoolFS.filesystem_region_size 0x10000000 0xA0000000) 12)
  = 4294508544
  /\ (0xA0000000 - 0x10000000) / 4096 = 589824.
Proof. split; reflexivity. Qed.

(** C6, amended. The pooled variant computes the block count at
    initialisation: for a reserved region of less than 2^31 bytes, every
    geometry it hands to [lfs_mount] and [lfs_format] (there is at least
    one) has the difference of the two region addresses divided by 4096 as
    its block count. The variant of
    [src/Core/Src/filesystem.c] mounts and formats with its static
    configuration, whose block count is the constant 256, the 2^20 bytes of
    [filesystem_partition] divided by 4096. *)
Theorem block_count_by_variant :
  forall (lfs_t lfs_file_t : Type) (E : externals lfs_t lfs_file_t)
         (w : PoolFS.world lfs_t lfs_file_t) (s : sys lfs_t),
    mounts_with_region_blocks (pool_init_geometry E w)
    /\ core_init_geometry E s <> []
    /\ Forall (fun g => g = CoreFS.cfg) (core_init_geometry E s)
    /\ block_count CoreFS.cfg = 256
    /\ block_count CoreFS.cfg = 2 ^ 20 / 4096.
Proof.
  intros lfs_t lfs_file_t E w s. split; [ | split; [ | split ] ].
  - intros START END Hsize.
    unfold pool_init_geometry.
    destruct (pool_init_calls E START END w) as (new & Ht & Hall).
    erewrite new_calls_app by exact Ht.
    split; [ discriminate | ].
    pose proof (region_block_count START END Hsize) as Hcount.
    apply geometry_of_all with
      (g := set_block_count (PoolFS.cfg w)
              (u32 (Z.shiftr (PoolFS.filesystem_region_size START END) 12)))
      in Hall as Hall'.
    cbn [geometry_of flat_map app].
    change (Forall (fun g => block_count g = (END - START) / 4096)
              (set_block_count (PoolFS.cfg w)
                 (u32 (Z.shiftr (PoolFS.filesystem_region_size START END) 12))
               :: geometry_of new)).
    constructor; [ exact Hcount | ].
    eapply Forall_impl; [ exact Hall' | ].
    intros g ->. exact Hcount.
  - unfold core_init_geometry.
    destruct (core_init_calls E s) as (new & Ht & _).
    erewrite new_calls_app by exact Ht. discriminate.
  - unfold core_init_geometry.
    destruct (core_init_calls E s) as (new & Ht & Hall).
    erewrite new_calls_app by exact Ht.
    cbn [geometry_of flat_map app]. constructor; [ reflexivity | ].
    now apply geometry_of_all.
  - split; reflexivity.
Qed.

Lemma block_count_by_variant_witness :
  Forall (fun g => block_count g = 256)
    (pool_init_geometry (RamDisk.ram_disk 0)
       (PoolFS.initial_world (RamDisk.ram_disk 0) (RamDisk.blank 1700000000))
       0x90100000 0x90200000).
Proof.
  apply (proj1 (block_count_by_variant _ _ (RamDisk.ram_disk 0)
                  (PoolFS.initial_world (RamDisk.ram_disk 0)
                     (RamDisk.blank 1700000000))
                  (RamDisk.blank 1700000000))
           0x90100000 0x90200000); lia.
Defined.

(** * Further properties of the code *)

(** ** Reading through the memory map *)

Lemma pool_read_run (partition : list Z) (c : lfs_config)
    (block off size : Z) (t : hw) :
  u32 (block * block_size c) + off + size <= Z.of_nat (length partition) ->
  PoolFS.littlefs_api_read partition c block off size t =
  (Returns (0, firstn (Z.to_nat size)
                 (skipn (Z.to_nat (u32 (block * block_size c) + off))
                        partition)), t).
Proof.
  intros Hin. unfold PoolFS.littlefs_api_read.
  apply Z.leb_le in Hin. now rewrite Hin.
Qed.

Lemma core_read_is_pool_read (partition : list Z) (c : lfs_config)
    (block off size : Z) (t : hw) :
  CoreFS.littlefs_api_read partition c block off size t =
  PoolFS.littlefs_api_read partition c block off size t.
Proof. reflexivity. Qed.

Lemma u32_nonneg (z : Z) : 0 <= u32 z.
Proof. unfold u32. apply Z.mod_pos_bound. lia. Qed.

(** X1. A read that lies inside [filesystem_partition] returns 0 and
    exactly [size] bytes, byte [k] of the result being byte
    [block * block_size + off + k] of the partition, and makes no driver
    call; the two variants of the callback agree. *)
Theorem read_copies_the_mapped_bytes :
  forall (partition : list Z) (c : lfs_config) (block off size : Z) (t : hw),
    0 <= off -> 0 <= size ->
    u32 (block * block_size c) + off + size <= Z.of_nat (length partition) ->
    exists data,
      PoolFS.littlefs_api_read partition c block off size t
        = (Returns (0, data), t)
      /\ CoreFS.littlefs_api_read partition c block off size t
        = (Returns (0, data), t)
      /\ Z.of_nat (length data) = size
      /\ forall k : nat,
           Z.of_nat k < size ->
           data !! k
           = partition !! (Z.to_nat (u32 (block * block_size c) + off) + k)%nat.
Proof.
  intros partition c block off size t Hoff Hsize Hin.
  pose proof (u32_nonneg (block * block_size c)) as Hb.
  eexists. split; [ apply pool_read_run; exact Hin | ].
  split; [ rewrite core_read_is_pool_read; apply pool_read_run; exact Hin | ].
  split.
  - rewrite length_take, length_drop. lia.
  - intros k Hk. rewrite lookup_take_lt by lia. now rewrite lookup_drop.
Qed.

Lemma read_copies_the_mapped_bytes_witness :
  exists data,
    PoolFS.littlefs_api_read [10; 11; 12; 13; 14; 15; 16; 17]
      PoolFS.cfg_initializer 0 2 3 [] = (Returns (0, data), [])
    /\ CoreFS.littlefs_api_read [10; 11; 12; 13; 14; 15; 16; 17]
      PoolFS.cfg_initializer 0 2 3 [] = (Returns (0, data), [])
    /\ Z.of_nat (length data) = 3
    /\ forall k : nat,
         Z.of_nat k < 3 ->
         data !! k = [10; 11; 12; 13; 14; 15; 16; 17] !! (2 + k)%nat.
Proof.
  apply (read_copies_the_mapped_bytes [10; 11; 12; 13; 14; 15; 16; 17]
           PoolFS.cfg_initializer 0 2 3 []).
  - lia.
  - lia.
  - vm_compute. discriminate.
Defined.

(** X2. Reads compose: inside the partition, reading [a + b] bytes at
    [off] gives the bytes of reading [a] bytes at [off] followed by those
    of reading [b] bytes at [off + a]. *)
Theorem read_splits :
  forall (partition : list Z) (c : lfs_config) (block off a b : Z) (t : hw),
    0 <= off -> 0 <= a -> 0 <= b ->
    u32 (block * block_size c) + off + (a + b)
      <= Z.of_nat (length partition) ->
    exists first second,
      PoolFS.littlefs_api_read partition c block off a t
        = (Returns (0, first), t)
      /\ PoolFS.littlefs_api_read partition c block (off + a) b t
        = (Returns (0, second), t)
      /\ PoolFS.littlefs_api_read partition c block off (a + b) t
        = (Returns (0, first ++ second), t).
Proof.
  intros partition c block off a b t Hoff Ha Hb Hin.
  pose proof (u32_nonneg (block * block_size c)) as Hblock.
  do 2 eexists.
  split; [ apply pool_read_run; lia | ].
  split; [ apply pool_read_run; lia | ].
  rewrite pool_read_run by lia.
  set (start := u32 (block * block_size c)) in *.
  replace (Z.to_nat (start + (off + a)))
    with (Z.to_nat (start + off) + Z.to_nat a)%nat by lia.
  rewrite Z2Nat.inj_add by lia.
  rewrite <- drop_drop. now rewrite take_take_drop.
Qed.

Lemma read_splits_witness :
  exists first second,
    PoolFS.littlefs_api_read [10; 11; 12; 13; 14; 15; 16; 17]
      PoolFS.cfg_initializer 0 1 2 [] = (Returns (0, first), [])
    /\ PoolFS.littlefs_api_read [10; 11; 12; 13; 14; 15; 16; 17]
      PoolFS.cfg_initializer 0 (1 + 2) 3 [] = (Returns (0, second), [])
    /\ PoolFS.littlefs_api_read [10; 11; 12; 13; 14; 15; 16; 17]
      PoolFS.cfg_initializer 0 1 (2 + 3) [] = (Returns (0, first ++ second), []).
Proof.
  apply (read_splits [10; 11; 12; 13; 14; 15; 16; 17]
           PoolFS.cfg_initializer 0 1 2 3 []).
  - lia.
  - lia.
  - lia.
  - vm_compute. discriminate.
Defined.

(** X3. Blocks are laid out back to back: as long as the block address
    does not wrap, offset [off] of block [block + 1] is offset
    [off + block_size] of block [block], so both reads return the same
    bytes. *)
Theorem read_across_block_boundary :
  forall (partition : list Z) (c : lfs_config) (block off size : Z) (t : hw),
    0 <= block -> 0 <= block_size c ->
    (block + 1) * block_size c < 2 ^ 32 ->
    PoolFS.littlefs_api_read partition c (block + 1) off size t
    = PoolFS.littlefs_api_read partition c block (off + block_size c) size t.
Proof.
  intros partition c block off size t Hblock Hbs Hfit.
  unfold PoolFS.littlefs_api_read.
  assert (H1 : u32 ((block + 1) * block_size c) = (block + 1) * block_size c)
    by (apply Z.mod_small; nia).
  assert (H0 : u32 (block * block_size c) = block * block_size c)
    by (apply Z.mod_small; nia).
  rewrite H1, H0.
  replace (block * block_size c + (off + block_size c))
    with ((block + 1) * block_size c + off) by lia.
  reflexivity.
Qed.

Lemma read_across_block_boundary_witness :
  PoolFS.littlefs_api_read [10; 11; 12; 13; 14; 15; 16; 17]
    (mk_lfs_config 1 1 4 2 500 1 1) (0 + 1) 1 2 []
  = PoolFS.littlefs_api_read [10; 11; 12; 13; 14; 15; 16; 17]
      (mk_lfs_config 1 1 4 2 500 1 1) 0 (1 + 4) 2 [].
Proof.
  apply (read_across_block_boundary [10; 11; 12; 13; 14; 15; 16; 17]
           (mk_lfs_config 1 1 4 2 500 1 1) 0 1 2 []).
  - lia.
  - cbn. lia.
  - reflexivity.
Defined.

(** ** Alignment and range of flash commands *)

Lemma u32_mod_divisor (z d : Z) :
  0 < d -> (d | 2 ^ 32) -> u32 z mod d = z mod d.
Proof.
  intros Hd Hdiv. unfold u32. now apply Z.mod_mod_divide.
Qed.

Lemma divides_sum_of_multiples (d po block bs off : Z) :
  0 < d -> po mod d = 0 -> bs mod d = 0 -> off mod d = 0 ->
  (po + block * bs + off) mod d = 0.
Proof.
  intros Hd Hpo Hbs Hoff.
  apply Z.mod_divide in Hpo; [ | lia ].
  apply Z.mod_divide in Hbs; [ | lia ].
  apply Z.mod_divide in Hoff; [ | lia ].
  apply Z.mod_divide; [ lia | ].
  apply Z.divide_add_r; [ apply Z.divide_add_r | ]; auto.
  now apply Z.divide_mul_r.
Qed.

(** X4. With the partition placed on a 4096-byte boundary (as its
    [aligned(4096)] attribute asks) and a block size that is a multiple of
    4096, the alignment assertion of the pooled erase holds for every
    block number: the erase always goes through, inside its bracket. *)
Theorem erase_assertion_holds_for_aligned_partition :
  forall (partition_offset : Z) (c : lfs_config) (block : Z) (t : hw),
    partition_offset mod 4096 = 0 ->
    block_size c mod 4096 = 0 ->
    PoolFS.littlefs_api_erase partition_offset c block t
    = (Returns 0,
       t ++ bracketed
              (OSPI_EraseSync (PoolFS.erase_address partition_offset c block)
                              (block_size c))).
Proof.
  intros po c block t Hpo Hbs. rewrite pool_erase_run.
  replace (PoolFS.erase_address po c block mod 4096) with 0; [ reflexivity | ].
  symmetry. unfold PoolFS.erase_address.
  rewrite u32_mod_divisor by (try lia; now exists (2 ^ 20)).
  replace (po + block * block_size c) with (po + block * block_size c + 0)
    by lia.
  now apply divides_sum_of_multiples.
Qed.

Lemma erase_assertion_holds_for_aligned_partition_witness :
  PoolFS.littlefs_api_erase 0x100000 PoolFS.cfg_initializer 255 []
  = (Returns 0, bracketed (OSPI_EraseSync 0x1FF000 4096)).
Proof.
  apply (erase_assertion_holds_for_aligned_partition
           0x100000 PoolFS.cfg_initializer 255 []); reflexivity.
Defined.

(** X5. Likewise for programming: with the partition and the block size
    on multiples of 256, every program request at an offset that is a
    multiple of 256 (the program size of the configuration) passes the
    assertion and is issued inside its bracket. *)
Theorem prog_assertion_holds_for_aligned_requests :
  forall (partition_offset : Z) (c : lfs_config) (block off : Z)
         (buffer : list Z) (size : Z) (t : hw),
    partition_offset mod 256 = 0 ->
    block_size c mod 256 = 0 ->
    off mod 256 = 0 ->
    PoolFS.littlefs_api_prog partition_offset c block off buffer size t
    = (Returns 0,
       t ++ bracketed
              (OSPI_Program (PoolFS.prog_address partition_offset c block off)
                            buffer size)).
Proof.
  intros po c block off buffer size t Hpo Hbs Hoff. rewrite pool_prog_run.
  replace (PoolFS.prog_address po c block off mod 256) with 0;
    [ reflexivity | ].
  symmetry. unfold PoolFS.prog_address.
  rewrite u32_mod_divisor by (try lia; now exists (2 ^ 24)).
  now apply divides_sum_of_multiples.
Qed.

Lemma prog_assertion_holds_for_aligned_requests_witness :
  PoolFS.littlefs_api_prog 0x100000 PoolFS.cfg_initializer 3 0x300 [1; 2] 2 []
  = (Returns 0, bracketed (OSPI_Program 0x103300 [1; 2] 2)).
Proof.
  apply (prog_assertion_holds_for_aligned_requests
           0x100000 PoolFS.cfg_initializer 3 0x300 [1; 2] 2 []); reflexivity.
Defined.

(** X6. For a partition of [n] blocks that ends inside the 32-bit address
    space, the erase of a block in range wraps nowhere: the address is the
    partition offset plus the block offset, the erased range lies inside
    the partition, and the ranges of two different blocks do not overlap. *)
Theorem erase_stays_inside_the_partition :
  forall (partition_offset : Z) (c : lfs_config) (n block other : Z),
    0 <= partition_offset -> 0 < block_size c ->
    partition_offset + n * block_size c <= 2 ^ 32 ->
    0 <= block < n -> 0 <= other < n -> block <> other ->
    let address := PoolFS.erase_address partition_offset c block in
    let address' := PoolFS.erase_address partition_offset c other in
    address = partition_offset + block * block_size c
    /\ partition_offset <= address
    /\ address + block_size c <= partition_offset + n * block_size c
    /\ (address + block_size c <= address'
        \/ address' + block_size c <= address).
Proof.
  intros po c n block other Hpo Hbs Hfit Hblock Hother Hne address address'.
  assert (Ha : address = po + block * block_size c).
  { subst address. unfold PoolFS.erase_address, u32. apply Z.mod_small. nia. }
  assert (Ha' : address' = po + other * block_size c).
  { subst address'. unfold PoolFS.erase_address, u32. apply Z.mod_small. nia. }
  rewrite Ha, Ha'. repeat split; nia.
Qed.

Lemma erase_stays_inside_the_partition_witness :
  PoolFS.erase_address 0x100000 PoolFS.cfg_initializer 255 = 0x1FF000
  /\ PoolFS.erase_address 0x100000 PoolFS.cfg_initializer 255 + 4096
     <= 0x100000 + 256 * 4096.
Proof.
  destruct (erase_stays_inside_the_partition 0x100000 PoolFS.cfg_initializer
              256 255 0 ltac:(lia) ltac:(reflexivity)
              ltac:(vm_compute; discriminate) ltac:(lia) ltac:(lia)
              ltac:(lia))
    as (Ha & _ & Hin & _).
  split; [ exact Ha | exact Hin ].
Defined.

(** ** Sequences of block-device requests *)

Lemma flash_commands_safe_app (m : hw_mode) (t1 t2 : list hw_call) :
  flash_commands_safe m (t1 ++ t2)
  = flash_commands_safe m t1 && flash_commands_safe (mode_after m t1) t2.
Proof.
  revert m. induction t1 as [ | c t1 IH ]; intros m; cbn; [ reflexivity | ].
  rewrite IH. now rewrite andb_assoc.
Qed.

Lemma mode_after_app (m : hw_mode) (t1 t2 : list hw_call) :
  mode_after m (t1 ++ t2) = mode_after (mode_after m t1) t2.
Proof. unfold mode_after. apply fold_left_app. Qed.

Lemma bracketed_is_safe (m : hw_mode) (cmd : hw_call) :
  match cmd with
  | OSPI_Program _ _ _ | OSPI_EraseSync _ _ => True
  | _ => False
  end ->
  flash_commands_safe m (bracketed cmd) = true
  /\ mode_after m (bracketed cmd) = running_mode.
Proof.
  destruct m as [d mm]. now destruct cmd.
Qed.

(** One request appends nothing, or one bracketed flash command. *)
Lemma run_bd_op_calls (po : Z) (c : lfs_config) (op : bd_op) (t : hw) :
  snd (run_bd_op po c op t) = t
  \/ exists cmd,
       snd (run_bd_op po c op t) = t ++ bracketed cmd
       /\ match cmd with
          | OSPI_Program _ _ _ | OSPI_EraseSync _ _ => True
          | _ => False
          end.
Proof.
  destruct op as [block off buffer size | block | ]; cbn [run_bd_op].
  - rewrite pool_prog_run. destruct (_ =? 0); cbn [snd]; [ right | now left ].
    eexists. split; [ reflexivity | exact I ].
  - rewrite pool_erase_run. destruct (_ =? 0); cbn [snd]; [ right | now left ].
    eexists. split; [ reflexivity | exact I ].
  - now left.
Qed.

Lemma run_bd_ops_calls (po : Z) (c : lfs_config) (ops : list bd_op) :
  forall (t : hw) (m : hw_mode),
  exists new,
    snd (run_bd_ops po c ops t) = t ++ new
    /\ flash_commands_safe m new = true
    /\ (new = [] \/ mode_after m new = running_mode).
Proof.
  induction ops as [ | op ops IH ]; intros t m; cbn [run_bd_ops].
  - exists []. rewrite app_nil_r. auto.
  - unfold bind.
    destruct (run_bd_op_calls po c op t) as [Hsame | (cmd & Hcmd & Hflash)];
      destruct (run_bd_op po c op t) as [[rc | e | u] t1]; cbn [snd] in *;
      subst t1.
    + apply IH.
    + exists []. rewrite app_nil_r. auto.
    + exists []. rewrite app_nil_r. auto.
    + destruct (bracketed_is_safe m cmd Hflash) as (Hsafe & Hmode).
      destruct (IH (t ++ bracketed cmd) running_mode)
        as (new & Hnew & Hsafe' & Hmode').
      exists (bracketed cmd ++ new).
      rewrite Hnew, <- app_assoc. split; [ reflexivity | ].
      rewrite flash_commands_safe_app, mode_after_app, Hsafe, Hmode.
      split; [ exact Hsafe' | right ].
      destruct Hmode' as [-> | Hm]; [ reflexivity | exact Hm ].
    + destruct (bracketed_is_safe m cmd Hflash) as (Hsafe & Hmode).
      exists (bracketed cmd). split; [ reflexivity | ]. auto.
    + destruct (bracketed_is_safe m cmd Hflash) as (Hsafe & Hmode).
      exists (bracketed cmd). split; [ reflexivity | ]. auto.
Qed.

(** X7. Whatever sequence of program, erase and sync requests runs
    through the pooled callbacks, and whatever mode the hardware is in
    before, every flash command of the run is issued with the data cache
    off and outside memory-mapped mode; and a run that starts with the
    cache on and the flash mapped ends in that mode. *)
Theorem block_device_runs_are_hazard_free :
  forall (partition_offset : Z) (c : lfs_config) (ops : list bd_op)
         (t : hw) (m : hw_mode),
    let new := skipn (length t)
                 (snd (run_bd_ops partition_offset c ops t)) in
    snd (run_bd_ops partition_offset c ops t) = t ++ new
    /\ flash_commands_safe m new = true
    /\ mode_after running_mode new = running_mode.
Proof.
  intros po c ops t m new.
  destruct (run_bd_ops_calls po c ops t m) as (new1 & Hnew & Hsafe & _).
  destruct (run_bd_ops_calls po c ops t running_mode)
    as (new2 & Hnew2 & _ & Hmode).
  assert (Heq : new = new1) by (subst new; rewrite Hnew; apply skipn_app_exact).
  assert (Heq2 : new = new2)
    by (subst new; rewrite Hnew2; apply skipn_app_exact).
  rewrite Heq at 1 2. split; [ exact Hnew | split; [ exact Hsafe | ] ].
  rewrite Heq2. destruct Hmode as [-> | Hm]; [ reflexivity | exact Hm ].
Qed.

(** ** The pool, bit by bit *)

Lemma land_pow2 (m i : Z) :
  0 <= i -> Z.land m (2 ^ i) = if Z.testbit m i then 2 ^ i else 0.
Proof.
  intros Hi. apply Z.bits_inj'. intros n Hn.
  rewrite Z.land_spec, Z.pow2_bits_eqb by exact Hi.
  destruct (Z.eqb_spec i n) as [-> | Hne].
  - destruct (Z.testbit m n); cbn.
    + symmetry. now apply Z.pow2_bits_true.
    + symmetry. apply Z.bits_0.
  - rewrite andb_false_r.
    destruct (Z.testbit m i); [ | symmetry; apply Z.bits_0 ].
    symmetry. now apply Z.pow2_bits_false.
Qed.

Lemma land_bit_test (m i : Z) :
  0 <= i -> (Z.land m (2 ^ i) =? 0) = negb (Z.testbit m i).
Proof.
  intros Hi. rewrite land_pow2 by exact Hi.
  destruct (Z.testbit m i); [ | reflexivity ].
  apply Z.eqb_neq. pose proof (Z.pow_pos_nonneg 2 i). lia.
Qed.

Lemma lor_pow2_bit (m i j : Z) :
  0 <= i -> Z.testbit (Z.lor m (2 ^ i)) j = Z.testbit m j || (i =? j).
Proof. intros Hi. now rewrite Z.lor_spec, Z.pow2_bits_eqb. Qed.

Lemma first_free_bits (mask : Z) :
  first_free mask =
  if negb (Z.testbit mask 0) then Some (0, 2 ^ 0)
  else if negb (Z.testbit mask 1) then Some (1, 2 ^ 1)
  else None.
Proof.
  unfold first_free.
  replace (Z.land mask 1) with (Z.land mask (2 ^ 0)) by reflexivity.
  replace (Z.land mask 2) with (Z.land mask (2 ^ 1)) by reflexivity.
  rewrite !land_bit_test by lia. reflexivity.
Qed.

(** X8. [acquire_file_handle] is first fit: the slot it returns was
    unmarked and every slot below it was marked; it marks that slot and no
    other, zeroes that slot and leaves the other one as it was; and it
    makes the slot the compression owner exactly when compression was
    asked for (which succeeds only while there is no owner). *)
Theorem acquire_is_first_fit :
  forall (lfs_t lfs_file_t : Type) (E : externals lfs_t lfs_file_t)
         (use_compression : bool) (w : PoolFS.world lfs_t lfs_file_t)
         (i : Z),
    fst (PoolFS.acquire_file_handle E use_compression w) = Returns (Some i) ->
    let w' := snd (PoolFS.acquire_file_handle E use_compression w) in
    (i = 0 \/ i = 1)
    /\ slot_used w i = false
    /\ (forall j, 0 <= j < i -> slot_used w j = true)
    /\ slot_used w' i = true
    /\ (forall j, 0 <= j -> j <> i -> slot_used w' j = slot_used w j)
    /\ PoolFS.file_handles w'
       = <[Z.to_nat i := PoolFS.zero_handle E]> (PoolFS.file_handles w)
    /\ PoolFS.file_index_using_compression w'
       = (if use_compression then i
          else PoolFS.file_index_using_compression w)
    /\ (use_compression = true -> PoolFS.file_index_using_compression w < 0).
Proof.
  intros lfs_t lfs_file_t E uc w i. rewrite acquire_run, first_free_bits.
  unfold slot_used.
  destruct (Z.testbit (PoolFS.file_handles_used_bitmask w) 0) eqn:H0;
    cbn [negb].
  - destruct (Z.testbit (PoolFS.file_handles_used_bitmask w) 1) eqn:H1;
      cbn [negb]; [ discriminate | ].
    destruct (uc && _) eqn:Hbusy; cbn [fst snd]; [ discriminate | ].
    intros [= <-]. cbn [PoolFS.file_handles_used_bitmask PoolFS.file_handles
                        PoolFS.file_index_using_compression].
    split; [ auto | ]. split; [ exact H1 | ].
    split; [ intros j Hj; replace j with 0 by lia; exact H0 | ].
    split; [ rewrite lor_pow2_bit by lia; rewrite Z.eqb_refl;
             apply orb_true_r | ].
    split; [ intros j Hj Hne; rewrite lor_pow2_bit by lia;
             replace (1 =? j) with false by (symmetry; apply Z.eqb_neq; lia);
             apply orb_false_r | ].
    split; [ reflexivity | ]. split; [ reflexivity | ].
    intros ->. cbn [andb] in Hbusy. apply Z.leb_gt in Hbusy. exact Hbusy.
  - destruct (uc && _) eqn:Hbusy; cbn [fst snd]; [ discriminate | ].
    intros [= <-]. cbn [PoolFS.file_handles_used_bitmask PoolFS.file_handles
                        PoolFS.file_index_using_compression].
    split; [ auto | ]. split; [ exact H0 | ].
    split; [ intros j Hj; lia | ].
    split; [ rewrite lor_pow2_bit by lia; rewrite Z.eqb_refl;
             apply orb_true_r | ].
    split; [ intros j Hj Hne; rewrite lor_pow2_bit by lia;
             replace (0 =? j) with false by (symmetry; apply Z.eqb_neq; lia);
             apply orb_false_r | ].
    split; [ reflexivity | ]. split; [ reflexivity | ].
    intros ->. cbn [andb] in Hbusy. apply Z.leb_gt in Hbusy. exact Hbusy.
Qed.

Lemma acquire_is_first_fit_witness :
  let E := RamDisk.ram_disk 0 in
  let w1 := snd (PoolFS.acquire_file_handle E false
                   (PoolFS.initial_world E (RamDisk.blank 1700000000))) in
  let w2 := snd (PoolFS.acquire_file_handle E true w1) in
  slot_used w1 1 = false
  /\ slot_used w2 1 = true
  /\ PoolFS.file_index_using_compression w2 = 1.
Proof.
  intros E w1 w2.
  destruct (acquire_is_first_fit _ _ E true w1 1 eq_refl)
    as (_ & Hfree & _ & Hused & _ & _ & Howner & _).
  split; [ exact Hfree | split; [ exact Hused | exact Howner ] ].
Defined.

(** X9. With both slots marked, [acquire_file_handle] returns [NULL] and
    changes nothing, with or without compression. *)
Theorem acquire_on_full_pool_changes_nothing :
  forall (lfs_t lfs_file_t : Type) (E : externals lfs_t lfs_file_t)
         (use_compression : bool) (w : PoolFS.world lfs_t lfs_file_t),
    slot_used w 0 = true -> slot_used w 1 = true ->
    PoolFS.acquire_file_handle E use_compression w = (Returns None, w).
Proof.
  intros lfs_t lfs_file_t E uc w H0 H1. unfold slot_used in *.
  rewrite acquire_run, first_free_bits, H0, H1. reflexivity.
Qed.

Lemma acquire_on_full_pool_changes_nothing_witness :
  let E := RamDisk.ram_disk 0 in
  let w2 := snd (PoolFS.acquire_file_handle E false
                   (snd (PoolFS.acquire_file_handle E false
                           (PoolFS.initial_world E
                              (RamDisk.blank 1700000000))))) in
  PoolFS.acquire_file_handle E true w2 = (Returns None, w2).
Proof.
  intros E w2.
  apply (acquire_on_full_pool_changes_nothing _ _ E true w2); reflexivity.
Defined.

(** X10. Releasing a pointer that is not the [file] member of one of the
    two slots (the null pointer, an object outside the pool, an index off
    the array) reaches [assert(0)] with nothing changed. *)
Theorem release_of_untracked_pointer_asserts :
  forall (lfs_t lfs_file_t : Type) (w : PoolFS.world lfs_t lfs_file_t)
         (file : file_ptr),
    file <> HandleFile 0 -> file <> HandleFile 1 ->
    PoolFS.release_file_handle file w = (AssertFails "0", w).
Proof.
  intros lfs_t lfs_file_t w file H0 H1. rewrite release_run.
  destruct file as [ | i | | a]; try reflexivity.
  destruct (Z.eqb_spec i 0) as [-> | Hi0]; [ congruence | ].
  destruct (Z.eqb_spec i 1) as [-> | Hi1]; [ congruence | ].
  reflexivity.
Qed.

Lemma release_of_untracked_pointer_asserts_witness :
  let w0 := PoolFS.initial_world (RamDisk.ram_disk 0)
              (RamDisk.blank 1700000000) in
  PoolFS.release_file_handle NULL w0 = (AssertFails "0", w0)
  /\ PoolFS.release_file_handle (HandleFile 2) w0 = (AssertFails "0", w0).
Proof.
  intros w0. split.
  - apply (release_of_untracked_pointer_asserts _ _ w0 NULL); discriminate.
  - apply (release_of_untracked_pointer_asserts _ _ w0 (HandleFile 2));
      discriminate.
Defined.

Lemma u8_clear_bit0_twice (mask : Z) :
  u8 (Z.land (u8 (Z.land mask (Z.lnot 1))) (Z.lnot 1))
  = u8 (Z.land mask (Z.lnot 1)).
Proof.
  unfold u8. apply Z.bits_inj'. intros n Hn.
  destruct (Z.lt_ge_cases n 8) as [Hlow | Hhigh].
  - rewrite !Z.mod_pow2_bits_low by lia.
    rewrite !Z.land_spec, Z.mod_pow2_bits_low by lia.
    rewrite Z.land_spec. now rewrite <- andb_assoc, andb_diag.
  - now rewrite !Z.mod_pow2_bits_high by lia.
Qed.

(** X11. A release is not undone or noticed by a second one: releasing the
    same pointer again gives the same result and the same state as the
    first release, so a double release of a handle passes unseen. *)
Theorem release_twice_is_release_once :
  forall (lfs_t lfs_file_t : Type) (w : PoolFS.world lfs_t lfs_file_t)
         (file : file_ptr),
    PoolFS.release_file_handle file
      (snd (PoolFS.release_file_handle file w))
    = PoolFS.release_file_handle file w.
Proof.
  intros lfs_t lfs_file_t w file. rewrite !release_run.
  destruct file as [ | i | | a]; try reflexivity.
  destruct ((i =? 0) || (i =? 1)) eqn:Hi; [ | reflexivity ].
  cbn [snd PoolFS.file_handles PoolFS.file_handles_used_bitmask
       PoolFS.file_index_using_compression PoolFS.cfg PoolFS.system].
  rewrite u8_clear_bit0_twice. do 2 f_equal.
  destruct (Z.eqb_spec i (PoolFS.file_index_using_compression w)) as [He | He].
  - replace (i =? -1) with false; [ reflexivity | ].
    symmetry. apply Z.eqb_neq.
    apply orb_true_iff in Hi as [Hi | Hi]; apply Z.eqb_eq in Hi; lia.
  - apply Z.eqb_neq in He. now rewrite He.
Qed.

(** X12. At most one pointer is using the compressor: when
    [file_is_using_compression] holds of two pointers they are the same
    pointer, the [file] member of the slot whose index is the owner. *)
Theorem compression_user_is_unique :
  forall (lfs_t lfs_file_t : Type) (w : PoolFS.world lfs_t lfs_file_t)
         (file other : file_ptr),
    PoolFS.file_is_using_compression file w = true ->
    PoolFS.file_is_using_compression other w = true ->
    file = other
    /\ file = HandleFile (PoolFS.file_index_using_compression w)
    /\ (PoolFS.file_index_using_compression w = 0
        \/ PoolFS.file_index_using_compression w = 1).
Proof.
  intros lfs_t lfs_file_t w file other.
  rewrite !using_compression_run.
  destruct file as [ | i | | a]; try discriminate.
  destruct other as [ | j | | b]; try discriminate.
  intros Hi Hj.
  apply andb_true_iff in Hi as [Hi Hio]. apply Z.eqb_eq in Hio.
  apply andb_true_iff in Hj as [_ Hjo]. apply Z.eqb_eq in Hjo.
  split; [ congruence | ]. split; [ congruence | ].
  rewrite <- Hio.
  apply orb_true_iff in Hi as [Hi | Hi]; apply Z.eqb_eq in Hi; auto.
Qed.

Lemma compression_user_is_unique_witness :
  let E := RamDisk.ram_disk 0 in
  let w1 := snd (PoolFS.acquire_file_handle E true
                   (PoolFS.initial_world E (RamDisk.blank 1700000000))) in
  HandleFile 0 = HandleFile (PoolFS.file_index_using_compression w1).
Proof.
  intros E w1.
  exact (proj1 (proj2 (compression_user_is_unique _ _ w1 (HandleFile 0)
                         (HandleFile 0) eq_refl eq_refl))).
Defined.




(** ** What the file operations leave alone *)

Lemma same_bookkeeping_refl {lfs_t lfs_file_t : Type}
    (w : PoolFS.world lfs_t lfs_file_t) : same_bookkeeping w w.
Proof.
  repeat split. intros j h Hj. exists h. repeat split. exact Hj.
Qed.

Lemma io_outcome_bookkeeping {lfs_t lfs_file_t A : Type}
    (E : externals lfs_t lfs_file_t) (guard : string)
    (call : sys_call) (answer : lfs_t -> lfs_file_t -> A * lfs_t * lfs_file_t)
    (file : file_ptr) (w : PoolFS.world lfs_t lfs_file_t) :
  same_bookkeeping w (snd (io_outcome E guard call answer file w)).
Proof.
  unfold io_outcome.
  destruct file as [ | i | | a]; try apply same_bookkeeping_refl;
    try (destruct (answer _ _) as [[a0 l] obj]; cbn [snd];
         unfold same_bookkeeping; cbn;
         repeat split; intros j h Hj; exists h; now repeat split).
  destruct ((i =? 0) || (i =? 1)); [ | apply same_bookkeeping_refl ].
  destruct (i =? _); [ apply same_bookkeeping_refl | ].
  destruct (PoolFS.file_handles w !! Z.to_nat i) as [h | ] eqn:Hh;
    [ | apply same_bookkeeping_refl ].
  destruct (answer _ _) as [[a l] obj]. cbn [snd].
  unfold same_bookkeeping. cbn.
  repeat split; [ now rewrite length_insert | ].
  intros j h' Hj.
  destruct (Nat.eq_dec (Z.to_nat i) j) as [<- | Hne].
  - rewrite Hh in Hj. injection Hj as <-.
    eexists. split.
    + apply list_lookup_insert_eq. now apply lookup_lt_Some in Hh.
    + repeat split.
  - exists h'. rewrite list_lookup_insert_ne by exact Hne. repeat split.
    exact Hj.
Qed.

(** What the shared shape does through the pointer of a pool slot that
    does not own the compressor. *)
Lemma io_outcome_of_slot {lfs_t lfs_file_t A : Type}
    (E : externals lfs_t lfs_file_t) (guard : string)
    (call : sys_call) (answer : lfs_t -> lfs_file_t -> A * lfs_t * lfs_file_t)
    (w : PoolFS.world lfs_t lfs_file_t) (i : Z)
    (h : PoolFS.filesystem_file_handle_t lfs_file_t) :
  i = 0 \/ i = 1 ->
  PoolFS.file_index_using_compression w <> i ->
  PoolFS.file_handles w !! Z.to_nat i = Some h ->
  let s := PoolFS.system w in
  let r := answer (lfs s) (PoolFS.file h) in
  let run := io_outcome E guard call answer (HandleFile i) w in
  fst run = Returns (fst (fst r))
  /\ PoolFS.system (snd run)
     = mk_sys (snd (fst r)) (rtc s) (trace s ++ [call])
  /\ PoolFS.file_handles (snd run)
     = <[Z.to_nat i :=
           PoolFS.mk_handle (snd r) PoolFS.AfterLittlefs
             (PoolFS.file_attrs h) (PoolFS.config h)]> (PoolFS.file_handles w).
Proof.
  intros Hi Howner Hh s r run. subst run r. unfold io_outcome.
  replace ((i =? 0) || (i =? 1)) with true by now destruct Hi as [-> | ->].
  destruct (Z.eqb_spec i (PoolFS.file_index_using_compression w));
    [ congruence | ].
  rewrite Hh. fold s.
  destruct (answer (lfs s) (PoolFS.file h)) as [[a l] obj].
  now repeat split.
Qed.

(** X13. Reading, writing or seeking through the handle that is registered
    as the compression user stops at an assertion; nothing has been called
    and nothing has changed. *)
Theorem io_on_the_compression_user_stops :
  forall (lfs_t lfs_file_t : Type) (E : externals lfs_t lfs_file_t)
         (w : PoolFS.world lfs_t lfs_file_t) (i : Z) (data : list Z)
         (size off whence : Z),
    well_formed w ->
    i = 0 \/ i = 1 ->
    PoolFS.file_index_using_compression w = i ->
    PoolFS.filesystem_write E (HandleFile i) data size w
      = (AssertFails "0 && tamp compression not yet implemented", w)
    /\ PoolFS.filesystem_read E (HandleFile i) size w
       = (AssertFails "0 && tamp compression not yet implemented", w)
    /\ PoolFS.filesystem_seek E (HandleFile i) off whence w
       = (AssertFails "file_is_using_compression(file) == false", w).
Proof.
  intros lfs_t lfs_file_t E w i data size off whence Hwf Hi Howner.
  rewrite write_run, read_run, seek_run by exact Hwf.
  unfold io_outcome. rewrite Howner, Z.eqb_refl.
  now destruct Hi as [-> | ->].
Qed.

Lemma io_on_the_compression_user_stops_witness :
  let E := RamDisk.ram_disk 0 in
  let w := PoolFS.mk_world [PoolFS.zero_handle E; PoolFS.zero_handle E] 1 0
             PoolFS.cfg_initializer (RamDisk.blank 1700000000) in
  PoolFS.filesystem_write E (HandleFile 0) [1; 2] 2 w
    = (AssertFails "0 && tamp compression not yet implemented", w)
  /\ PoolFS.filesystem_read E (HandleFile 0) 2 w
     = (AssertFails "0 && tamp compression not yet implemented", w)
  /\ PoolFS.filesystem_seek E (HandleFile 0) 0 0 w
     = (AssertFails "file_is_using_compression(file) == false", w).
Proof.
  intros E w.
  apply (io_on_the_compression_user_stops _ _ E w 0 [1; 2] 2 0 0).
  - reflexivity.
  - now left.
  - reflexivity.
Defined.

(** X14. Whatever their arguments and their outcome, [filesystem_write],
    [filesystem_read] and [filesystem_seek] leave the used bitmask, the
    compression owner, the configuration and the size of the handle array
    as they were, and of every slot the attributes and the file
    configuration. *)
Theorem file_io_keeps_the_bookkeeping :
  forall (lfs_t lfs_file_t : Type) (E : externals lfs_t lfs_file_t)
         (w : PoolFS.world lfs_t lfs_file_t) (file : file_ptr)
         (data : list Z) (size off whence : Z),
    well_formed w ->
    same_bookkeeping w (snd (PoolFS.filesystem_write E file data size w))
    /\ same_bookkeeping w (snd (PoolFS.filesystem_read E file size w))
    /\ same_bookkeeping w (snd (PoolFS.filesystem_seek E file off whence w)).
Proof.
  intros lfs_t lfs_file_t E w file data size off whence Hwf.
  rewrite write_run, read_run, seek_run by exact Hwf.
  repeat split; apply io_outcome_bookkeeping.
Qed.

Lemma file_io_keeps_the_bookkeeping_witness :
  let E := RamDisk.ram_disk 0 in
  let w := PoolFS.mk_world [opened_handle 0 "log"; PoolFS.zero_handle E] 1 (-1)
             PoolFS.cfg_initializer (RamDisk.blank 1700000000) in
  same_bookkeeping w (snd (PoolFS.filesystem_write E (HandleFile 0) [7] 1 w))
  /\ same_bookkeeping w (snd (PoolFS.filesystem_read E (HandleFile 0) 1 w))
  /\ same_bookkeeping w (snd (PoolFS.filesystem_seek E (HandleFile 0) 0 0 w)).
Proof.
  intros E w.
  apply (file_io_keeps_the_bookkeeping _ _ E w (HandleFile 0) [7] 1 0 0).
  reflexivity.
Defined.

(** X15. Through the pointer of a pool slot that does not own the
    compressor, [filesystem_write], [filesystem_read] and [filesystem_seek]
    return: each makes exactly one call to littlefs, on the file object of
    that slot and with the caller's arguments, returns what that call
    answers, and stores the file object the call leaves in the slot. *)
Theorem file_io_returns_the_library_answer :
  forall (lfs_t lfs_file_t : Type) (E : externals lfs_t lfs_file_t)
         (w : PoolFS.world lfs_t lfs_file_t) (i : Z)
         (h : PoolFS.filesystem_file_handle_t lfs_file_t)
         (data : list Z) (size off whence : Z),
    well_formed w ->
    i = 0 \/ i = 1 ->
    PoolFS.file_index_using_compression w <> i ->
    PoolFS.file_handles w !! Z.to_nat i = Some h ->
    let s := PoolFS.system w in
    let file := HandleFile i in
    let stored (obj : lfs_file_t) (w' : PoolFS.world lfs_t lfs_file_t) :=
      PoolFS.file <$> (PoolFS.file_handles w' !! Z.to_nat i) = Some obj in
    (let r := write_result E (lfs s) (PoolFS.file h) data size in
     let run := PoolFS.filesystem_write E file data size w in
     fst run = Returns (fst (fst r))
     /\ PoolFS.system (snd run)
        = mk_sys (snd (fst r)) (rtc s)
            (trace s ++ [LfsFileWrite file data size])
     /\ stored (snd r) (snd run))
    /\ (let r := read_result E (lfs s) (PoolFS.file h) size in
        let run := PoolFS.filesystem_read E file size w in
        fst run = Returns (fst (fst r))
        /\ PoolFS.system (snd run)
           = mk_sys (snd (fst r)) (rtc s) (trace s ++ [LfsFileRead file size])
        /\ stored (snd r) (snd run))
    /\ (let r := seek_result E (lfs s) (PoolFS.file h) off whence in
        let run := PoolFS.filesystem_seek E file off whence w in
        fst run = Returns (fst (fst r))
        /\ PoolFS.system (snd run)
           = mk_sys (snd (fst r)) (rtc s)
               (trace s ++ [LfsFileSeek file off whence])
        /\ stored (snd r) (snd run)).
Proof.
  intros lfs_t lfs_file_t E w i h data size off whence Hwf Hi Howner Hh
    s file stored.
  assert (Hstored : forall obj hs,
             hs = <[Z.to_nat i :=
                      PoolFS.mk_handle obj PoolFS.AfterLittlefs
                        (PoolFS.file_attrs h) (PoolFS.config h)]>
                    (PoolFS.file_handles w) ->
             PoolFS.file <$> (hs !! Z.to_nat i) = Some obj).
  { intros obj hs ->. now rewrite (lookup_inserted_slot w i _ Hwf Hi). }
  subst file stored. cbv zeta.
  rewrite write_run, read_run, seek_run by exact Hwf.
  split; [ | split ].
  - destruct (io_outcome_of_slot E "0 && tamp compression not yet implemented"
                (LfsFileWrite (HandleFile i) data size)
                (fun l obj => write_result E l obj data size) w i h
                Hi Howner Hh) as (Hr & Hs & Hhs).
    split; [ exact Hr | split; [ exact Hs | exact (Hstored _ _ Hhs) ] ].
  - destruct (io_outcome_of_slot E "0 && tamp compression not yet implemented"
                (LfsFileRead (HandleFile i) size)
                (fun l obj => read_result E l obj size) w i h
                Hi Howner Hh) as (Hr & Hs & Hhs).
    split; [ exact Hr | split; [ exact Hs | exact (Hstored _ _ Hhs) ] ].
  - destruct (io_outcome_of_slot E "file_is_using_compression(file) == false"
                (LfsFileSeek (HandleFile i) off whence)
                (fun l obj => seek_result E l obj off whence) w i h
                Hi Howner Hh) as (Hr & Hs & Hhs).
    split; [ exact Hr | split; [ exact Hs | exact (Hstored _ _ Hhs) ] ].
Qed.

Lemma file_io_returns_the_library_answer_witness :
  let E := RamDisk.ram_disk 0 in
  let w := PoolFS.mk_world [opened_handle 0 "log"; PoolFS.zero_handle E] 1 (-1)
             PoolFS.cfg_initializer (RamDisk.blank 1700000000) in
  let run := PoolFS.filesystem_write E (HandleFile 0) [7; 8] 2 w in
  fst run = Returns 2
  /\ PoolFS.system (snd run)
     = mk_sys (RamDisk.mk_disk true [("log", [7; 8])]) 1700000000
         [LfsFileWrite (HandleFile 0) [7; 8] 2]
  /\ PoolFS.file <$> (PoolFS.file_handles (snd run) !! Z.to_nat 0)
     = Some "log".
Proof.
  intros E w.
  apply (proj1 (file_io_returns_the_library_answer _ _ E w 0
                  (opened_handle 0 "log") [7; 8] 2 0 0
                  eq_refl (or_introl eq_refl) ltac:(discriminate) eq_refl)).
Defined.

(** ** Opening and closing, seen by a caller *)

Lemma clear_after_set_bit0 (mask : Z) :
  0 <= mask < 256 -> Z.land mask 1 = 0 ->
  u8 (Z.land (Z.lor mask 1) (Z.lnot 1)) = mask.
Proof.
  intros Hm H0.
  assert (Hland : Z.land (Z.lor mask 1) (Z.lnot 1) = mask).
  { apply Z.bits_inj'. intros n Hn.
    rewrite Z.land_spec, Z.lor_spec, Z.lnot_spec by exact Hn.
    destruct (Z.eq_dec n 0) as [-> | Hne].
    - replace (Z.testbit mask 0) with (Z.testbit (Z.land mask 1) 0).
      + now rewrite H0.
      + rewrite Z.land_spec. change (Z.testbit 1 0) with true.
        now rewrite andb_true_r.
    - replace (Z.testbit 1 n) with false.
      + now rewrite orb_false_r, andb_true_r.
      + symmetry. change 1 with (2 ^ 0). rewrite Z.pow2_bits_eqb by lia.
        apply Z.eqb_neq. lia. }
  rewrite Hland. unfold u8. apply Z.mod_small. lia.
Qed.

Lemma first_free_slot_0 (mask : Z) :
  Z.land mask 1 = 0 -> first_free mask = Some (0, 1).
Proof. intros H. unfold first_free. now rewrite H. Qed.

(** X16. An open that asks for compression never hands out a handle: it
    returns [NULL] or stops at the assertion that compression is not
    implemented. It calls neither the clock nor littlefs. *)
Theorem open_with_compression_yields_no_handle :
  forall (lfs_t lfs_file_t : Type) (E : externals lfs_t lfs_file_t)
         (w : PoolFS.world lfs_t lfs_file_t) (path : string)
         (write_mode : bool),
    well_formed w ->
    (fst (PoolFS.filesystem_open E path write_mode true w) = Returns NULL
     \/ fst (PoolFS.filesystem_open E path write_mode true w)
        = AssertFails "0 && tamp compression not yet implemented")
    /\ lfs (PoolFS.system (snd (PoolFS.filesystem_open E path write_mode true w)))
       = lfs (PoolFS.system w)
    /\ emits (fun c => exists format args, c = Printf format args)
         w (snd (PoolFS.filesystem_open E path write_mode true w)).
Proof.
  intros lfs_t lfs_file_t E w path write_mode Hwf.
  rewrite open_run by exact Hwf. unfold open_result, emits, add_calls.
  destruct (first_free _) as [[i bit] | ]; [ destruct (0 <=? _) | ];
    cbn [fst snd PoolFS.system lfs trace].
  - split; [ now left | split; [ reflexivity | ] ].
    eexists. split; [ reflexivity | ]. repeat constructor. now eexists _, _.
  - split; [ now right | split; [ reflexivity | ] ].
    exists []. split; [ now rewrite app_nil_r | constructor ].
  - split; [ now left | split; [ reflexivity | ] ].
    eexists. split; [ reflexivity | ]. repeat constructor. now eexists _, _.
Qed.

Lemma open_with_compression_yields_no_handle_witness :
  let E := RamDisk.ram_disk 0 in
  let w := PoolFS.initial_world E (RamDisk.blank 1700000000) in
  (fst (PoolFS.filesystem_open E "rom" true true w) = Returns NULL
   \/ fst (PoolFS.filesystem_open E "rom" true true w)
      = AssertFails "0 && tamp compression not yet implemented")
  /\ lfs (PoolFS.system (snd (PoolFS.filesystem_open E "rom" true true w)))
     = lfs (PoolFS.system w)
  /\ emits (fun c => exists format args, c = Printf format args)
       w (snd (PoolFS.filesystem_open E "rom" true true w)).
Proof.
  intros E w.
  apply (open_with_compression_yields_no_handle _ _ E w "rom" true).
  reflexivity.
Defined.

(** X17. An open that returns [NULL] has touched no handle and called
    neither the clock nor littlefs: the handles and the compression owner
    are as before, and the only call is the message that no handle could be
    allocated. *)
Theorem failed_open_touches_no_file :
  forall (lfs_t lfs_file_t : Type) (E : externals lfs_t lfs_file_t)
         (w : PoolFS.world lfs_t lfs_file_t) (path : string)
         (write_mode use_compression : bool),
    well_formed w ->
    fst (PoolFS.filesystem_open E path write_mode use_compression w)
      = Returns NULL ->
    let w' := snd (PoolFS.filesystem_open E path write_mode use_compression w) in
    PoolFS.file_handles w' = PoolFS.file_handles w
    /\ PoolFS.file_index_using_compression w'
       = PoolFS.file_index_using_compression w
    /\ PoolFS.system w'
       = add_calls (PoolFS.system w)
           [Printf "Unable to allocate file handle." []].
Proof.
  intros lfs_t lfs_file_t E w path write_mode use_compression Hwf.
  rewrite open_run by exact Hwf. unfold open_result.
  destruct (first_free _) as [[i bit] | ]; [ | now intros _ ].
  destruct use_compression.
  - destruct (0 <=? _); [ now intros _ | discriminate ].
  - destruct (_ =? 0); [ discriminate | ].
    destruct (opencfg_result E _ _ _ _ _) as [[rc l] obj]. cbn [fst].
    destruct (0 =? rc); discriminate.
Qed.

Lemma failed_open_touches_no_file_witness :
  let E := RamDisk.ram_disk 0 in
  let w := PoolFS.mk_world [opened_handle 0 "a"; opened_handle 1 "b"] 3 (-1)
             PoolFS.cfg_initializer (RamDisk.blank 1700000000) in
  let w' := snd (PoolFS.filesystem_open E "c" true false w) in
  PoolFS.file_handles w' = PoolFS.file_handles w
  /\ PoolFS.file_index_using_compression w'
     = PoolFS.file_index_using_compression w
  /\ PoolFS.system w'
     = add_calls (PoolFS.system w) [Printf "Unable to allocate file handle." []].
Proof.
  intros E w.
  apply (failed_open_touches_no_file _ _ E w "c" true false).
  - reflexivity.
  - reflexivity.
Defined.

(** X18. When slot 0 is free, an open that returns and the close of the
    handle it returned, if that returns too, leave the used bitmask and the
    compression owner exactly as they were before the open; the handle is
    the one of slot 0. *)
Theorem open_then_close_restores_the_pool :
  forall (lfs_t lfs_file_t : Type) (E : externals lfs_t lfs_file_t)
         (w : PoolFS.world lfs_t lfs_file_t) (path : string)
         (write_mode use_compression : bool) (file : file_ptr),
    well_formed w ->
    0 <= PoolFS.file_handles_used_bitmask w < 256 ->
    Z.land (PoolFS.file_handles_used_bitmask w) 1 = 0 ->
    fst (PoolFS.filesystem_open E path write_mode use_compression w)
      = Returns file ->
    let w1 := snd (PoolFS.filesystem_open E path write_mode use_compression w) in
    fst (PoolFS.filesystem_close E file w1) = Returns tt ->
    file = HandleFile 0
    /\ PoolFS.file_handles_used_bitmask (snd (PoolFS.filesystem_close E file w1))
       = PoolFS.file_handles_used_bitmask w
    /\ PoolFS.file_index_using_compression
         (snd (PoolFS.filesystem_close E file w1))
       = PoolFS.file_index_using_compression w.
Proof.
  intros lfs_t lfs_file_t E w path write_mode use_compression file Hwf Hmask
    Hfree Hopen w1.
  assert (Hwf1 : well_formed w1).
  { subst w1. rewrite open_run by exact Hwf. unfold open_result.
    rewrite (first_free_slot_0 _ Hfree).
    unfold well_formed in *.
    destruct use_compression; [ destruct (0 <=? _) | destruct (_ =? 0) ];
      cbn; rewrite ?length_insert; auto.
    destruct (opencfg_result E _ _ _ _ _) as [[rc l] obj]. cbn.
    now rewrite length_insert. }
  rewrite close_run by exact Hwf1.
  assert (Hpool : file = NULL \/ exists i, file = HandleFile i).
  { destruct file as [ | i | | a]; [ now left | right; now exists i | | ];
      destruct (open_returns_handle E path write_mode use_compression w
                  _ Hwf Hopen ltac:(discriminate))
        as (i' & bit & l & obj & Hfile & _); discriminate. }
  destruct Hpool as [-> | [i ->]]; [ discriminate | ].
  destruct (open_returns_handle E path write_mode use_compression w
              (HandleFile i) Hwf Hopen ltac:(discriminate))
    as (i' & bit & l & obj & [= ->] & -> & Hf & Hclock & Hcfg & Hw1).
  rewrite (first_free_slot_0 _ Hfree) in Hf. injection Hf as <- <-.
  subst w1. rewrite Hw1. unfold close_outcome.
  cbn [PoolFS.file_index_using_compression PoolFS.file_handles PoolFS.system
       PoolFS.file_handles_used_bitmask PoolFS.cfg].
  change ((0 =? 0) || (0 =? 1)) with true. cbv iota.
  destruct (0 =? PoolFS.file_index_using_compression w); [ discriminate | ].
  rewrite (lookup_inserted_slot w 0 _ Hwf (or_introl eq_refl)).
  destruct (close_result E _ _) as [[rc l'] obj'].
  cbv beta iota zeta.
  destruct (0 <=? rc); [ | discriminate ].
  intros _. cbn [snd PoolFS.file_handles_used_bitmask
                 PoolFS.file_index_using_compression].
  split; [ reflexivity | split; [ | reflexivity ] ].
  now apply clear_after_set_bit0.
Qed.

Lemma open_then_close_restores_the_pool_witness :
  let E := RamDisk.ram_disk 0 in
  let w := PoolFS.initial_world E (RamDisk.blank 1700000000) in
  let w1 := snd (PoolFS.filesystem_open E "save" true false w) in
  HandleFile 0 = HandleFile 0
  /\ PoolFS.file_handles_used_bitmask
       (snd (PoolFS.filesystem_close E (HandleFile 0) w1))
     = PoolFS.file_handles_used_bitmask w
  /\ PoolFS.file_index_using_compression
       (snd (PoolFS.filesystem_close E (HandleFile 0) w1))
     = PoolFS.file_index_using_compression w.
Proof.
  intros E w.
  apply (open_then_close_restores_the_pool _ _ E w "save" true false
           (HandleFile 0)).
  - reflexivity.
  - vm_compute. split; [ discriminate | reflexivity ].
  - reflexivity.
  - reflexivity.
  - reflexivity.
Defined.

(** X19. When [lfs_file_close] answers a negative code, [filesystem_close]
    stops at its assertion after the library call, which it makes with the
    attributes of the slot; the handle is not released, so its slot stays
    marked in use. *)
Theorem failed_close_keeps_the_slot :
  forall (lfs_t lfs_file_t : Type) (E : externals lfs_t lfs_file_t)
         (w : PoolFS.world lfs_t lfs_file_t) (i rc : Z)
         (h : PoolFS.filesystem_file_handle_t lfs_file_t)
         (l : lfs_t) (obj : lfs_file_t),
    i = 0 \/ i = 1 ->
    PoolFS.file_index_using_compression w <> i ->
    well_formed w ->
    PoolFS.file_handles w !! Z.to_nat i = Some h ->
    close_result E (lfs (PoolFS.system w)) (PoolFS.file h) = (rc, l, obj) ->
    rc < 0 ->
    fst (PoolFS.filesystem_close E (HandleFile i) w)
      = AssertFails "lfs_file_close(&lfs, file) >= 0"
    /\ PoolFS.file_handles_used_bitmask
         (snd (PoolFS.filesystem_close E (HandleFile i) w))
       = PoolFS.file_handles_used_bitmask w
    /\ trace (PoolFS.system (snd (PoolFS.filesystem_close E (HandleFile i) w)))
       = trace (PoolFS.system w)
         ++ [LfsFileClose (HandleFile i)
               (PoolFS.attributes_of None (PoolFS.config h) w)].
Proof.
  intros lfs_t lfs_file_t E w i rc h l obj Hi Howner Hwf Hh Hclose Hrc.
  rewrite close_run by exact Hwf. unfold close_outcome.
  replace ((i =? 0) || (i =? 1)) with true by now destruct Hi as [-> | ->].
  destruct (Z.eqb_spec i (PoolFS.file_index_using_compression w));
    [ congruence | ].
  rewrite Hh, Hclose. cbv beta iota zeta.
  destruct (Z.leb_spec 0 rc); [ lia | ].
  now repeat split.
Qed.

Lemma failed_close_keeps_the_slot_witness :
  let E := RamDisk.ram_disk (-5) in
  let w := PoolFS.mk_world [opened_handle 0 "a"; PoolFS.zero_handle E] 1 (-1)
             PoolFS.cfg_initializer (RamDisk.blank 1700000000) in
  fst (PoolFS.filesystem_close E (HandleFile 0) w)
    = AssertFails "lfs_file_close(&lfs, file) >= 0"
  /\ PoolFS.file_handles_used_bitmask
       (snd (PoolFS.filesystem_close E (HandleFile 0) w))
     = PoolFS.file_handles_used_bitmask w
  /\ trace (PoolFS.system (snd (PoolFS.filesystem_close E (HandleFile 0) w)))
     = trace (PoolFS.system w)
       ++ [LfsFileClose (HandleFile 0) [time_attr_gone]].
Proof.
  intros E w.
  apply (failed_close_keeps_the_slot _ _ E w 0 (-5) (opened_handle 0 "a")
           (RamDisk.mk_disk true []) "a").
  - now left.
  - discriminate.
  - reflexivity.
  - reflexivity.
  - reflexivity.
  - reflexivity.
Defined.

(** X20. With both slots marked in use, once the handle of slot 1 has been
    closed the next open that returns hands out the handle of slot 0, which
    nobody closed, sets it up anew, and leaves both slots marked. *)
Theorem closing_slot_1_hands_out_slot_0 :
  forall (lfs_t lfs_file_t : Type) (E : externals lfs_t lfs_file_t)
         (w : PoolFS.world lfs_t lfs_file_t) (path : string)
         (write_mode : bool) (file : file_ptr),
    well_formed w ->
    PoolFS.file_handles_used_bitmask w = 3 ->
    fst (PoolFS.filesystem_close E (HandleFile 1) w) = Returns tt ->
    let w1 := snd (PoolFS.filesystem_close E (HandleFile 1) w) in
    fst (PoolFS.filesystem_open E path write_mode false w1) = Returns file ->
    let w2 := snd (PoolFS.filesystem_open E path write_mode false w1) in
    file = HandleFile 0
    /\ PoolFS.file_handles_used_bitmask w2 = 3
    /\ exists obj, PoolFS.file_handles w2 !! 0%nat = Some (opened_handle 0 obj).
Proof.
  intros lfs_t lfs_file_t E w path write_mode file Hwf Hmask Hclose w1.
  assert (Hw1 : well_formed w1 /\ PoolFS.file_handles_used_bitmask w1 = 2).
  { subst w1. revert Hclose. rewrite close_run by exact Hwf.
    unfold close_outcome.
    change ((1 =? 0) || (1 =? 1)) with true. cbv iota.
    destruct (1 =? _); [ discriminate | ].
    destruct (PoolFS.file_handles w !! Z.to_nat 1) as [h | ]; [ | discriminate ].
    destruct (close_result E _ _) as [[rc l] obj]. cbv beta iota zeta.
    destruct (0 <=? rc); [ | discriminate ].
    intros _. cbn [snd]. unfold well_formed in *.
    cbn [PoolFS.file_handles PoolFS.file_handles_used_bitmask].
    rewrite length_insert, Hmask. now split. }
  destruct Hw1 as [Hwf1 Hmask1].
  intros Hopen w2.
  assert (Hnn : file <> NULL).
  { intros ->. revert Hopen. rewrite open_run by exact Hwf1.
    unfold open_result. rewrite Hmask1.
    change (first_free 2) with (Some (0, 1)). cbv beta iota zeta.
    destruct (_ =? 0); [ discriminate | ].
    destruct (opencfg_result E _ _ _ _ _) as [[rc l] obj]. cbn [fst].
    destruct (0 =? rc); discriminate. }
  destruct (open_returns_handle E path write_mode false w1 file Hwf1 Hopen Hnn)
    as (i & bit & l & obj & -> & _ & Hf & _ & _ & Hw2).
  rewrite Hmask1 in Hf. change (first_free 2) with (Some (0, 1)) in Hf.
  injection Hf as <- <-.
  subst w2. rewrite Hw2.
  cbn [PoolFS.file_handles PoolFS.file_handles_used_bitmask].
  rewrite Hmask1.
  split; [ reflexivity | split; [ reflexivity | ] ].
  exists obj. apply (lookup_inserted_slot w1 0 _ Hwf1 (or_introl eq_refl)).
Qed.

Lemma closing_slot_1_hands_out_slot_0_witness :
  let E := RamDisk.ram_disk 0 in
  let w := PoolFS.mk_world [opened_handle 0 "a"; opened_handle 1 "b"] 3 (-1)
             PoolFS.cfg_initializer (RamDisk.blank 1700000000) in
  let w1 := snd (PoolFS.filesystem_close E (HandleFile 1) w) in
  let w2 := snd (PoolFS.filesystem_open E "c" true false w1) in
  HandleFile 0 = HandleFile 0
  /\ PoolFS.file_handles_used_bitmask w2 = 3
  /\ exists obj, PoolFS.file_handles w2 !! 0%nat = Some (opened_handle 0 obj).
Proof.
  intros E w.
  apply (closing_slot_1_hands_out_slot_0 _ _ E w "c" true (HandleFile 0)).
  - reflexivity.
  - reflexivity.
  - reflexivity.
  - reflexivity.
Defined.

(** ** The standalone variant, step by step *)

(** X21. The standalone [filesystem_init] returns exactly when the first
    mount answers 0, or else the format and the second mount both answer 0;
    it calls [lfs_format] only after a first mount that failed, and when the
    first mount succeeds the filesystem is the one that mount left. *)
Theorem core_init_formats_only_after_failed_mount :
  forall (lfs_t lfs_file_t : Type) (E : externals lfs_t lfs_file_t)
         (s : sys lfs_t) (rc rc1 rc2 : Z) (l l1 l2 : lfs_t),
    mount_result E (lfs s) CoreFS.cfg = (rc, l) ->
    format_result E l CoreFS.cfg = (rc1, l1) ->
    mount_result E l1 CoreFS.cfg = (rc2, l2) ->
    let r := CoreFS.filesystem_init E s in
    (fst r = Returns tt <-> rc = 0 \/ (rc1 = 0 /\ rc2 = 0))
    /\ (rc = 0 -> snd r = mk_sys l (rtc s) (trace s ++ [LfsMount CoreFS.cfg]))
    /\ (rc <> 0 ->
        exists rest,
          trace (snd r)
          = trace s ++ [LfsMount CoreFS.cfg; LfsFormat CoreFS.cfg] ++ rest
          /\ (rc1 <> 0 ->
              rest = [] /\ fst r = AssertFails "lfs_format(&lfs, &cfg) == 0")).
Proof.
  intros lfs_t lfs_file_t E s rc rc1 rc2 l l1 l2 Hm Hf Hm2 r. subst r.
  unfold CoreFS.filesystem_init, lfs_mount, lfs_format, bind, get, log,
    set_lfs, modify, ret, assert. cbn.
  rewrite Hm. cbn.
  destruct (Z.eqb_spec rc 0) as [-> | Hrc]; cbn.
  - split; [ split; auto | split; [ reflexivity | congruence ] ].
  - rewrite Hf. cbn.
    destruct (Z.eqb_spec rc1 0) as [-> | Hrc1]; cbn.
    + rewrite Hm2. cbn. rewrite <- !app_assoc. cbn.
      destruct (Z.eqb_spec rc2 0) as [-> | Hrc2]; cbn.
      * split; [ split; auto | split; [ congruence | ] ].
        intros _. exists [LfsMount CoreFS.cfg]. split; [ reflexivity | ].
        congruence.
      * split; [ split; [ discriminate | intros [? | [_ ?]]; congruence ] | ].
        split; [ congruence | ].
        intros _. exists [LfsMount CoreFS.cfg]. split; [ reflexivity | ].
        congruence.
    + rewrite <- !app_assoc. cbn.
      split; [ split; [ discriminate | intros [? | [? _]]; congruence ] | ].
      split; [ congruence | ].
      intros _. exists []. split; [ reflexivity | ].
      intros _. split; reflexivity.
Qed.

Lemma core_init_formats_only_after_failed_mount_witness :
  let E := RamDisk.ram_disk 0 in
  let s := mk_sys (RamDisk.mk_disk false []) 1700000000 [] in
  let r := CoreFS.filesystem_init E s in
  (fst r = Returns tt
   <-> RamDisk.LFS_ERR_CORRUPT = 0 \/ (0 = 0 /\ 0 = 0))
  /\ (RamDisk.LFS_ERR_CORRUPT = 0 ->
      snd r = mk_sys (RamDisk.mk_disk false []) (rtc s)
                (trace s ++ [LfsMount CoreFS.cfg]))
  /\ (RamDisk.LFS_ERR_CORRUPT <> 0 ->
      exists rest,
        trace (snd r)
        = trace s ++ [LfsMount CoreFS.cfg; LfsFormat CoreFS.cfg] ++ rest
        /\ (0 <> 0 ->
            rest = [] /\ fst r = AssertFails "lfs_format(&lfs, &cfg) == 0")).
Proof.
  intros E s.
  apply (core_init_formats_only_after_failed_mount _ _ E s
           RamDisk.LFS_ERR_CORRUPT 0 0 (RamDisk.mk_disk false [])
           (RamDisk.mk_disk true []) (RamDisk.mk_disk true [])).
  - reflexivity.
  - reflexivity.
  - reflexivity.
Defined.

(** X24. The standalone [filesystem_write] stops at its first failing step
    and does nothing after it: with a clock that reads 0 no file is opened;
    when the open answers a non-zero code nothing is written; when the
    write answers another count than [size] the file is not closed. *)
Theorem core_write_stops_at_the_first_failure :
  forall (lfs_t lfs_file_t : Type) (E : externals lfs_t lfs_file_t)
         (path : string) (data : list Z) (size : Z) (s : sys lfs_t)
         (rc1 rc2 : Z) (l1 l2 : lfs_t) (f1 f2 : lfs_file_t),
    opencfg_result E (lfs s) path (core_write_flags E) core_write_config
                   [time_attr_at (u32 (rtc s))] = (rc1, l1, f1) ->
    write_result E l1 f1 data size = (rc2, l2, f2) ->
    u32 (rtc s) = 0 \/ rc1 <> 0 \/ size <> u32 rc2 ->
    let clock :=
      rtc_next E (trace s ++ [LcdGetInactiveBuffer; GetUnixTime (rtc s)]) in
    CoreFS.filesystem_write E path data size s =
    if u32 (rtc s) =? 0 then
      (AssertFails "current_time",
       mk_sys (lfs s) clock
         (trace s ++ [LcdGetInactiveBuffer; GetUnixTime (rtc s)]))
    else if negb (rc1 =? 0) then
      (AssertFails "0 == lfs_file_opencfg(&lfs, &file, path, flags, &file_cfg)",
       mk_sys l1 clock
         (trace s ++ [LcdGetInactiveBuffer; GetUnixTime (rtc s);
                      LfsFileOpencfg LocalFile path (core_write_flags E)
                        core_write_config [time_attr_at (u32 (rtc s))]]))
    else
      (AssertFails "size == lfs_file_write(&lfs, &file, data, size)",
       mk_sys l2 clock
         (trace s ++ [LcdGetInactiveBuffer; GetUnixTime (rtc s);
                      LfsFileOpencfg LocalFile path (core_write_flags E)
                        core_write_config [time_attr_at (u32 (rtc s))];
                      LfsFileWrite LocalFile data size])).
Proof.
  intros lfs_t lfs_file_t E path data size s rc1 rc2 l1 l2 f1 f2 Hopen Hwrite
    Hfail clock. subst clock.
  destruct (Z.eqb_spec (u32 (rtc s)) 0) as [Hz | Hnz].
  { now apply core_write_clock_zero. }
  unfold CoreFS.filesystem_write, bind, log, GW_GetUnixTime, lfs_file_opencfg,
    lfs_file_write, lfs_file_close, set_lfs, modify, get, ret, assert.
  cbn -[CoreFS.attributes_of]. rewrite !core_attributes.
  apply Z.eqb_neq in Hnz. rewrite Hnz. cbn.
  unfold core_write_flags, core_write_config in Hopen.
  rewrite Hopen. cbn.
  destruct (Z.eqb_spec rc1 0) as [-> | Hrc1]; cbn.
  - rewrite Hwrite. cbn.
    destruct (Z.eqb_spec size (u32 rc2)) as [Heq | Hne]; cbn.
    + apply Z.eqb_neq in Hnz. destruct Hfail as [? | [? | ?]]; congruence.
    + now rewrite <- !app_assoc.
  - destruct rc1 as [ | p | p]; [ congruence | | ]; cbn;
      now rewrite <- !app_assoc.
Qed.

Lemma core_write_stops_at_the_first_failure_witness :
  let E := RamDisk.ram_disk 1 in
  let s := RamDisk.blank 0 in
  CoreFS.filesystem_write E "save" [1; 2; 3] 3 s =
  (AssertFails "current_time",
   mk_sys (RamDisk.mk_disk true []) 0
     [LcdGetInactiveBuffer; GetUnixTime 0]).
Proof.
  intros E s.
  apply (core_write_stops_at_the_first_failure _ _ E "save" [1; 2; 3] 3 s
           0 3 (RamDisk.mk_disk true [("save", [])])
           (RamDisk.mk_disk true [("save", [1; 2; 3])]) "save" "save").
  - reflexivity.
  - reflexivity.
  - left. reflexivity.
Defined.

(** ** The pool over runs of the public interface *)

(** X25. In every state the pooled variant can reach, an open without
    compression returns [NULL] exactly when both slots are marked in use. *)
Theorem raw_open_fails_exactly_on_full_pool :
  forall (lfs_t lfs_file_t : Type) (E : externals lfs_t lfs_file_t)
         (FILESYSTEM_START FILESYSTEM_END : Z)
         (w : PoolFS.world lfs_t lfs_file_t) (path : string)
         (write_mode : bool),
    reachable E FILESYSTEM_START FILESYSTEM_END w ->
    (fst (PoolFS.filesystem_open E path write_mode false w) = Returns NULL
     <-> PoolFS.file_handles_used_bitmask w = 3).
Proof.
  intros lfs_t lfs_file_t E FS FE w path write_mode Hreach.
  destruct (reachable_invariant E FS FE w Hreach) as (Hwf & _ & Hmask).
  rewrite open_run by exact Hwf. unfold open_result.
  destruct (first_free _) as [[i bit] | ] eqn:Hf.
  - split.
    + destruct (_ =? 0); [ discriminate | ].
      destruct (opencfg_result E _ _ _ _ _) as [[rc l] obj]. cbn [fst].
      destruct (0 =? rc); discriminate.
    + intros H3. rewrite H3 in Hf. discriminate Hf.
  - split; [ intros _ | reflexivity ].
    now apply first_free_none.
Qed.

Lemma raw_open_fails_exactly_on_full_pool_witness :
  let E := RamDisk.ram_disk 0 in
  let w := PoolFS.initial_world E (RamDisk.blank 1700000000) in
  fst (PoolFS.filesystem_open E "save" true false w) = Returns NULL
  <-> PoolFS.file_handles_used_bitmask w = 3.
Proof.
  intros E w.
  apply (raw_open_fails_exactly_on_full_pool _ _ E 0 4096 w "save" true).
  apply reach_start.
Defined.

Section SlotOne.
Context {lfs_t lfs_file_t : Type}.
Variable E : externals lfs_t lfs_file_t.
Abbreviation W := (PoolFS.world lfs_t lfs_file_t).
Abbreviation stays := (@slot_1_stays_marked lfs_t lfs_file_t).

Lemma stays_refl (w : W) : stays w w.
Proof. now intros H. Qed.

Lemma stays_trans (w1 w2 w3 : W) : stays w1 w2 -> stays w2 w3 -> stays w1 w3.
Proof. unfold slot_1_stays_marked. auto. Qed.

Lemma stays_same_mask (w w' : W) :
  PoolFS.file_handles_used_bitmask w' = PoolFS.file_handles_used_bitmask w ->
  stays w w'.
Proof. unfold slot_1_stays_marked, slot_used. now intros ->. Qed.

Lemma stays_store (i : Z) (h : PoolFS.filesystem_file_handle_t lfs_file_t) :
  respects stays (PoolFS.store_handle i h).
Proof.
  intros w. apply stays_same_mask.
  unfold PoolFS.store_handle, bind, get. now destruct (PoolFS.slot_index i).
Qed.

Lemma stays_lift {A : Type} (m : M (sys lfs_t) A) :
  respects stays (@PoolFS.lift lfs_t lfs_file_t A m).
Proof.
  intros w. apply stays_same_mask. unfold PoolFS.lift.
  now destruct (m (PoolFS.system w)).
Qed.

Lemma stays_set_cfg (c : lfs_config) :
  respects stays (@PoolFS.set_cfg lfs_t lfs_file_t c).
Proof. intros w. now apply stays_same_mask. Qed.

Lemma stays_acquire (use_compression : bool) :
  respects stays (PoolFS.acquire_file_handle E use_compression).
Proof.
  intros w. rewrite acquire_run.
  destruct (first_free _) as [[i bit] | ]; [ | apply stays_refl ].
  assert (Hor : forall hs owner c s,
             stays w (PoolFS.mk_world hs
                        (Z.lor (PoolFS.file_handles_used_bitmask w) bit)
                        owner c s)).
  { intros hs owner c s H1. unfold slot_used in *.
    cbn [PoolFS.file_handles_used_bitmask].
    now rewrite Z.lor_spec, H1. }
  destruct (use_compression && _); apply Hor.
Qed.

Lemma stays_release (file : file_ptr) :
  respects stays (PoolFS.release_file_handle file).
Proof.
  intros w. rewrite release_run.
  destruct file as [ | i | | a]; try apply stays_refl.
  destruct ((i =? 0) || (i =? 1)); [ | apply stays_refl ].
  intros H1. unfold slot_used in *. cbn [snd PoolFS.file_handles_used_bitmask].
  rewrite u8_land_lnot_1_high by lia. exact H1.
Qed.
End SlotOne.

Ltac stays_side :=
  first [ exact stays_refl | exact stays_trans | exact stays_store
        | exact (stays_acquire _) | exact stays_release | exact stays_set_cfg
        | intros; apply stays_lift ].

(** X26. Once slot 1 is marked in use, no function of the public interface
    unmarks it again, whatever its arguments and its outcome. *)
Theorem slot_1_is_never_released :
  forall (lfs_t lfs_file_t : Type) (E : externals lfs_t lfs_file_t)
         (w : PoolFS.world lfs_t lfs_file_t),
    slot_used w 1 = true ->
    (forall path write_mode use_compression,
        slot_used
          (snd (PoolFS.filesystem_open E path write_mode use_compression w)) 1
        = true)
    /\ (forall file,
          slot_used (snd (PoolFS.filesystem_close E file w)) 1 = true)
    /\ (forall file size,
          slot_used (snd (PoolFS.filesystem_read E file size w)) 1 = true)
    /\ (forall file data size,
          slot_used (snd (PoolFS.filesystem_write E file data size w)) 1
          = true)
    /\ (forall file off whence,
          slot_used (snd (PoolFS.filesystem_seek E file off whence w)) 1
          = true)
    /\ (forall FILESYSTEM_START FILESYSTEM_END,
          slot_used
            (snd (PoolFS.filesystem_init E FILESYSTEM_START FILESYSTEM_END w))
            1
          = true).
Proof.
  intros lfs_t lfs_file_t E w H1.
  repeat split; intros.
  - revert H1. apply (respects_open E slot_1_stays_marked); stays_side.
  - revert H1. apply (respects_close E slot_1_stays_marked); stays_side.
  - revert H1. apply (respects_read E slot_1_stays_marked); stays_side.
  - revert H1. apply (respects_write E slot_1_stays_marked); stays_side.
  - revert H1. apply (respects_seek E slot_1_stays_marked); stays_side.
  - revert H1. apply (respects_init E slot_1_stays_marked); stays_side.
Qed.

Lemma slot_1_is_never_released_witness :
  let E := RamDisk.ram_disk 0 in
  let w := PoolFS.mk_world [opened_handle 0 "a"; opened_handle 1 "b"] 3 (-1)
             PoolFS.cfg_initializer (RamDisk.blank 1700000000) in
  slot_used (snd (PoolFS.filesystem_close E (HandleFile 1) w)) 1 = true.
Proof.
  intros E w.
  apply (proj1 (proj2 (slot_1_is_never_released _ _ E w eq_refl))).
Defined.

(** ** Start-up of the pooled variant *)

Section PoolInit.
Context {lfs_t lfs_file_t : Type}.
Variable E : externals lfs_t lfs_file_t.
Abbreviation W := (PoolFS.world lfs_t lfs_file_t).
Abbreviation quiet := (@emits lfs_t lfs_file_t (fun c => is_format c = false)).

Lemma boot_counter_never_formats : respects quiet (PoolFS.boot_counter E).
Proof.
  pose proof (@emits_trans lfs_t lfs_file_t (fun c => is_format c = false))
    as Ht.
  apply respects_boot_counter;
    first [ exact Ht
          | intros;
            first [ apply emits_refl | apply emits_store
                  | apply emits_acquire | apply emits_release
                  | apply emits_printf | apply emits_time
                  | apply emits_opencfg | apply emits_file_close
                  | apply emits_file_write | apply emits_file_read
                  | apply emits_file_seek ];
            try reflexivity; intros; reflexivity ].
Qed.

Lemma mounted_tail_never_formats :
  respects quiet
    (PoolFS.lift (printf "Filesystem mounted.\n" []) ;; PoolFS.boot_counter E)%C.
Proof.
  pose proof (@emits_trans lfs_t lfs_file_t (fun c => is_format c = false))
    as Ht.
  respects_step.
  - apply emits_printf. reflexivity.
  - apply boot_counter_never_formats.
Qed.

Lemma pool_init_run (FILESYSTEM_START FILESYSTEM_END : Z) (w : W) (rc : Z)
    (l : lfs_t) :
  let g := set_block_count (PoolFS.cfg w)
             (u32 (Z.shiftr (PoolFS.filesystem_region_size
                              FILESYSTEM_START FILESYSTEM_END) 12)) in
  mount_result E (lfs (PoolFS.system w)) g = (rc, l) ->
  let w2 := PoolFS.mk_world (PoolFS.file_handles w)
              (PoolFS.file_handles_used_bitmask w)
              (PoolFS.file_index_using_compression w) g
              (mk_sys l (rtc (PoolFS.system w))
                 (trace (PoolFS.system w) ++ [LfsMount g])) in
  PoolFS.filesystem_init E FILESYSTEM_START FILESYSTEM_END w =
  ((if negb (rc =? 0) then
      PoolFS.lift (printf "Filesystem formatting...\n" []) ;;
      rc <- PoolFS.lift (lfs_format E g) ;;
      assert (rc =? 0) "lfs_format(&lfs, &cfg) == 0" ;;
      rc <- PoolFS.lift (lfs_mount E g) ;;
      assert (rc =? 0) "lfs_mount(&lfs, &cfg) == 0"
    else ret tt) ;;
   PoolFS.lift (printf "Filesystem mounted.\n" []) ;;
   PoolFS.boot_counter E)%C w2.
Proof.
  intros g Hm w2.
  unfold PoolFS.filesystem_init.
  unfold bind at 1, get at 1. unfold bind at 1, PoolFS.set_cfg at 1, modify at 1.
  unfold bind at 1, get at 1. unfold bind at 1.
  unfold PoolFS.lift at 1, lfs_mount at 1.
  cbn [PoolFS.system PoolFS.cfg PoolFS.file_handles
       PoolFS.file_handles_used_bitmask PoolFS.file_index_using_compression].
  fold g.
  unfold bind at 1, get at 1. unfold bind at 1, log at 1, modify at 1.
  cbn [lfs rtc trace]. rewrite Hm.
  unfold bind at 1, set_lfs at 1, modify at 1. unfold ret at 1.
  reflexivity.
Qed.

Lemma remount_never_formats (g : lfs_config) :
  respects quiet
    (rc <- PoolFS.lift (lfs_mount E g) ;;
     assert (rc =? 0) "lfs_mount(&lfs, &cfg) == 0")%C.
Proof.
  pose proof (@emits_trans lfs_t lfs_file_t (fun c => is_format c = false))
    as Ht.
  respects_step.
  - apply emits_mount. reflexivity.
  - apply respects_assert. apply emits_refl.
Qed.
End PoolInit.

(** X22. The pooled [filesystem_init] formats at most once, and only right
    after a first mount that failed: when the first mount answers 0 no
    [lfs_format] is called at all; otherwise the format follows the
    message, nothing formats after it, and a format that fails stops the
    start-up at its assertion. *)
Theorem pool_init_formats_only_after_failed_mount :
  forall (lfs_t lfs_file_t : Type) (E : externals lfs_t lfs_file_t)
         (FILESYSTEM_START FILESYSTEM_END : Z)
         (w : PoolFS.world lfs_t lfs_file_t) (rc rc1 : Z) (l l1 : lfs_t),
    let g := set_block_count (PoolFS.cfg w)
               (u32 (Z.shiftr (PoolFS.filesystem_region_size
                              FILESYSTEM_START FILESYSTEM_END) 12)) in
    mount_result E (lfs (PoolFS.system w)) g = (rc, l) ->
    format_result E l g = (rc1, l1) ->
    let r := PoolFS.filesystem_init E FILESYSTEM_START FILESYSTEM_END w in
    (rc = 0 ->
     exists rest,
       trace (PoolFS.system (snd r))
       = trace (PoolFS.system w)
         ++ [LfsMount g; Printf "Filesystem mounted.\n" []] ++ rest
       /\ Forall (fun c => is_format c = false) rest)
    /\ (rc <> 0 ->
        exists rest,
          trace (PoolFS.system (snd r))
          = trace (PoolFS.system w)
            ++ [LfsMount g; Printf "Filesystem formatting...\n" [];
                LfsFormat g] ++ rest
          /\ Forall (fun c => is_format c = false) rest
          /\ (rc1 <> 0 ->
              rest = []
              /\ fst r = AssertFails "lfs_format(&lfs, &cfg) == 0")).
Proof.
  intros lfs_t lfs_file_t E FS FE w rc rc1 l l1 g Hm Hf r. subst r.
  rewrite (pool_init_run E FS FE w rc l Hm). fold g.
  set (w2 := PoolFS.mk_world _ _ _ g _).
  split.
  - intros ->. change (negb (0 =? 0)) with false. cbv iota.
    unfold bind at 1, ret at 1.
    unfold bind at 1, PoolFS.lift at 1, printf at 1, log at 1, modify at 1.
    cbn [PoolFS.system PoolFS.cfg PoolFS.file_handles
         PoolFS.file_handles_used_bitmask PoolFS.file_index_using_compression
         lfs rtc trace w2].
    match goal with
    | |- context [ PoolFS.boot_counter E ?w3 ] =>
        destruct (boot_counter_never_formats E w3) as (new & Hnew & Hall)
    end.
    exists new. rewrite Hnew. cbn [PoolFS.system trace].
    split; [ | exact Hall ]. now rewrite <- !app_assoc.
  - intros Hrc. apply Z.eqb_neq in Hrc. rewrite Hrc.
    change (negb false) with true. cbv iota.
    set (w4 := PoolFS.mk_world (PoolFS.file_handles w)
                 (PoolFS.file_handles_used_bitmask w)
                 (PoolFS.file_index_using_compression w) g
                 (mk_sys l1 (rtc (PoolFS.system w))
                    (((trace (PoolFS.system w) ++ [LfsMount g])
                      ++ [Printf "Filesystem formatting...\n" []])
                     ++ [LfsFormat g]))).
    match goal with
    | |- context [ snd ?run ] =>
        assert (Hrun :
          run =
          if rc1 =? 0 then
            bind (rc <- PoolFS.lift (lfs_mount E g) ;;
                  assert (rc =? 0) "lfs_mount(&lfs, &cfg) == 0")%C
                 (fun _ =>
                    PoolFS.lift (printf "Filesystem mounted.\n" []) ;;
                    PoolFS.boot_counter E)%C w4
          else (AssertFails "lfs_format(&lfs, &cfg) == 0", w4))
    end.
    { unfold bind at 1. unfold bind at 1.
      unfold PoolFS.lift at 1, printf at 1, log at 1, modify at 1.
      cbn [PoolFS.system PoolFS.cfg PoolFS.file_handles
           PoolFS.file_handles_used_bitmask
           PoolFS.file_index_using_compression lfs rtc trace w2].
      unfold bind at 1.
      unfold PoolFS.lift at 1, lfs_format at 1.
      cbn [PoolFS.system PoolFS.cfg PoolFS.file_handles
           PoolFS.file_handles_used_bitmask
           PoolFS.file_index_using_compression].
      unfold bind at 1, get at 1. unfold bind at 1, log at 1, modify at 1.
      cbn [lfs rtc trace]. rewrite Hf.
      unfold bind at 1, set_lfs at 1, modify at 1. unfold ret at 1.
      cbn [lfs rtc trace].
      unfold bind at 1, assert at 1.
      now destruct (rc1 =? 0). }
    rewrite Hrun. clear Hrun.
    destruct (Z.eqb_spec rc1 0) as [-> | Hrc1].
    + unfold bind at 1.
      destruct (remount_never_formats E g w4) as (new & Hnew & Hall).
      destruct (bind (PoolFS.lift (lfs_mount E g)) _ w4) as [o w5].
      cbn [snd PoolFS.system trace w4] in Hnew.
      destruct o as [[] | e | u].
      * destruct (mounted_tail_never_formats E w5) as (new' & Hnew' & Hall').
        exists (new ++ new'). rewrite Hnew', Hnew.
        split; [ now rewrite <- !app_assoc | ].
        split; [ now apply Forall_app | congruence ].
      * exists new. cbn [snd fst]. rewrite Hnew.
        split; [ now rewrite <- !app_assoc | ].
        split; [ exact Hall | congruence ].
      * exists new. cbn [snd fst]. rewrite Hnew.
        split; [ now rewrite <- !app_assoc | ].
        split; [ exact Hall | congruence ].
    + exists []. cbn [snd fst PoolFS.system trace w4].
      split; [ now rewrite <- !app_assoc | ].
      split; [ constructor | ].
      intros _. split; reflexivity.
Qed.

Lemma pool_init_formats_only_after_failed_mount_witness :
  let E := RamDisk.ram_disk 0 in
  let w := PoolFS.initial_world E
             (mk_sys (RamDisk.mk_disk false []) 1700000000 []) in
  let g := set_block_count (PoolFS.cfg w)
             (u32 (Z.shiftr (PoolFS.filesystem_region_size 0 8192) 12)) in
  let r := PoolFS.filesystem_init E 0 8192 w in
  (RamDisk.LFS_ERR_CORRUPT = 0 ->
   exists rest,
     trace (PoolFS.system (snd r))
     = trace (PoolFS.system w)
       ++ [LfsMount g; Printf "Filesystem mounted.\n" []] ++ rest
     /\ Forall (fun c => is_format c = false) rest)
  /\ (RamDisk.LFS_ERR_CORRUPT <> 0 ->
      exists rest,
        trace (PoolFS.system (snd r))
        = trace (PoolFS.system w)
          ++ [LfsMount g; Printf "Filesystem formatting...\n" [];
              LfsFormat g] ++ rest
        /\ Forall (fun c => is_format c = false) rest
        /\ (0 <> 0 ->
            rest = []
            /\ fst r = AssertFails "lfs_format(&lfs, &cfg) == 0")).
Proof.
  intros E w.
  apply (pool_init_formats_only_after_failed_mount _ _ E 0 8192 w
           RamDisk.LFS_ERR_CORRUPT 0 (RamDisk.mk_disk false [])
           (RamDisk.mk_disk true [])).
  - reflexivity.
  - reflexivity.
Defined.

(** ** The boot counter *)

Section BootCounter.
Context {lfs_t lfs_file_t : Type}.
Variable E : externals lfs_t lfs_file_t.
Abbreviation W := (PoolFS.world lfs_t lfs_file_t).

Lemma boot_counter_run (w : W) (data : list Z) (n n2 c1 c2 : Z)
    (l1 l2 l3 l4 l5 l6 : lfs_t) (f1 f2 f3 f4 f5 f6 : lfs_file_t) :
  let s := PoolFS.system w in
  let now := u32 (rtc s) in
  let clock2 := rtc_next E (trace s ++ [GetUnixTime (rtc s)]) in
  let now2 := u32 clock2 in
  let next := u32 (PoolFS.of_le_bytes
                     (PoolFS.overwrite (PoolFS.le_bytes 0) data) + 1) in
  well_formed w ->
  0 <= PoolFS.file_handles_used_bitmask w < 256 ->
  Z.land (PoolFS.file_handles_used_bitmask w) 1 = 0 ->
  PoolFS.file_index_using_compression w <> 0 ->
  now <> 0 ->
  now2 <> 0 ->
  opencfg_result E (lfs s) "boot_counter" (LFS_O_RDONLY E) (slot_config 0)
    [time_attr_at now] = (0, l1, f1) ->
  read_result E l1 f1 4 = (n, data, l2, f2) ->
  close_result E l2 f2 = (c1, l3, f3) ->
  0 <= c1 ->
  opencfg_result E l3 "boot_counter" (Z.lor (LFS_O_WRONLY E) (LFS_O_CREAT E))
    (slot_config 0) [time_attr_at now2] = (0, l4, f4) ->
  write_result E l4 f4 (PoolFS.le_bytes next) 4 = (n2, l5, f5) ->
  4 = u32 n2 ->
  close_result E l5 f5 = (c2, l6, f6) ->
  0 <= c2 ->
  exists w',
    PoolFS.boot_counter E w = (Returns tt, w')
    /\ PoolFS.file_handles_used_bitmask w' = PoolFS.file_handles_used_bitmask w
    /\ lfs (PoolFS.system w') = l6
    /\ trace (PoolFS.system w')
       = trace s ++
         [GetUnixTime (rtc s);
          LfsFileOpencfg (HandleFile 0) "boot_counter" (LFS_O_RDONLY E)
            (slot_config 0) [time_attr_at now];
          LfsFileRead (HandleFile 0) 4;
          LfsFileClose (HandleFile 0) [time_attr_gone];
          GetUnixTime clock2;
          LfsFileOpencfg (HandleFile 0) "boot_counter"
            (Z.lor (LFS_O_WRONLY E) (LFS_O_CREAT E))
            (slot_config 0) [time_attr_at now2];
          LfsFileWrite (HandleFile 0) (PoolFS.le_bytes next) 4;
          LfsFileClose (HandleFile 0) [time_attr_gone];
          Printf "boot_count: %ld\n" [next]].
Proof.
  intros s now clock2 now2 next Hwf Hmask Hfree Howner Hclock Hclock2 Hopen1
    Hread Hclose1 Hc1 Hopen2 Hwrite Hn2 Hclose2 Hc2.
  subst now2 clock2.
  destruct w as [hs mask owner c [l rtc0 t]]. unfold well_formed in Hwf.
  cbn [PoolFS.file_handles] in Hwf.
  change (Z.to_nat PoolFS.MAX_OPEN_FILES) with 2%nat in Hwf.
  destruct hs as [ | h0 [ | h1 [ | ? ? ] ] ]; try discriminate Hwf.
  cbn [PoolFS.file_handles_used_bitmask PoolFS.file_index_using_compression
       PoolFS.system lfs rtc] in *.
  subst s. cbn [PoolFS.system lfs rtc] in *.
  unfold PoolFS.boot_counter.
  unfold bind at 1. rewrite open_run by reflexivity.
  unfold open_result.
  cbn [PoolFS.file_handles_used_bitmask PoolFS.file_index_using_compression
       PoolFS.system PoolFS.file_handles PoolFS.cfg lfs rtc trace].
  rewrite (first_free_slot_0 _ Hfree).
  unfold PoolFS.FILESYSTEM_RAW, PoolFS.FILESYSTEM_READ. cbv iota beta zeta.
  fold now. apply Z.eqb_neq in Hclock. rewrite Hclock.
  change (open_flags E false) with (LFS_O_RDONLY E).
  rewrite Hopen1. change (0 =? 0) with true. cbv iota beta.
  change (Z.to_nat 0) with 0%nat.
  change (<[0%nat:=opened_handle 0 f1]> [h0; h1]) with [opened_handle 0 f1; h1].
  unfold bind at 1. rewrite read_run by reflexivity.
  unfold io_outcome.
  cbn [PoolFS.file_handles_used_bitmask PoolFS.file_index_using_compression
       PoolFS.system PoolFS.file_handles PoolFS.cfg lfs rtc trace].
  change ((0 =? 0) || (0 =? 1)) with true. cbv iota.
  destruct (Z.eqb_spec 0 owner) as [Heq | _]; [ congruence | ].
  change (Z.to_nat 0) with 0%nat.
  change ([opened_handle 0 f1; h1] !! 0%nat) with (Some (opened_handle 0 f1)).
  cbv iota beta. cbn [PoolFS.file PoolFS.buffer PoolFS.file_attrs PoolFS.config
                      opened_handle].
  rewrite Hread. cbv iota beta zeta. cbn [snd].
  fold next.
  match goal with
  | |- context [ <[0%nat := ?x]> (?a :: ?r) ] =>
      change (<[0%nat := x]> (a :: r)) with (x :: r)
  end.
  unfold bind at 1. rewrite close_run by reflexivity.
  unfold close_outcome.
  cbn [PoolFS.file_handles_used_bitmask PoolFS.file_index_using_compression
       PoolFS.system PoolFS.file_handles PoolFS.cfg lfs rtc trace].
  change ((0 =? 0) || (0 =? 1)) with true. cbv iota.
  destruct (Z.eqb_spec 0 owner) as [Heq | _]; [ congruence | ].
  change (Z.to_nat 0) with 0%nat.
  match goal with
  | |- context [ (?a :: ?r) !! 0%nat ] =>
      change ((a :: r) !! 0%nat) with (Some a)
  end.
  cbv iota beta. cbn [PoolFS.file PoolFS.buffer PoolFS.file_attrs PoolFS.config].
  rewrite Hclose1. cbv iota beta zeta.
  destruct (Z.leb_spec 0 c1) as [_ | Hlt]; [ | lia ].
  rewrite (clear_after_set_bit0 mask Hmask Hfree).
  match goal with
  | |- context [ <[0%nat := ?x]> (?a :: ?r) ] =>
      change (<[0%nat := x]> (a :: r)) with (x :: r)
  end.
  unfold bind at 1. rewrite open_run by reflexivity.
  unfold open_result.
  cbn [PoolFS.file_handles_used_bitmask PoolFS.file_index_using_compression
       PoolFS.system PoolFS.file_handles PoolFS.cfg lfs rtc trace].
  rewrite (first_free_slot_0 _ Hfree).
  unfold PoolFS.FILESYSTEM_WRITE. cbv iota beta zeta.
  unfold after_reading. cbn [rtc trace lfs].
  cbn [trace] in Hclock2, Hopen2.
  apply Z.eqb_neq in Hclock2. rewrite Hclock2.
  change (open_flags E true) with (Z.lor (LFS_O_WRONLY E) (LFS_O_CREAT E)).
  rewrite Hopen2. change (0 =? 0) with true. cbv iota beta.
  change (Z.to_nat 0) with 0%nat.
  match goal with
  | |- context [ <[0%nat := ?x]> (?a :: ?r) ] =>
      change (<[0%nat := x]> (a :: r)) with (x :: r)
  end.
  unfold bind at 1. rewrite write_run by reflexivity.
  unfold io_outcome.
  cbn [PoolFS.file_handles_used_bitmask PoolFS.file_index_using_compression
       PoolFS.system PoolFS.file_handles PoolFS.cfg lfs rtc trace].
  change ((0 =? 0) || (0 =? 1)) with true. cbv iota.
  destruct (Z.eqb_spec 0 owner) as [Heq | _]; [ congruence | ].
  change (Z.to_nat 0) with 0%nat.
  match goal with
  | |- context [ (?a :: ?r) !! 0%nat ] =>
      change ((a :: r) !! 0%nat) with (Some a)
  end.
  cbv iota beta. cbn [PoolFS.file PoolFS.buffer PoolFS.file_attrs PoolFS.config
                      opened_handle].
  rewrite Hwrite. cbv iota beta zeta.
  match goal with
  | |- context [ <[0%nat := ?x]> (?a :: ?r) ] =>
      change (<[0%nat := x]> (a :: r)) with (x :: r)
  end.
  unfold bind at 1, assert at 1. rewrite <- Hn2.
  change (4 =? 4) with true. cbv iota beta.
  unfold bind at 1. rewrite close_run by reflexivity.
  unfold close_outcome.
  cbn [PoolFS.file_handles_used_bitmask PoolFS.file_index_using_compression
       PoolFS.system PoolFS.file_handles PoolFS.cfg lfs rtc trace].
  change ((0 =? 0) || (0 =? 1)) with true. cbv iota.
  destruct (Z.eqb_spec 0 owner) as [Heq | _]; [ congruence | ].
  change (Z.to_nat 0) with 0%nat.
  match goal with
  | |- context [ (?a :: ?r) !! 0%nat ] =>
      change ((a :: r) !! 0%nat) with (Some a)
  end.
  cbv iota beta. cbn [PoolFS.file PoolFS.buffer PoolFS.file_attrs PoolFS.config].
  rewrite Hclose2. cbv iota beta zeta.
  destruct (Z.leb_spec 0 c2) as [_ | Hlt]; [ | lia ].
  rewrite (clear_after_set_bit0 mask Hmask Hfree).
  unfold PoolFS.lift, printf, log, modify.
  cbn [PoolFS.file_handles_used_bitmask PoolFS.file_index_using_compression
       PoolFS.system PoolFS.file_handles PoolFS.cfg lfs rtc trace].
  eexists. split; [ reflexivity | ].
  cbn [PoolFS.file_handles_used_bitmask PoolFS.system lfs trace].
  split; [ reflexivity | split; [ reflexivity | ] ].
  repeat match goal with
         | |- context [PoolFS.attributes_of None ?c ?w0] =>
             change (PoolFS.attributes_of None c w0) with [time_attr_gone]
         end.
  now rewrite <- !app_assoc.
Qed.
End BootCounter.

Lemma le_bytes_round_trip (count : Z) :
  0 <= count < 2 ^ 32 ->
  PoolFS.of_le_bytes (PoolFS.overwrite (PoolFS.le_bytes 0)
                        (PoolFS.le_bytes count)) = count.
Proof.
  intros H.
  unfold PoolFS.overwrite, PoolFS.le_bytes, PoolFS.of_le_bytes.
  cbn [length firstn skipn app fold_right].
  change (2 ^ 8) with 256. change (2 ^ 16) with 65536.
  change (2 ^ 24) with 16777216. change (2 ^ 32) with 4294967296 in H.
  Z.to_euclidean_division_equations. lia.
Qed.

(** X23. When the stored counter can be opened, read and written back,
    [boot_counter] returns having written the counter it read plus one,
    wrapped to 32 bits, as four little-endian bytes; that same 32-bit value
    is the argument it hands to [printf], and the used bitmask is left as
    it was found.  Each of the two opens reads the clock for itself, so the
    second one stamps the file with the later reading; at either close
    nothing is left behind the time attribute's buffer. *)
Theorem boot_counter_increments :
  forall (lfs_t lfs_file_t : Type) (E : externals lfs_t lfs_file_t)
         (w : PoolFS.world lfs_t lfs_file_t) (count n n2 c1 c2 : Z)
         (l1 l2 l3 l4 l5 l6 : lfs_t) (f1 f2 f3 f4 f5 f6 : lfs_file_t),
    let s := PoolFS.system w in
    let now := u32 (rtc s) in
    let clock2 := rtc_next E (trace s ++ [GetUnixTime (rtc s)]) in
    let now2 := u32 clock2 in
    let next := u32 (count + 1) in
    well_formed w ->
    0 <= PoolFS.file_handles_used_bitmask w < 256 ->
    Z.land (PoolFS.file_handles_used_bitmask w) 1 = 0 ->
    PoolFS.file_index_using_compression w <> 0 ->
    now <> 0 ->
    now2 <> 0 ->
    0 <= count < 2 ^ 32 ->
    opencfg_result E (lfs s) "boot_counter" (LFS_O_RDONLY E) (slot_config 0)
      [time_attr_at now] = (0, l1, f1) ->
    read_result E l1 f1 4 = (n, PoolFS.le_bytes count, l2, f2) ->
    close_result E l2 f2 = (c1, l3, f3) ->
    0 <= c1 ->
    opencfg_result E l3 "boot_counter" (Z.lor (LFS_O_WRONLY E) (LFS_O_CREAT E))
      (slot_config 0) [time_attr_at now2] = (0, l4, f4) ->
    write_result E l4 f4 (PoolFS.le_bytes next) 4 = (n2, l5, f5) ->
    4 = u32 n2 ->
    close_result E l5 f5 = (c2, l6, f6) ->
    0 <= c2 ->
    fst (PoolFS.boot_counter E w) = Returns tt
    /\ PoolFS.file_handles_used_bitmask (snd (PoolFS.boot_counter E w))
       = PoolFS.file_handles_used_bitmask w
    /\ lfs (PoolFS.system (snd (PoolFS.boot_counter E w))) = l6
    /\ trace (PoolFS.system (snd (PoolFS.boot_counter E w)))
       = trace s ++
         [GetUnixTime (rtc s);
          LfsFileOpencfg (HandleFile 0) "boot_counter" (LFS_O_RDONLY E)
            (slot_config 0) [time_attr_at now];
          LfsFileRead (HandleFile 0) 4;
          LfsFileClose (HandleFile 0) [time_attr_gone];
          GetUnixTime clock2;
          LfsFileOpencfg (HandleFile 0) "boot_counter"
            (Z.lor (LFS_O_WRONLY E) (LFS_O_CREAT E))
            (slot_config 0) [time_attr_at now2];
          LfsFileWrite (HandleFile 0) (PoolFS.le_bytes next) 4;
          LfsFileClose (HandleFile 0) [time_attr_gone];
          Printf "boot_count: %ld\n" [next]].
Proof.
  intros lfs_t lfs_file_t E w count n n2 c1 c2 l1 l2 l3 l4 l5 l6
    f1 f2 f3 f4 f5 f6 s now clock2 now2 next Hwf Hmask Hfree Howner Hclock
    Hclock2 Hcount Hopen1 Hread Hclose1 Hc1 Hopen2 Hwrite Hn2 Hclose2 Hc2.
  assert (Hnext : next =
            u32 (PoolFS.of_le_bytes
                   (PoolFS.overwrite (PoolFS.le_bytes 0)
                      (PoolFS.le_bytes count)) + 1)).
  { now rewrite le_bytes_round_trip. }
  rewrite Hnext in Hwrite.
  destruct (boot_counter_run E w (PoolFS.le_bytes count) n n2 c1 c2
              l1 l2 l3 l4 l5 l6 f1 f2 f3 f4 f5 f6
              Hwf Hmask Hfree Howner Hclock Hclock2 Hopen1 Hread Hclose1 Hc1
              Hopen2 Hwrite Hn2 Hclose2 Hc2)
    as (w' & Hrun & Hm & Hl & Ht).
  rewrite Hrun. cbn [fst snd]. rewrite Hnext.
  now repeat split.
Qed.

Lemma boot_counter_increments_witness :
  let E := RamDisk.ram_disk_at_pace 3 0 in
  let d := RamDisk.mk_disk true [("boot_counter", [41; 0; 0; 0])] in
  let w := PoolFS.initial_world E (mk_sys d 1700000000 []) in
  fst (PoolFS.boot_counter E w) = Returns tt
  /\ PoolFS.file_handles_used_bitmask (snd (PoolFS.boot_counter E w)) = 0
  /\ lfs (PoolFS.system (snd (PoolFS.boot_counter E w)))
     = RamDisk.mk_disk true [("boot_counter", [42; 0; 0; 0])]
  /\ trace (PoolFS.system (snd (PoolFS.boot_counter E w)))
     = [] ++
       [GetUnixTime 1700000000;
        LfsFileOpencfg (HandleFile 0) "boot_counter" (LFS_O_RDONLY E)
          (slot_config 0) [time_attr_at (u32 1700000000)];
        LfsFileRead (HandleFile 0) 4;
        LfsFileClose (HandleFile 0) [time_attr_gone];
        GetUnixTime 1700000003;
        LfsFileOpencfg (HandleFile 0) "boot_counter"
          (Z.lor (LFS_O_WRONLY E) (LFS_O_CREAT E))
          (slot_config 0) [time_attr_at (u32 1700000003)];
        LfsFileWrite (HandleFile 0) (PoolFS.le_bytes (u32 (41 + 1))) 4;
        LfsFileClose (HandleFile 0) [time_attr_gone];
        Printf "boot_count: %ld\n" [u32 (41 + 1)]].
Proof.
  intros E d w.
  apply (boot_counter_increments _ _ E w 41 4 4 0 0 d d d d
           (RamDisk.mk_disk true [("boot_counter", [42; 0; 0; 0])])
           (RamDisk.mk_disk true [("boot_counter", [42; 0; 0; 0])])
           "boot_counter" "boot_counter" "boot_counter" "boot_counter"
           "boot_counter" "boot_counter").
  - reflexivity.
  - vm_compute. split; [ discriminate | reflexivity ].
  - reflexivity.
  - discriminate.
  - discriminate.
  - discriminate.
  - vm_compute. split; [ discriminate | reflexivity ].
  - reflexivity.
  - reflexivity.
  - reflexivity.
  - discriminate.
  - reflexivity.
  - reflexivity.
  - reflexivity.
  - reflexivity.
  - discriminate.
Defined.

(** X27. When the counter file cannot be opened for reading, as on a
    filesystem that has just been formatted, [boot_counter] stops at the
    assertion inside [filesystem_open]: nothing is read, and no counter is
    written. *)
Theorem boot_counter_stops_when_the_file_is_missing :
  forall (lfs_t lfs_file_t : Type) (E : externals lfs_t lfs_file_t)
         (w : PoolFS.world lfs_t lfs_file_t) (i bit rc : Z)
         (l : lfs_t) (obj : lfs_file_t),
    let s := PoolFS.system w in
    well_formed w ->
    first_free (PoolFS.file_handles_used_bitmask w) = Some (i, bit) ->
    u32 (rtc s) <> 0 ->
    opencfg_result E (lfs s) "boot_counter" (LFS_O_RDONLY E) (slot_config i)
      [time_attr_at (u32 (rtc s))] = (rc, l, obj) ->
    rc <> 0 ->
    fst (PoolFS.boot_counter E w)
      = AssertFails "0 == lfs_file_opencfg(&lfs, &fs_file_handle->file, path, flags, &fs_file_handle->config)"
    /\ trace (PoolFS.system (snd (PoolFS.boot_counter E w)))
       = trace s ++
         [GetUnixTime (rtc s);
          LfsFileOpencfg (HandleFile i) "boot_counter" (LFS_O_RDONLY E)
            (slot_config i) [time_attr_at (u32 (rtc s))]].
Proof.
  intros lfs_t lfs_file_t E w i bit rc l obj s Hwf Hf Hclock Hopen Hrc.
  assert (Hrun : exists w',
             PoolFS.boot_counter E w
             = (AssertFails "0 == lfs_file_opencfg(&lfs, &fs_file_handle->file, path, flags, &fs_file_handle->config)", w')
             /\ trace (PoolFS.system w')
                = trace s ++
                  [GetUnixTime (rtc s);
                   LfsFileOpencfg (HandleFile i) "boot_counter"
                     (LFS_O_RDONLY E) (slot_config i)
                     [time_attr_at (u32 (rtc s))]]).
  { unfold PoolFS.boot_counter. unfold bind at 1.
    rewrite open_run by exact Hwf. unfold open_result.
    rewrite Hf. unfold PoolFS.FILESYSTEM_RAW, PoolFS.FILESYSTEM_READ.
    cbv iota beta zeta. fold s.
    apply Z.eqb_neq in Hclock. rewrite Hclock.
    change (open_flags E false) with (LFS_O_RDONLY E). rewrite Hopen.
    destruct (Z.eqb_spec 0 rc) as [Heq | _]; [ congruence | ].
    eexists. split; reflexivity. }
  destruct Hrun as (w' & -> & Ht). now split.
Qed.

Lemma boot_counter_stops_when_the_file_is_missing_witness :
  let E := RamDisk.ram_disk 0 in
  let w := PoolFS.initial_world E (RamDisk.blank 1700000000) in
  fst (PoolFS.boot_counter E w)
    = AssertFails "0 == lfs_file_opencfg(&lfs, &fs_file_handle->file, path, flags, &fs_file_handle->config)"
  /\ trace (PoolFS.system (snd (PoolFS.boot_counter E w)))
     = [] ++
       [GetUnixTime 1700000000;
        LfsFileOpencfg (HandleFile 0) "boot_counter" (LFS_O_RDONLY E)
          (slot_config 0) [time_attr_at (u32 1700000000)]].
Proof.
  intros E w.
  apply (boot_counter_stops_when_the_file_is_missing _ _ E w 0 1
           RamDisk.LFS_ERR_NOENT (RamDisk.mk_disk true []) "").
  - reflexivity.
  - reflexivity.
  - discriminate.
  - reflexivity.
  - discriminate.
Defined.
